(** * wap: the matching and resolution engine

    A shallow embedding of [wap/structs.py], [wap/match.py] and the pattern
    loader of [wap/load.py], with the properties of the engine that the
    specification states about them.

    Conventions of the embedding.
    - A Python [str] is a [string]; a character is a code point below 256
      (Latin-1), which is where [str.lower] and [str.strip] are written out.
    - A Python [int] is a [Z].
    - A [dict] is an association list in insertion order, since the code
      iterates over dictionaries ([technologies.values()], [for key in ...]).
    - A compiled [re.Pattern] is the function its [search] method computes;
      [re.compile] and [int] are parameters of the loader, each of which
      gives a value or raises.
    - A generator is the list of the values it yields. *)

From Stdlib Require Import List String Ascii ZArith Lia Bool Arith.
From Stdlib Require Import Permutation DecimalString DecimalNat.
Import ListNotations.

Local Open Scope string_scope.
Local Open Scope list_scope.

(** ** Python primitives on strings *)

Module Py.

(** [str.lower] on one code point: A-Z and the Latin-1 capitals. *)
Definition lower_char (c : ascii) : ascii :=
  let n := nat_of_ascii c in
  if (((65 <=? n) && (n <=? 90))
      || ((192 <=? n) && (n <=? 222) && negb (n =? 215)))%nat
  then ascii_of_nat (n + 32) else c.

Fixpoint lower (s : string) : string :=
  match s with
  | EmptyString => EmptyString
  | String c r => String (lower_char c) (lower r)
  end.

(** [str.isspace] on one code point. *)
Definition is_space (c : ascii) : bool :=
  let n := nat_of_ascii c in
  (((9 <=? n) && (n <=? 13)) || ((28 <=? n) && (n <=? 32))
   || (n =? 133) || (n =? 160))%nat.

Fixpoint lstrip (s : string) : string :=
  match s with
  | EmptyString => EmptyString
  | String c r => if is_space c then lstrip r else s
  end.

(** [rstrip] keeps a character when it is not a space or when something
    is kept after it. *)
Fixpoint rstrip (s : string) : string :=
  match s with
  | EmptyString => EmptyString
  | String c r =>
      match rstrip r with
      | EmptyString => if is_space c then EmptyString else String c EmptyString
      | r' => String c r'
      end
  end.

(** [str.strip()] *)
Definition strip (s : string) : string := rstrip (lstrip s).

(** [s.replace(old, new)] for a non-empty [old]: occurrences are taken left
    to right and do not overlap.  [skip] counts the characters of an
    occurrence that were already consumed. *)
Fixpoint replace_from (old new : string) (skip : nat) (s : string) : string :=
  match s with
  | EmptyString => EmptyString
  | String c r =>
      match skip with
      | S k => replace_from old new k r
      | O =>
          if prefix old s
          then new ++ replace_from old new (String.length old - 1) r
          else String c (replace_from old new 0 r)
      end
  end.

(** With an empty [old], Python puts [new] before every character and at
    the end. *)
Fixpoint intersperse (new s : string) : string :=
  match s with
  | EmptyString => new
  | String c r => new ++ String c (intersperse new r)
  end.

Definition replace (s old new : string) : string :=
  match old with
  | EmptyString => intersperse new s
  | _ => replace_from old new 0 s
  end.

(** ["{}".format(index)] for a non-negative index. *)
Definition format_nat (n : nat) : string :=
  NilEmpty.string_of_uint (Nat.to_uint n).

(** Truthiness of a [str]. *)
Definition truthy (s : string) : bool :=
  match s with EmptyString => false | _ => true end.

(** [d.get(key, default)] and [d[key]] on an insertion-ordered dict. *)
Fixpoint get {V : Type} (d : list (string * V)) (key : string) : option V :=
  match d with
  | [] => None
  | (k, v) :: r => if String.eqb k key then Some v else get r key
  end.

(** [d[key] = v]: an existing key keeps its place, a new one goes last. *)
Fixpoint set {V : Type} (d : list (string * V)) (key : string) (v : V)
  : list (string * V) :=
  match d with
  | [] => [(key, v)]
  | (k, w) :: r =>
      if String.eqb k key then (k, v) :: r else (k, w) :: set r key v
  end.

(** [x in names] for a list of strings. *)
Definition mem (x : string) (l : list string) : bool :=
  existsb (String.eqb x) l.

End Py.

(** ** [re]: compiled patterns and match objects *)

Module Re.

(** A match object: [group()] and [groups()]; a group that did not take
    part in the match is [None]. *)
Record Match := { group : string; groups : list (option string) }.

(** A compiled pattern is what its [search] method computes. *)
Definition Pattern := string -> option Match.

Definition search (regex : Pattern) (value : string) : option Match :=
  regex value.

(** The longest prefix of [s] whose characters satisfy [keep], and the
    rest: how a greedy character class consumes its input. *)
Fixpoint span (keep : ascii -> bool) (s : string) : string * string :=
  match s with
  | EmptyString => (EmptyString, EmptyString)
  | String c r =>
      if keep c then let (a, b) := span keep r in (String c a, b)
      else (EmptyString, s)
  end.

Definition colon : ascii := ":"%char.
Definition newline : ascii := ascii_of_nat 10.

(** The tail of the ternary regex, anchored where [s] starts: a group of
    one or more characters other than a colon, a colon, a group of any
    characters, and the end anchor.  The first group takes every character
    up to the first colon and must take at least one; the dot stops at a
    line feed, and the anchor holds at the end of the string or just before
    a final line feed.  Neither greedy part can give characters back, so
    there is one way to match. *)
Definition branches_at (s : string) : option (string * string) :=
  let (yes, r1) := span (fun c => negb (Ascii.eqb c colon)) s in
  match yes, r1 with
  | EmptyString, _ => None
  | _, EmptyString => None
  | _, String _ r2 =>
      let (no, r3) := span (fun c => negb (Ascii.eqb c newline)) r2 in
      match r3 with
      | EmptyString => Some (yes, no)
      | String _ EmptyString => Some (yes, no)
      | _ => None
      end
  end.

Fixpoint drop (n : nat) (s : string) : string :=
  match n, s with
  | O, _ => s
  | S k, String _ r => drop k r
  | S _, EmptyString => EmptyString
  end.

(** [re.search] of a literal, non-empty [head] followed by that tail: the
    leftmost position that matches, as the list of [group()], [group(1)]
    and [group(2)]. *)
Fixpoint search_ternary (head s : string) : option (list string) :=
  match s with
  | EmptyString => None
  | String _ r =>
      let here :=
        if prefix head s then branches_at (drop (String.length head) s)
        else None in
      match here with
      | Some (yes, no) =>
          Some [(head ++ yes ++ String colon no)%string; yes; no]
      | None => search_ternary head r
      end
  end.

End Re.

(** ** [wap/structs.py] *)

Module Category.
Record t := { id_ : string; name : string; priority : Z }.
End Category.

Module Imply.
Record t := { name : string; confidence : Z }.
End Imply.

Module Exclude.
Record t := { name : string }.
End Exclude.

Module Pattern.
Record t := {
  value : string;
  regex : Re.Pattern;
  confidence : Z;
  version : string;
  key : string
}.
End Pattern.

Module Technology.
Record t := {
  name : string;
  categories : list Category.t;
  url : list Pattern.t;
  headers : list (string * list Pattern.t);
  cookies : list (string * list Pattern.t);
  html : list Pattern.t;
  meta : list (string * list Pattern.t);
  scripts : list Pattern.t;
  js : list (string * list Pattern.t);
  implies : list Imply.t;
  excludes : list Exclude.t;
  icon : string;
  website : string;
  cpe : string
}.

(** [tech[field]] and [tech.get(field, [])] for the fields that hold a flat
    pattern list; the matcher passes no other name here. *)
Definition get_list (self : t) (field : string) : list Pattern.t :=
  if String.eqb field "url" then url self
  else if String.eqb field "html" then html self
  else if String.eqb field "scripts" then scripts self
  else [].

(** [tech[field]] for the fields that hold a keyed mapping. *)
Definition get_pairs (self : t) (field : string)
  : list (string * list Pattern.t) :=
  if String.eqb field "headers" then headers self
  else if String.eqb field "cookies" then cookies self
  else if String.eqb field "meta" then meta self
  else if String.eqb field "js" then js self
  else [].
End Technology.

Module PatternMatch.
Record t := {
  technology : Technology.t;
  pattern : Pattern.t;
  version : string
}.

(** [__eq__], as written: the second and third conjuncts compare [self]
    with [self]. *)
Definition eq (self o : t) : bool :=
  String.eqb (Technology.name (technology self))
             (Technology.name (technology o))
  && String.eqb (Pattern.key (pattern self)) (Pattern.key (pattern self))
  && String.eqb (Pattern.value (pattern self)) (Pattern.value (pattern self)).

(** The tuple that [__hash__] hashes.  The model takes the hash of a tuple
    of strings to be the tuple: distinct tuples never collide. *)
Definition hash (self : t) : string * string * string :=
  (Technology.name (technology self),
   Pattern.key (pattern self),
   Pattern.value (pattern self)).

Definition hash_eqb (h1 h2 : string * string * string) : bool :=
  let '(a1, b1, c1) := h1 in
  let '(a2, b2, c2) := h2 in
  String.eqb a1 a2 && String.eqb b1 b2 && String.eqb c1 c2.
End PatternMatch.

Module TechMatch.
Record t := {
  technology : Technology.t;
  confidence : Z;
  version : string
}.

(** [__eq__] *)
Definition eq (self o : t) : bool :=
  String.eqb (Technology.name (technology self))
             (Technology.name (technology o)).

(** [__eq__] when the other operand is a [PatternMatch], which also has a
    [technology] attribute; [PatternMatch.__eq__] gives the same answer
    on a [TechMatch], whichever operand Python asks first. *)
Definition eq_pattern_match (self : t) (o : PatternMatch.t) : bool :=
  String.eqb (Technology.name (technology self))
             (Technology.name (PatternMatch.technology o)).
End TechMatch.

(** ** Exceptions and results *)

(** The built-in exceptions the engine can raise; both are lookup
    failures (subclasses of [LookupError]). *)
Inductive exn :=
| KeyError (key : string)
| IndexError.


(** The outcome of a call: a value, an exception that escapes, or the
    recursion budget of the model used up. *)
Inductive result (A : Type) :=
| Ok (a : A)
| Raise (e : exn)
| OutOfFuel.

Arguments Ok {A} a.
Arguments Raise {A} e.
Arguments OutOfFuel {A}.

Definition bind {A B : Type} (r : result A) (k : A -> result B) : result B :=
  match r with
  | Ok a => k a
  | Raise e => Raise e
  | OutOfFuel => OutOfFuel
  end.

Notation "x <- r ;; k" := (bind r (fun x => k))
  (at level 61, r at next level, right associativity).

Definition fmap {A B : Type} (f : A -> B) (r : result A) : result B :=
  x <- r ;; Ok (f x).

(** A [for] loop over [l] that threads the mutated state and stops at the
    first exception. *)
Fixpoint for_each {S A : Type} (body : S -> A -> result S) (s : S) (l : list A)
  : result S :=
  match l with
  | [] => Ok s
  | x :: r => s' <- body s x ;; for_each body s' r
  end.

(** A list comprehension whose element expression may raise. *)
Fixpoint comprehension {A B : Type} (f : A -> result B) (l : list A)
  : result (list B) :=
  match l with
  | [] => Ok []
  | x :: r => y <- f x ;; ys <- comprehension f r ;; Ok (y :: ys)
  end.

(** [technologies[name]] *)
Definition getitem {V : Type} (d : list (string * V)) (key : string) : result V :=
  match Py.get d key with
  | Some v => Ok v
  | None => Raise (KeyError key)
  end.

(** [l.pop(0)] *)
Definition pop0 {A : Type} (l : list A) : result (A * list A) :=
  match l with
  | [] => Raise IndexError
  | x :: r => Ok (x, r)
  end.

(** ** [wap/match.py]: the signal matcher *)

Definition backslash : string := "\".

(** Truthiness of [match] in [_resolve_version]: a group that took no part
    is [None], and an empty group is falsy too. *)
Definition group_truthy (m : option string) : bool :=
  match m with
  | Some s => Py.truthy s
  | None => false
  end.

(** [match] when it is truthy, the empty string otherwise. *)
Definition group_or_empty (m : option string) : string :=
  match m with
  | Some (String _ _ as s) => s
  | _ => EmptyString
  end.

(** One iteration of the loop of [_resolve_version]. *)
Definition resolve_group (version : string) (index : nat)
           (m : option string) (resolved : string) : string :=
  let resolved :=
    match Re.search_ternary (backslash ++ Py.format_nat index ++ "?") version with
    | Some [whole; yes; no] =>
        Py.replace version whole (if group_truthy m then yes else no)
    | _ => resolved
    end in
  Py.replace (Py.strip resolved) (backslash ++ Py.format_nat index)
             (group_or_empty m).

(** [for index, match in enumerate(matches)], from [index] on. *)
Fixpoint resolve_groups (version : string) (index : nat)
         (matches : list (option string)) (resolved : string) : string :=
  match matches with
  | [] => resolved
  | m :: rest =>
      resolve_groups version (S index) rest (resolve_group version index m resolved)
  end.

Definition _resolve_version (version : string) (regex : Re.Pattern)
           (value : string) : string :=
  if negb (Py.truthy version) then version
  else
    match Re.search regex value with
    | None => version
    | Some matches =>
        let matches := Some (Re.group matches) :: Re.groups matches in
        resolve_groups version 0 matches version
    end.

Definition _match_patterns (patterns : list Pattern.t)
           (technology : Technology.t) (value : string) : list PatternMatch.t :=
  flat_map
    (fun pattern =>
       match Re.search (Pattern.regex pattern) value with
       | Some _ =>
           [ {| PatternMatch.technology := technology;
                PatternMatch.pattern := pattern;
                PatternMatch.version :=
                  _resolve_version (Pattern.version pattern)
                                   (Pattern.regex pattern) value |} ]
       | None => []
       end)
    patterns.

Definition match_str (tech : Technology.t) (field value : string)
  : list PatternMatch.t :=
  _match_patterns (Technology.get_list tech field) tech value.

Definition match_list (tech : Technology.t) (field : string)
           (values : list string) : list PatternMatch.t :=
  flat_map
    (fun value => _match_patterns (Technology.get_list tech field) tech value)
    values.

(** The copy of [pairs] under lower-cased keys that [match_pairs] builds for
    cookies: a later key overwrites an earlier one with the same lower
    case. *)
Definition lower_keys (pairs : list (string * list string))
  : list (string * list string) :=
  fold_left
    (fun pairs_local k =>
       match Py.get pairs k with
       | Some v => Py.set pairs_local (Py.lower k) v
       | None => pairs_local
       end)
    (map fst pairs) [].

Definition match_pairs (tech : Technology.t) (field : string)
           (pairs : list (string * list string)) : list PatternMatch.t :=
  let pairs_local :=
    if Py.mem field ["cookies"] then lower_keys pairs else pairs in
  flat_map
    (fun '(key, patterns) =>
       let values :=
         match Py.get pairs_local key with
         | Some vs => vs
         | None => []
         end in
       flat_map (fun value => _match_patterns patterns tech value) values)
    (Technology.get_pairs tech field).

Definition match_url (technology : Technology.t) (url : string) :=
  match_str technology "url" url.

Definition match_html (technology : Technology.t) (html : string) :=
  match_str technology "html" html.

Definition match_scripts (technology : Technology.t) (scripts : list string) :=
  match_list technology "scripts" scripts.

Definition match_js_vars (technology : Technology.t)
           (js_vars : list (string * list string)) :=
  match_pairs technology "js" js_vars.

Definition match_cookies (technology : Technology.t)
           (cookies : list (string * list string)) :=
  match_pairs technology "cookies" cookies.

Definition match_metas (technology : Technology.t)
           (metas : list (string * list string)) :=
  match_pairs technology "meta" metas.

Definition match_headers (technology : Technology.t)
           (headers : list (string * list string)) :=
  match_pairs technology "headers" headers.

(** [if x: match_funcs.append(partial(f, x))] for an optional string and
    for an optional list or dict: [None] and the empty value are falsy. *)
Definition when_str (x : option string)
           (f : Technology.t -> string -> list PatternMatch.t)
  : list (Technology.t -> list PatternMatch.t) :=
  match x with
  | Some (String _ _ as s) => [fun techno => f techno s]
  | _ => []
  end.

Definition when_items {A : Type} (x : option (list A))
           (f : Technology.t -> list A -> list PatternMatch.t)
  : list (Technology.t -> list PatternMatch.t) :=
  match x with
  | Some ((_ :: _) as l) => [fun techno => f techno l]
  | _ => []
  end.

Definition match_parts (techno : Technology.t)
           (funcs : list (Technology.t -> list PatternMatch.t))
  : list PatternMatch.t :=
  flat_map (fun func => func techno) funcs.

Definition match_all (technologies : list (string * Technology.t))
           (url html : option string)
           (scripts : option (list string))
           (cookies metas headers js_vars : option (list (string * list string)))
  : list PatternMatch.t :=
  let match_funcs :=
    when_str url match_url
    ++ when_items headers match_headers
    ++ when_items cookies match_cookies
    ++ when_str html match_html
    ++ when_items metas match_metas
    ++ when_items scripts match_scripts
    ++ when_items js_vars match_js_vars in
  flat_map (fun technology => match_parts technology match_funcs)
           (map snd technologies).

(** ** [wap/match.py]: aggregation and resolution *)

(** [pattern_match in techno_matches]: list membership is by [==]. *)
Definition pattern_match_in (pattern_match : PatternMatch.t)
           (techno_matches : list TechMatch.t) : bool :=
  existsb (fun tm => TechMatch.eq_pattern_match tm pattern_match) techno_matches.

(** [techno_match in techno_impls] *)
Definition techno_match_in (techno_match : TechMatch.t)
           (techno_impls : list TechMatch.t) : bool :=
  existsb (fun tm => TechMatch.eq tm techno_match) techno_impls.

(** The body of the inner loop of [extract_techno_matches] on the pair
    [(confidence, version)]. *)
Definition fold_hit (pattern_match : PatternMatch.t) (acc : Z * string)
           (pt_match : PatternMatch.t) : Z * string :=
  let (confidence, version) := acc in
  if negb (PatternMatch.eq pt_match pattern_match) then acc
  else
    (Z.min 100 (confidence + Pattern.confidence (PatternMatch.pattern pt_match)),
     if (String.length version <? String.length (PatternMatch.version pt_match))%nat
        && (String.length (PatternMatch.version pt_match) <=? 10)%nat
     then PatternMatch.version pt_match
     else version).

Definition extract_techno_matches (pattern_matches : list PatternMatch.t)
  : list TechMatch.t :=
  fold_left
    (fun techno_matches pattern_match =>
       if negb (pattern_match_in pattern_match techno_matches) then
         let (confidence, version) :=
           fold_left (fold_hit pattern_match) pattern_matches (0%Z, EmptyString) in
         techno_matches
           ++ [ {| TechMatch.technology := PatternMatch.technology pattern_match;
                   TechMatch.confidence := confidence;
                   TechMatch.version := version |} ]
       else techno_matches)
    pattern_matches [].

(** The list comprehension of [_resolve_implies_inner]. *)
Definition implied (techno_match : TechMatch.t)
           (technologies : list (string * Technology.t))
  : result (list TechMatch.t) :=
  comprehension
    (fun imply =>
       technology <- getitem technologies (Imply.name imply) ;;
       Ok {| TechMatch.technology := technology;
             TechMatch.confidence :=
               Z.min (Imply.confidence imply) (TechMatch.confidence techno_match);
             TechMatch.version := EmptyString |})
    (Technology.implies (TechMatch.technology techno_match)).

(** [_resolve_implies_inner] mutates [techno_impls]; the model returns the
    list after the call.  [fuel] bounds the depth of the recursion. *)
Fixpoint _resolve_implies_inner (fuel : nat) (techno_impls : list TechMatch.t)
         (techno_match : TechMatch.t)
         (technologies : list (string * Technology.t))
  : result (list TechMatch.t) :=
  match fuel with
  | O => OutOfFuel
  | S fuel =>
      if negb (techno_match_in techno_match techno_impls) then
        let techno_impls := techno_impls ++ [techno_match] in
        implies <- implied techno_match technologies ;;
        for_each
          (fun techno_impls implied_techno =>
             _resolve_implies_inner fuel techno_impls implied_techno technologies)
          techno_impls implies
      else Ok techno_impls
  end.

Definition resolve_implies_fuel (fuel : nat) (techno_matches : list TechMatch.t)
           (technologies : list (string * Technology.t))
  : result (list TechMatch.t) :=
  for_each
    (fun techno_impls techno_match =>
       _resolve_implies_inner fuel techno_impls techno_match technologies)
    [] techno_matches.

(** A chain of nested calls appends a new technology at every level but the
    last, and all but the first come from the rule set, so the depth never
    exceeds the size of the rule set plus two. *)
Definition resolve_implies (techno_matches : list TechMatch.t)
           (technologies : list (string * Technology.t))
  : result (list TechMatch.t) :=
  resolve_implies_fuel (2 + List.length technologies) techno_matches technologies.

Definition exclude_names (techno_match : TechMatch.t) : list string :=
  map Exclude.name (Technology.excludes (TechMatch.technology techno_match)).

(** The list comprehension of [resolve_excludes]. *)
Definition not_excluded (excludes : list string)
           (techno_matches : list TechMatch.t) : list TechMatch.t :=
  filter
    (fun tm => negb (Py.mem (Technology.name (TechMatch.technology tm)) excludes))
    techno_matches.

(** The [while True] loop of [resolve_excludes]: it ends when [pop(0)]
    raises [IndexError], which the [except] clause swallows.  Every turn
    shortens [techno_matches], so [fuel] is its length at the start. *)
Fixpoint resolve_excludes_loop (fuel : nat)
         (techno_matches techn_excls : list TechMatch.t)
  : result (list TechMatch.t) :=
  match pop0 techno_matches with
  | Raise IndexError => Ok techn_excls
  | Raise e => Raise e
  | OutOfFuel => OutOfFuel
  | Ok (techno_match, techno_matches) =>
      match fuel with
      | O => OutOfFuel
      | S fuel =>
          resolve_excludes_loop fuel
            (not_excluded (exclude_names techno_match) techno_matches)
            (techn_excls ++ [techno_match])
      end
  end.

Definition resolve_excludes (techno_matches : list TechMatch.t)
  : result (list TechMatch.t) :=
  resolve_excludes_loop (List.length techno_matches) techno_matches [].

(** *** Sets of pattern matches *)

(** [s.add(x)]: [x] is dropped when the set holds an entry with the same
    hash that is [==] to it.  The list keeps insertion order. *)
Definition set_add (s : list PatternMatch.t) (x : PatternMatch.t)
  : list PatternMatch.t :=
  if existsb
       (fun y => PatternMatch.hash_eqb (PatternMatch.hash y) (PatternMatch.hash x)
                 && PatternMatch.eq y x)
       s
  then s else s ++ [x].

(** [set(pattern_matches)] *)
Definition set_of (pattern_matches : list PatternMatch.t) : list PatternMatch.t :=
  fold_left set_add pattern_matches [].

Section Discover.

(** The order in which a set is iterated is fixed by the hash values of its
    entries and the order of insertion; the model leaves it open as a
    function of the hashed tuples.  In Python it is a permutation of them;
    the properties below hold for every function. *)
Variable set_order :
  list (string * string * string) -> list (string * string * string).

(** [list(s)] *)
Definition list_of_set (s : list PatternMatch.t) : list PatternMatch.t :=
  flat_map
    (fun h => filter (fun y => PatternMatch.hash_eqb (PatternMatch.hash y) h) s)
    (set_order (map PatternMatch.hash s)).

Definition resolve_techno_matches (technologies : list (string * Technology.t))
           (pattern_matches : list PatternMatch.t) : result (list TechMatch.t) :=
  let pattern_matches := list_of_set (set_of pattern_matches) in
  let techno_matches := extract_techno_matches pattern_matches in
  techno_matches <- resolve_implies techno_matches technologies ;;
  resolve_excludes techno_matches.

Definition discover_technologies (technologies : list (string * Technology.t))
           (url html : option string)
           (scripts : option (list string))
           (cookies metas headers : option (list (string * list string)))
  : result (list TechMatch.t) :=
  let pattern_matches :=
    match_all technologies url html scripts cookies metas headers None in
  resolve_techno_matches technologies pattern_matches.

End Discover.

(** ** [wap/load.py]: one pattern string *)

Module Str.

(** [s.split(sep)] for a non-empty [sep]: the pieces between the
    occurrences of [sep], taken left to right without overlap.  [skip]
    counts the characters of an occurrence still to be passed over.  Both
    separators of the loader are literals, so the empty separator, on which
    Python raises, does not arise. *)
Fixpoint split_from (sep : string) (skip : nat) (s : string) : list string :=
  match s with
  | EmptyString => [EmptyString]
  | String c r =>
      match skip with
      | S k => split_from sep k r
      | O =>
          if prefix sep s
          then EmptyString :: split_from sep (String.length sep - 1) r
          else
            match split_from sep 0 r with
            | piece :: pieces => String c piece :: pieces
            | [] => [String c EmptyString]
            end
      end
  end.

Definition split (s sep : string) : list string := split_from sep 0 s.

(** [sep.join(l)] *)
Fixpoint join (sep : string) (l : list string) : string :=
  match l with
  | [] => EmptyString
  | [x] => x
  | x :: r => (x ++ sep ++ join sep r)%string
  end.

(** [sub in s] for a non-empty [sub]. *)
Fixpoint occurs (sub s : string) : bool :=
  match s with
  | EmptyString => false
  | String _ r => prefix sub s || occurs sub r
  end.

End Str.

(** The separator of the attributes of a pattern string: a backslash and a
    semicolon. *)
Definition attr_sep : string := "\;".

(** The source handed to [re.compile]: a slash gets a backslash in front,
    and the class that JavaScript reads as any character becomes a dot. *)
Definition regex_source (value : string) : string :=
  Py.replace (Py.replace value "/" "\/") "[^]" ".".

(** A value of the [attrs] dictionary of [_parse_pattern]: a text, or the
    compiled regex that the entry [regex] holds at the start. *)
Inductive attr_value :=
| AStr (s : string)
| ARegex (r : Re.Pattern).

(** What [_parse_pattern] raises: [re.error] from [re.compile], or
    [ValueError] from [int]. *)
Inductive parse_error :=
| ReError (source : string)
| ValueError (text : string).

(** What [_parse_pattern] returns: a [Pattern], or, when an attribute
    named [regex] overwrote the compiled regex, a [Pattern] object whose
    [regex] attribute is that text. *)
Inductive parsed :=
| Parsed (p : Pattern.t)
| ParsedText (value regex : string) (confidence : Z) (version key : string).

Section ParsePattern.

(** [re.compile(source, re.I)]; [None] when it raises [re.error]. *)
Variable re_compile : string -> option Re.Pattern.

(** [int(text)]; [None] when it raises [ValueError]. *)
Variable py_int : string -> option Z.

(** The body of the loop over [parts[1:]]. *)
Definition add_attr (attrs : list (string * attr_value)) (attr : string)
  : list (string * attr_value) :=
  match Str.split attr ":" with
  | name :: ((_ :: _) as rest) => Py.set attrs name (AStr (Str.join ":" rest))
  | _ => attrs
  end.

(** [attrs.get(name, default)] for an entry that holds a text. *)
Definition attr_text (attrs : list (string * attr_value)) (name default : string)
  : string :=
  match Py.get attrs name with
  | Some (AStr s) => s
  | _ => default
  end.

(** [split] returns at least one piece, so [parts[0]] is there and the
    first branch is never taken. *)
Definition _parse_pattern (pattern key : string) : parse_error + parsed :=
  match Str.split pattern attr_sep with
  | [] => inl (ReError EmptyString)
  | value :: parts =>
      match re_compile (regex_source value) with
      | None => inl (ReError (regex_source value))
      | Some regex =>
          let attrs :=
            fold_left add_attr parts
                      [("value", AStr value); ("regex", ARegex regex)] in
          let confidence :=
            match Py.get attrs "confidence" with
            | Some (AStr text) =>
                match py_int text with
                | Some n => inr n
                | None => inl (ValueError text)
                end
            | _ => inr 100%Z
            end in
          match confidence with
          | inl e => inl e
          | inr confidence =>
              match Py.get attrs "regex" with
              | Some (AStr text) =>
                  inr (ParsedText (attr_text attrs "value" value) text confidence
                                  (attr_text attrs "version" EmptyString) key)
              | _ =>
                  inr (Parsed
                         {| Pattern.value := attr_text attrs "value" value;
                            Pattern.regex := regex;
                            Pattern.confidence := confidence;
                            Pattern.version := attr_text attrs "version" EmptyString;
                            Pattern.key := key |})
              end
          end
      end
  end.

End ParsePattern.

(** ** [wap/load.py]: how rule keys are stored *)

(** What the rule file gives for one key: a string or a list of strings. *)
Inductive json_entry :=
| JStr (s : string)
| JList (l : list string).

(** What a pattern-bearing field of the rule file holds. *)
Inductive json_patterns :=
| JNull
| JOne (e : json_entry)
| JDict (d : list (string * json_entry)).

(** [_transform_patterns] returns a list or a dict of what
    [_parse_pattern] returned. *)
Inductive transformed :=
| TList (l : list parsed)
| TDict (d : list (string * list parsed)).

Section Load.

(** [re.compile] and [int], as [_parse_pattern] takes them. *)
Variable re_compile : string -> option Re.Pattern.
Variable py_int : string -> option Z.

Definition to_list (value : json_entry) : list string :=
  match value with
  | JStr s => [s]
  | JList l => l
  end.

(** [not patterns] *)
Definition json_falsy (patterns : json_patterns) : bool :=
  match patterns with
  | JNull => true
  | JOne (JStr EmptyString) => true
  | JOne (JList []) => true
  | JDict [] => true
  | _ => false
  end.

(** The list comprehension over the pattern strings of one key: the first
    string that [_parse_pattern] refuses raises, and nothing is built. *)
Fixpoint parse_all (key : string) (ptrns : list string)
  : parse_error + list parsed :=
  match ptrns with
  | [] => inr []
  | ptrn :: rest =>
      match _parse_pattern re_compile py_int ptrn key with
      | inl e => inl e
      | inr p =>
          match parse_all key rest with
          | inl e => inl e
          | inr ps => inr (p :: ps)
          end
      end
  end.

(** The loop [for key in patterns], from [keys] on, with [stored] the
    dictionary built so far; an exception of the comprehension ends it. *)
Fixpoint transform_keys (patterns : list (string * json_entry))
         (case_sensitive : bool) (keys : list string)
         (stored : list (string * list parsed))
  : parse_error + list (string * list parsed) :=
  match keys with
  | [] => inr stored
  | key :: rest =>
      match Py.get patterns key with
      | Some entry =>
          let name := if case_sensitive then key else Py.lower key in
          match parse_all key (to_list entry) with
          | inl e => inl e
          | inr l =>
              transform_keys patterns case_sensitive rest (Py.set stored name l)
          end
      | None => transform_keys patterns case_sensitive rest stored
      end
  end.

Definition _transform_patterns (patterns : json_patterns) (case_sensitive : bool)
  : parse_error + transformed :=
  if json_falsy patterns then inr (TList [])
  else
    let patterns :=
      match patterns with
      | JOne e => [("main", e)]
      | JDict d => d
      | JNull => []
      end in
    match transform_keys patterns case_sensitive (map fst patterns) [] with
    | inl e => inl e
    | inr stored =>
        inr match Py.get stored "main" with
            | Some main => TList main
            | None => TDict stored
            end
    end.

End Load.

(** ** The statements of the specification, as second definitions *)

Module Spec.

(** The ternary step as the specification words it: the chosen branch
    replaces the segment inside the current working string. *)
Definition resolve_group (version : string) (index : nat)
           (m : option string) (resolved : string) : string :=
  let resolved :=
    match Re.search_ternary (backslash ++ Py.format_nat index ++ "?") version with
    | Some [whole; yes; no] =>
        Py.replace resolved whole (if group_truthy m then yes else no)
    | _ => resolved
    end in
  Py.replace (Py.strip resolved) (backslash ++ Py.format_nat index)
             (group_or_empty m).

Fixpoint resolve_groups (version : string) (index : nat)
         (matches : list (option string)) (resolved : string) : string :=
  match matches with
  | [] => resolved
  | m :: rest =>
      resolve_groups version (S index) rest (resolve_group version index m resolved)
  end.

Definition resolve_version (version : string) (regex : Re.Pattern)
           (value : string) : string :=
  if negb (Py.truthy version) then version
  else
    match Re.search regex value with
    | None => version
    | Some matches =>
        resolve_groups version 0 (Some (Re.group matches) :: Re.groups matches)
                       version
    end.

(** [match_all] with no short-circuit: every field is evaluated, an absent
    input as the empty value of its kind. *)
Definition or_empty_str (x : option string) : string :=
  match x with Some s => s | None => EmptyString end.

Definition or_empty {A : Type} (x : option (list A)) : list A :=
  match x with Some l => l | None => [] end.

Definition match_all_evaluated (technologies : list (string * Technology.t))
           (url html : option string)
           (scripts : option (list string))
           (cookies metas headers js_vars : option (list (string * list string)))
  : list PatternMatch.t :=
  let match_funcs :=
    [ (fun techno => match_url techno (or_empty_str url));
      (fun techno => match_headers techno (or_empty headers));
      (fun techno => match_cookies techno (or_empty cookies));
      (fun techno => match_html techno (or_empty_str html));
      (fun techno => match_metas techno (or_empty metas));
      (fun techno => match_scripts techno (or_empty scripts));
      (fun techno => match_js_vars techno (or_empty js_vars)) ] in
  flat_map (fun technology => match_parts technology match_funcs)
           (map snd technologies).

End Spec.

(** ** Sample rule sets *)

Module Sample.

(** The compiled empty regex: it matches at the start of every value, with no
    capture group. *)
Definition re_empty : Re.Pattern :=
  fun _ => Some {| Re.group := EmptyString; Re.groups := [] |}.

Definition is_digit (c : ascii) : bool :=
  let n := nat_of_ascii c in ((48 <=? n) && (n <=? 57))%nat.

Definition is_b (c : ascii) : bool :=
  Ascii.eqb c "b"%char || Ascii.eqb c "B"%char.

(** [re.compile("(\d)(b)?", re.I)]: the leftmost digit, and a [b] right
    after it when there is one. *)
Fixpoint re_digit_b (value : string) : option Re.Match :=
  match value with
  | EmptyString => None
  | String c r =>
      if is_digit c then
        match r with
        | String b _ =>
            if is_b b
            then Some {| Re.group := String c (String b EmptyString);
                         Re.groups := [Some (String c EmptyString);
                                       Some (String b EmptyString)] |}
            else Some {| Re.group := String c EmptyString;
                         Re.groups := [Some (String c EmptyString); None] |}
        | EmptyString =>
            Some {| Re.group := String c EmptyString;
                    Re.groups := [Some (String c EmptyString); None] |}
        end
      else re_digit_b r
  end.

Definition pattern (value key : string) (regex : Re.Pattern)
           (confidence : Z) (version : string) : Pattern.t :=
  {| Pattern.value := value; Pattern.regex := regex;
     Pattern.confidence := confidence; Pattern.version := version;
     Pattern.key := key |}.

(** A technology with no pattern at all. *)
Definition bare (name : string) (implies : list Imply.t)
           (excludes : list string) : Technology.t :=
  {| Technology.name := name; Technology.categories := [];
     Technology.url := []; Technology.headers := [];
     Technology.cookies := []; Technology.html := [];
     Technology.meta := []; Technology.scripts := [];
     Technology.js := []; Technology.implies := implies;
     Technology.excludes := map Exclude.Build_t excludes;
     Technology.icon := EmptyString; Technology.website := EmptyString;
     Technology.cpe := EmptyString |}.

Definition hit (technology : Technology.t) (confidence : Z)
           (version : string) : TechMatch.t :=
  {| TechMatch.technology := technology; TechMatch.confidence := confidence;
     TechMatch.version := version |}.

End Sample.

Module SampleExcludes.
Import Sample.

(** [C] excludes [A]; [A] and [B] exclude each other. *)
Definition C := hit (bare "C" [] ["A"]) 100 EmptyString.
Definition A := hit (bare "A" [] ["B"]) 100 EmptyString.
Definition B := hit (bare "B" [] ["A"]) 100 EmptyString.

End SampleExcludes.

(** ** Views used in the statements *)

Definition tm_name (tm : TechMatch.t) : string :=
  Technology.name (TechMatch.technology tm).

Definition pm_name (pm : PatternMatch.t) : string :=
  Technology.name (PatternMatch.technology pm).

Definition pm_confidence (pm : PatternMatch.t) : Z :=
  Pattern.confidence (PatternMatch.pattern pm).

(** The hits of the technology named [n] in a list of pattern matches. *)
Definition hits (n : string) (pattern_matches : list PatternMatch.t)
  : list PatternMatch.t :=
  filter (fun pm => String.eqb (pm_name pm) n) pattern_matches.

Definition Zsum (l : list Z) : Z := fold_right Z.add 0%Z l.

(** The hits that open a new technology when [extract_techno_matches] walks
    the list: those whose name is neither in [seen] nor carried by an
    earlier hit. *)
Fixpoint first_hits (seen : list string) (l : list PatternMatch.t)
  : list PatternMatch.t :=
  match l with
  | [] => []
  | pm :: r =>
      if existsb (fun s => String.eqb s (pm_name pm)) seen
      then first_hits seen r
      else pm :: first_hits (seen ++ [pm_name pm]) r
  end.

(** The two components of the inner loop of [extract_techno_matches], on
    the hits of one technology. *)
Definition clamp_add (confidence : Z) (pm : PatternMatch.t) : Z :=
  Z.min 100 (confidence + pm_confidence pm).

Definition longer_within_cap (version : string) (pm : PatternMatch.t) : string :=
  if (String.length version <? String.length (PatternMatch.version pm))%nat
     && (String.length (PatternMatch.version pm) <=? 10)%nat
  then PatternMatch.version pm
  else version.

(** The [TechMatch] that [extract_techno_matches] builds for the hit that
    opens a technology. *)
Definition aggregated (pattern_matches : list PatternMatch.t)
           (pattern_match : PatternMatch.t) : TechMatch.t :=
  {| TechMatch.technology := PatternMatch.technology pattern_match;
     TechMatch.confidence :=
       fold_left clamp_add (hits (pm_name pattern_match) pattern_matches) 0%Z;
     TechMatch.version :=
       fold_left longer_within_cap
                 (hits (pm_name pattern_match) pattern_matches) EmptyString |}.

Module SampleCookies.
Import Sample.

(** Two cookie patterns of one technology, declared under different
    cookie names. *)
Definition p_sid := pattern "^s" "sid" re_empty 60 EmptyString.
Definition p_tok := pattern "^t" "tok" re_empty 60 EmptyString.

Definition shop : Technology.t :=
  {| Technology.name := "Shop"; Technology.categories := [];
     Technology.url := []; Technology.headers := [];
     Technology.cookies := [("sid", [p_sid]); ("tok", [p_tok])];
     Technology.html := []; Technology.meta := []; Technology.scripts := [];
     Technology.js := []; Technology.implies := []; Technology.excludes := [];
     Technology.icon := EmptyString; Technology.website := EmptyString;
     Technology.cpe := EmptyString |}.

Definition pm_sid : PatternMatch.t :=
  {| PatternMatch.technology := shop; PatternMatch.pattern := p_sid;
     PatternMatch.version := EmptyString |}.

Definition pm_tok : PatternMatch.t :=
  {| PatternMatch.technology := shop; PatternMatch.pattern := p_tok;
     PatternMatch.version := EmptyString |}.

End SampleCookies.

Module SampleAggregate.
Import Sample.

Definition shop := bare "Shop" [] [].

Definition pm (value : string) (confidence : Z) (version : string)
  : PatternMatch.t :=
  {| PatternMatch.technology := shop;
     PatternMatch.pattern := pattern value EmptyString re_empty confidence EmptyString;
     PatternMatch.version := version |}.

(** One pattern that fired on two values. *)
Definition twice : list PatternMatch.t := [pm "d" 30 "1"; pm "d" 30 "2"].

(** Three patterns, the last with a negative confidence. *)
Definition negative : list PatternMatch.t :=
  [pm "a" 100 EmptyString; pm "b" 100 EmptyString; pm "c" (-50) EmptyString].

(** Four patterns whose versions have 3, 6, 11 and 6 characters. *)
Definition versions : list PatternMatch.t :=
  [pm "a" 40 "1.2"; pm "b" 50 "10.4.1"; pm "c" 30 "12345678901";
   pm "d" 0 "9.9.9a"].

End SampleAggregate.

(** [n] is the name of some match of [impls]: what [techno_match in
    techno_impls] tests for the name of [techno_match]. *)
Definition name_in (n : string) (impls : list TechMatch.t) : bool :=
  existsb (fun tm => String.eqb (tm_name tm) n) impls.

(** The number of entries of the rule set whose technology is not yet in
    [impls]: the recursion of [_resolve_implies_inner] is bounded by it. *)
Definition unseen (technologies : list (string * Technology.t))
           (impls : list TechMatch.t) : nat :=
  List.length
    (filter (fun kv => negb (name_in (Technology.name (snd kv)) impls))
            technologies).

(** [tm] carries a technology stored in the rule set. *)
Definition from_rules (technologies : list (string * Technology.t))
           (tm : TechMatch.t) : Prop :=
  exists k, In (k, TechMatch.technology tm) technologies.

(** [tm] was built from an [Imply] of [parent]. *)
Definition implied_by (technologies : list (string * Technology.t))
           (parent tm : TechMatch.t) : Prop :=
  exists imply,
    In imply (Technology.implies (TechMatch.technology parent))
    /\ Py.get technologies (Imply.name imply) = Some (TechMatch.technology tm)
    /\ TechMatch.confidence tm
       = Z.min (Imply.confidence imply) (TechMatch.confidence parent)
    /\ TechMatch.version tm = EmptyString.

(** Where a match of the output comes from: it is one of the inputs, or it
    was built from an [Imply] of a match recorded in [before]. *)
Definition justified (technologies : list (string * Technology.t))
           (inputs before : list TechMatch.t) (tm : TechMatch.t) : Prop :=
  In tm inputs \/ exists parent, In parent before /\ implied_by technologies parent tm.

(** Every match of the list is justified by the matches before it. *)
Inductive all_justified (technologies : list (string * Technology.t))
          (inputs : list TechMatch.t) : list TechMatch.t -> Prop :=
| aj_nil : all_justified technologies inputs []
| aj_snoc (l : list TechMatch.t) (tm : TechMatch.t) :
    all_justified technologies inputs l ->
    justified technologies inputs l tm ->
    all_justified technologies inputs (l ++ [tm]).

Module SampleImplies.
Import Sample.

(** [A] implies [B] with confidence 50 and [B] implies [A]. *)
Definition A := bare "A" [ {| Imply.name := "B"; Imply.confidence := 50 |} ] [].
Definition B := bare "B" [ {| Imply.name := "A"; Imply.confidence := 100 |} ] [].
Definition cyclic : list (string * Technology.t) := [("A", A); ("B", B)].

(** [W] implies [Ghost], which the rule set does not have, and excludes
    [Phantom], which it does not have either. *)
Definition W :=
  bare "W" [ {| Imply.name := "Ghost"; Imply.confidence := 100 |} ] ["Phantom"].
Definition X := bare "X" [] ["Phantom"].
Definition dangling : list (string * Technology.t) := [("W", W); ("X", X)].

End SampleImplies.

(** *** A rule set without its JavaScript patterns *)

Definition erase_js (t : Technology.t) : Technology.t :=
  {| Technology.name := Technology.name t;
     Technology.categories := Technology.categories t;
     Technology.url := Technology.url t;
     Technology.headers := Technology.headers t;
     Technology.cookies := Technology.cookies t;
     Technology.html := Technology.html t;
     Technology.meta := Technology.meta t;
     Technology.scripts := Technology.scripts t;
     Technology.js := [];
     Technology.implies := Technology.implies t;
     Technology.excludes := Technology.excludes t;
     Technology.icon := Technology.icon t;
     Technology.website := Technology.website t;
     Technology.cpe := Technology.cpe t |}.

Definition rules_erase_js (technologies : list (string * Technology.t))
  : list (string * Technology.t) :=
  map (fun kv => (fst kv, erase_js (snd kv))) technologies.

Definition pm_erase_js (pm : PatternMatch.t) : PatternMatch.t :=
  {| PatternMatch.technology := erase_js (PatternMatch.technology pm);
     PatternMatch.pattern := PatternMatch.pattern pm;
     PatternMatch.version := PatternMatch.version pm |}.

Definition tm_erase_js (tm : TechMatch.t) : TechMatch.t :=
  {| TechMatch.technology := erase_js (TechMatch.technology tm);
     TechMatch.confidence := TechMatch.confidence tm;
     TechMatch.version := TechMatch.version tm |}.

(** A matcher that commutes with the erasure does not read the JavaScript
    patterns. *)
Definition js_blind (f : Technology.t -> list PatternMatch.t) : Prop :=
  forall t, f (erase_js t) = map pm_erase_js (f t).

(** What a caller reads off a reported match besides the rule data. *)
Definition tm_view (tm : TechMatch.t) : string * Z * string :=
  (tm_name tm, TechMatch.confidence tm, TechMatch.version tm).

Module SampleSignals.
Import Sample.

(** A technology whose only pattern is a URL pattern that matches the
    empty string. *)
Definition blank : Technology.t :=
  {| Technology.name := "Blank"; Technology.categories := [];
     Technology.url := [pattern EmptyString EmptyString re_empty 100 EmptyString];
     Technology.headers := []; Technology.cookies := [];
     Technology.html := []; Technology.meta := []; Technology.scripts := [];
     Technology.js := []; Technology.implies := []; Technology.excludes := [];
     Technology.icon := EmptyString; Technology.website := EmptyString;
     Technology.cpe := EmptyString |}.

Definition blank_rules : list (string * Technology.t) := [("Blank", blank)].

(** The [Pattern] that [_parse_pattern] returns for a plain pattern string
    when the compiled regex matches every value. *)
Definition parse (ptrn key : string) : Pattern.t :=
  pattern ptrn key re_empty 100 EmptyString.

(** The rule file declares the header pattern under the key [Server]. *)
Definition server_rule : json_patterns := JDict [("Server", JStr "nginx")].

Definition nginx : Technology.t :=
  {| Technology.name := "Nginx"; Technology.categories := [];
     Technology.url := [];
     Technology.headers := [("server", [parse "nginx" "Server"])];
     Technology.cookies := [];
     Technology.html := []; Technology.meta := []; Technology.scripts := [];
     Technology.js := []; Technology.implies := []; Technology.excludes := [];
     Technology.icon := EmptyString; Technology.website := EmptyString;
     Technology.cpe := EmptyString |}.

(** Two rule sets that differ in their JavaScript patterns only. *)
Definition with_js (js : list (string * list Pattern.t)) : Technology.t :=
  {| Technology.name := "Shop"; Technology.categories := [];
     Technology.url := [pattern "shop" EmptyString re_empty 70 EmptyString];
     Technology.headers := []; Technology.cookies := [];
     Technology.html := []; Technology.meta := []; Technology.scripts := [];
     Technology.js := js; Technology.implies := []; Technology.excludes := [];
     Technology.icon := EmptyString; Technology.website := EmptyString;
     Technology.cpe := EmptyString |}.

Definition rules_a : list (string * Technology.t) := [("Shop", with_js [])].
Definition rules_b : list (string * Technology.t) :=
  [("Shop", with_js [("Shop.version", [parse "(.+)" "Shop.version"])])].

End SampleSignals.

Module SampleVersions.

(** What [re.compile("skin/frontend/(?:default|(enterprise))", re.I)] finds
    in the two values of the repository's test; the table holds no other
    value. *)
Definition re_magento : Re.Pattern :=
  fun value =>
    if String.eqb value "/skin/frontend/default"
    then Some {| Re.group := "skin/frontend/default"; Re.groups := [None] |}
    else if String.eqb value "/skin/frontend/enterprise"
    then Some {| Re.group := "skin/frontend/enterprise";
                 Re.groups := [Some "enterprise"] |}
    else None.

(** What [re.compile("([\d.]+)?/mathjax\.js", re.I)] finds in the value of
    the repository's test. *)
Definition re_mathjax : Re.Pattern :=
  fun value =>
    if String.eqb value "3.3/mathjax.js"
    then Some {| Re.group := "3.3/mathjax.js"; Re.groups := [Some "3.3"] |}
    else None.

End SampleVersions.

(** ** Further views: what the resolvers and the matcher guarantee *)

(** No match of the list excludes a match that comes after it. *)
Fixpoint compatible (l : list TechMatch.t) : Prop :=
  match l with
  | [] => True
  | x :: r =>
      (forall y, In y r -> Py.mem (tm_name y) (exclude_names x) = false)
      /\ compatible r
  end.

(** Every [Imply] of the technology of [y] names a technology of the rule
    set that is recorded in [out]. *)
Definition closed (technologies : list (string * Technology.t))
           (out : list TechMatch.t) (y : TechMatch.t) : Prop :=
  forall imply,
    In imply (Technology.implies (TechMatch.technology y)) ->
    exists t,
      Py.get technologies (Imply.name imply) = Some t
      /\ name_in (Technology.name t) out = true.

(** [p] is one of the patterns that the technology [t] declares, in any of
    its fields. *)
Definition declares (t : Technology.t) (p : Pattern.t) : Prop :=
  In p (Technology.url t) \/ In p (Technology.html t)
  \/ In p (Technology.scripts t)
  \/ exists field key patterns,
       In (key, patterns) (Technology.get_pairs t field) /\ In p patterns.

(** ** The values handed to the matcher *)

(** The values of a dictionary of signals, of all its keys. *)
Definition dict_values (pairs : option (list (string * list string)))
  : list string :=
  match pairs with
  | Some l => flat_map snd l
  | None => []
  end.

(** Every value that a call of [match_all] is given. *)
Definition supplied_values (url html : option string)
           (scripts : option (list string))
           (cookies metas headers js_vars : option (list (string * list string)))
  : list string :=
  match url with Some s => [s] | None => [] end
  ++ dict_values headers
  ++ dict_values cookies
  ++ match html with Some s => [s] | None => [] end
  ++ dict_values metas
  ++ match scripts with Some l => l | None => [] end
  ++ dict_values js_vars.

(** A matcher only reports declared patterns of the technology it is given
    whose regex finds something in one of [values], with the version
    resolved from that value. *)
Definition sound_matcher (values : list string)
           (f : Technology.t -> list PatternMatch.t) : Prop :=
  forall t pm,
    In pm (f t) ->
    PatternMatch.technology pm = t
    /\ declares t (PatternMatch.pattern pm)
    /\ exists value,
         In value values
         /\ Re.search (Pattern.regex (PatternMatch.pattern pm)) value <> None
         /\ PatternMatch.version pm
            = _resolve_version (Pattern.version (PatternMatch.pattern pm))
                               (Pattern.regex (PatternMatch.pattern pm)) value.

(** [c in s] for a character. *)
Fixpoint has_char (c : ascii) (s : string) : bool :=
  match s with
  | EmptyString => false
  | String a r => Ascii.eqb a c || has_char c r
  end.

Definition backslash_char : ascii := "\"%char.

(** The name under which [_transform_patterns] stores a key. *)
Definition stored_key (case_sensitive : bool) (key : string) : string :=
  if case_sensitive then key else Py.lower key.

(** What [_transform_patterns] stores for a rule dictionary whose keys do
    not collide: the entries of the rule file in their order, each under
    its stored key with its pattern strings parsed, unless a pattern
    string is refused. *)
Fixpoint parse_entries (re_compile : string -> option Re.Pattern)
         (py_int : string -> option Z) (case_sensitive : bool)
         (rd : list (string * json_entry))
  : parse_error + list (string * list parsed) :=
  match rd with
  | [] => inr []
  | (k, e) :: rest =>
      match parse_all re_compile py_int k (to_list e) with
      | inl err => inl err
      | inr ps =>
          match parse_entries re_compile py_int case_sensitive rest with
          | inl err => inl err
          | inr d => inr ((stored_key case_sensitive k, ps) :: d)
          end
      end
  end.

(** A keyed field of a technology, as the loader returned it: every
    pattern is a [Pattern] with a compiled regex. *)
Definition compiled (d : list (string * list Pattern.t))
  : list (string * list parsed) :=
  map (fun kv => (fst kv, map Parsed (snd kv))) d.

(** The matches of the patterns of one key in the values of one supplied
    key. *)
Definition key_hits (t : Technology.t) (patterns : list Pattern.t)
           (values : list string) : list PatternMatch.t :=
  flat_map (fun value => _match_patterns patterns t value) values.

Module SampleParse.

(** A stand-in for [re.compile] that accepts every source, and one for
    [int] that knows the texts of the samples. *)
Definition compile (source : string) : option Re.Pattern := Some Sample.re_empty.

Definition int (text : string) : option Z :=
  if String.eqb text "50" then Some 50%Z
  else if String.eqb text "0" then Some 0%Z
  else None.

End SampleParse.

(** ** Reading a pattern string as attributes *)

(** A piece of a pattern string cut at its first colon: the name and the
    text of an attribute, or nothing for a piece without a colon. *)
Fixpoint cut_colon (s : string) : option (string * string) :=
  match s with
  | EmptyString => None
  | String c r =>
      if Ascii.eqb c Re.colon then Some (EmptyString, r)
      else match cut_colon r with
           | Some (name, text) => Some (String c name, text)
           | None => None
           end
  end.

Definition attrs_of (parts : list string) : list (string * string) :=
  flat_map (fun p => match cut_colon p with Some kv => [kv] | None => [] end)
           parts.

(** The text of the last attribute of a name. *)
Fixpoint last_attr (name : string) (kvs : list (string * string))
  : option string :=
  match kvs with
  | [] => None
  | (n, text) :: r =>
      match last_attr name r with
      | Some t => Some t
      | None => if String.eqb n name then Some text else None
      end
  end.

Definition attr_or (name default : string) (kvs : list (string * string))
  : string :=
  match last_attr name kvs with Some t => t | None => default end.

(** The [Pattern] that a list of attributes describes, for a compiled
    regex and a confidence already read. *)
Definition pattern_of (value key : string) (regex : Re.Pattern)
           (kvs : list (string * string)) (confidence : Z) : parsed :=
  match last_attr "regex" kvs with
  | Some text =>
      ParsedText (attr_or "value" value kvs) text confidence
                 (attr_or "version" EmptyString kvs) key
  | None =>
      Parsed {| Pattern.value := attr_or "value" value kvs;
                Pattern.regex := regex;
                Pattern.confidence := confidence;
                Pattern.version := attr_or "version" EmptyString kvs;
                Pattern.key := key |}
  end.

(** ** [examples/wap_selenium.py]: cookies of the browser *)

(** One step of the loop of [parse_cookies_selenium].  A cookie is the
    dictionary that the browser gives; only its entries [name] and
    [value] are read, each by a subscript that raises [KeyError] when the
    entry is missing. *)
Definition add_cookie (cks : list (string * list string))
           (cookie : list (string * string))
  : result (list (string * list string)) :=
  name <- getitem cookie "name" ;;
  cks <- match Py.get cks name with
         | Some _ => Ok cks
         | None => name <- getitem cookie "name" ;; Ok (Py.set cks name [])
         end ;;
  name <- getitem cookie "name" ;;
  values <- getitem cks name ;;
  value <- getitem cookie "value" ;;
  Ok (Py.set cks name (values ++ [value])).

Definition parse_cookies_selenium (cookies : list (list (string * string)))
  : result (list (string * list string)) :=
  for_each add_cookie [] cookies.

(** The values of the cookies of one name, in the order of the browser. *)
Definition values_of (name : string) (cookies : list (list (string * string)))
  : list string :=
  flat_map (fun cookie =>
              match Py.get cookie "name", Py.get cookie "value" with
              | Some n, Some v => if String.eqb n name then [v] else []
              | _, _ => []
              end) cookies.

(** What the dictionary holds once the cookies [seen] are grouped. *)
Definition grouped (cks : list (string * list string))
           (seen : list (list (string * string))) : Prop :=
  NoDup (map fst cks)
  /\ forall name,
       Py.get cks name
       = match values_of name seen with [] => None | vs => Some vs end.

Module SampleBrowser.

Definition cookies : list (list (string * string)) :=
  [ [("name", "sid"); ("value", "1"); ("path", "/")];
    [("name", "lang"); ("value", "en")];
    [("name", "sid"); ("value", "2")] ].

End SampleBrowser.

(** ** Visits of the implication resolver *)




Module SampleNested.
Import Sample.

(** [V] implies [W], and [W] implies [Ghost], which the rule set does not
    have. *)
Definition V := bare "V" [ {| Imply.name := "W"; Imply.confidence := 60 |} ] [].



End SampleNested.

(** * Properties *)

(** ** The exclusion resolver *)

Lemma not_excluded_length (excludes : list string) (l : list TechMatch.t) :
  List.length (not_excluded excludes l) <= List.length l.
Proof. unfold not_excluded. apply filter_length_le. Qed.

Lemma not_excluded_In (excludes : list string) (l : list TechMatch.t) (y : TechMatch.t) :
  In y (not_excluded excludes l) <->
  In y l /\ Py.mem (tm_name y) excludes = false.
Proof.
  unfold not_excluded. rewrite filter_In, negb_true_iff. reflexivity.
Qed.

(** The result of the loop does not depend on the budget once the budget
    covers the pool, and the loop only appends to what it has kept. *)
Lemma resolve_excludes_loop_enough (f1 : nat) :
  forall pool acc1 f2 acc2,
    List.length pool <= f1 -> List.length pool <= f2 ->
    exists out,
      resolve_excludes_loop f1 pool acc1 = Ok (acc1 ++ out)
      /\ resolve_excludes_loop f2 pool acc2 = Ok (acc2 ++ out).
Proof.
  induction f1 as [|f1 IH]; intros pool acc1 f2 acc2 H1 H2.
  - destruct pool as [|x r]; [|simpl in H1; lia].
    exists []. rewrite !app_nil_r. destruct f2; split; reflexivity.
  - destruct pool as [|x r].
    + exists []. rewrite !app_nil_r. destruct f2; split; reflexivity.
    + destruct f2 as [|f2]; [simpl in H2; lia|].
      simpl in H1, H2.
      pose proof (not_excluded_length (exclude_names x) r) as Hlen.
      destruct (IH (not_excluded (exclude_names x) r) (acc1 ++ [x]) f2 (acc2 ++ [x]))
        as [out [E1 E2]]; try lia.
      exists (x :: out). simpl. rewrite E1, E2, <- !app_assoc. split; reflexivity.
Qed.

Lemma resolve_excludes_nil : resolve_excludes [] = Ok [].
Proof. reflexivity. Qed.

Lemma resolve_excludes_cons (x : TechMatch.t) (l : list TechMatch.t) :
  resolve_excludes (x :: l)
  = fmap (cons x) (resolve_excludes (not_excluded (exclude_names x) l)).
Proof.
  unfold resolve_excludes.
  pose proof (not_excluded_length (exclude_names x) l) as Hlen.
  destruct (resolve_excludes_loop_enough
              (List.length l) (not_excluded (exclude_names x) l) [x]
              (List.length (not_excluded (exclude_names x) l)) []
              Hlen (le_n _))
    as [out [E1 E2]].
  simpl. rewrite E1. simpl in E2. rewrite E2. reflexivity.
Qed.

Lemma resolve_excludes_total (l : list TechMatch.t) :
  exists out, resolve_excludes l = Ok out.
Proof.
  unfold resolve_excludes.
  destruct (resolve_excludes_loop_enough (List.length l) l [] (List.length l) []
              (le_n _) (le_n _)) as [out [E _]].
  exists out. exact E.
Qed.

(** Induction on a list along the way the loop shrinks it. *)
Lemma resolve_excludes_ind (P : list TechMatch.t -> list TechMatch.t -> Prop) :
  P [] [] ->
  (forall x l out,
      resolve_excludes (not_excluded (exclude_names x) l) = Ok out ->
      P (not_excluded (exclude_names x) l) out ->
      P (x :: l) (x :: out)) ->
  forall l out, resolve_excludes l = Ok out -> P l out.
Proof.
  intros Hnil Hcons l.
  remember (List.length l) as n eqn:Hn.
  assert (Hle : List.length l <= n) by lia. clear Hn.
  revert l Hle. induction n as [|n IH]; intros l Hle out E.
  - destruct l; [|simpl in Hle; lia].
    rewrite resolve_excludes_nil in E. injection E as <-. exact Hnil.
  - destruct l as [|x r].
    + rewrite resolve_excludes_nil in E. injection E as <-. exact Hnil.
    + rewrite resolve_excludes_cons in E.
      destruct (resolve_excludes (not_excluded (exclude_names x) r)) as [o| |] eqn:E';
        simpl in E; try discriminate.
      injection E as <-.
      apply Hcons; [exact E'|].
      apply IH; [|exact E'].
      pose proof (not_excluded_length (exclude_names x) r). simpl in Hle. lia.
Qed.

(** What is kept was in the input. *)
Lemma resolve_excludes_incl (l out : list TechMatch.t) :
  resolve_excludes l = Ok out -> incl out l.
Proof.
  revert l out. apply resolve_excludes_ind.
  - intros y [].
  - intros x l out _ IH y [<-|Hy]; [left; reflexivity|right].
    apply IH in Hy. apply not_excluded_In in Hy. tauto.
Qed.

Lemma not_excluded_app (excludes : list string) (l1 l2 : list TechMatch.t) :
  not_excluded excludes (l1 ++ l2)
  = not_excluded excludes l1 ++ not_excluded excludes l2.
Proof. unfold not_excluded. apply filter_app. Qed.

Lemma mem_separates (b n : string) (excludes : list string) :
  Py.mem b excludes = true -> Py.mem n excludes = false -> n <> b.
Proof. intros Hb Hn ->. congruence. Qed.

(** A match that nothing before it excludes is kept, and with it goes
    every later match that it excludes. *)
Lemma resolve_excludes_keeps (n : nat) :
  forall pre a post b,
    List.length pre <= n ->
    (forall x, In x pre -> Py.mem (tm_name a) (exclude_names x) = false) ->
    (forall x, In x pre -> tm_name x <> b) ->
    Py.mem b (exclude_names a) = true ->
    tm_name a <> b ->
    exists out,
      resolve_excludes (pre ++ a :: post) = Ok out
      /\ In a out /\ (forall y, In y out -> tm_name y <> b).
Proof.
  induction n as [|n IH]; intros pre a post b Hlen Hfree Hfirst Hex Hab.
  - destruct pre; [|simpl in Hlen; lia]. simpl.
    rewrite resolve_excludes_cons.
    destruct (resolve_excludes_total (not_excluded (exclude_names a) post))
      as [out E].
    rewrite E. exists (a :: out). split; [reflexivity|]. split; [left; reflexivity|].
    intros y [<-|Hy]; [exact Hab|].
    apply (resolve_excludes_incl _ _ E), not_excluded_In in Hy.
    apply (mem_separates _ _ _ Hex), Hy.
  - destruct pre as [|x pre].
    + apply (IH [] a post b); simpl; auto; lia.
    + simpl. rewrite resolve_excludes_cons, not_excluded_app. simpl.
      fold (tm_name a). rewrite (Hfree x (or_introl eq_refl)). simpl.
      destruct (IH (not_excluded (exclude_names x) pre) a
                   (not_excluded (exclude_names x) post) b)
        as [out [E [Ha Hb]]]; auto.
      * pose proof (not_excluded_length (exclude_names x) pre).
        simpl in Hlen. lia.
      * intros y Hy. apply Hfree. right. apply not_excluded_In in Hy. tauto.
      * intros y Hy. apply Hfirst. right. apply not_excluded_In in Hy. tauto.
      * rewrite E. exists (x :: out). split; [reflexivity|].
        split; [right; exact Ha|].
        intros y [<-|Hy]; [apply Hfirst; left; reflexivity|auto].
Qed.

(** C4, as amended.  [resolve_excludes] keeps the first remaining match and
    drops every later match whose name is in the exclude list of the kept
    one.  When [A] excludes [B], [A] comes before every [B] of the input
    and no match before [A] excludes [A], the output contains [A] and no
    [B]. *)
Theorem resolve_excludes_first_kept_wins :
  resolve_excludes [] = Ok []
  /\ (forall x l,
         resolve_excludes (x :: l)
         = fmap (cons x) (resolve_excludes (not_excluded (exclude_names x) l)))
  /\ (forall pre a post b,
         (forall x, In x pre -> Py.mem (tm_name a) (exclude_names x) = false) ->
         (forall x, In x pre -> tm_name x <> b) ->
         Py.mem b (exclude_names a) = true ->
         tm_name a <> b ->
         exists out,
           resolve_excludes (pre ++ a :: post) = Ok out
           /\ In a out /\ (forall y, In y out -> tm_name y <> b)).
Proof.
  split; [exact resolve_excludes_nil|].
  split; [exact resolve_excludes_cons|].
  intros pre a post b. apply (resolve_excludes_keeps (List.length pre)). lia.
Qed.

Lemma resolve_excludes_first_kept_wins_witness :
  exists out,
    resolve_excludes ([] ++ SampleExcludes.A :: [SampleExcludes.B]) = Ok out
    /\ In SampleExcludes.A out
    /\ (forall y, In y out -> tm_name y <> "B").
Proof.
  apply (proj2 (proj2 resolve_excludes_first_kept_wins)).
  - intros x [].
  - intros x [].
  - reflexivity.
  - simpl. discriminate.
Defined.

(** C4, as stated, fails: [A] and [B] exclude each other and [A] comes
    first, yet [C], which comes before both and excludes [A], removes [A],
    and [B] survives. *)
Lemma resolve_excludes_earlier_excluder :
  Py.mem (tm_name SampleExcludes.B) (exclude_names SampleExcludes.A) = true
  /\ Py.mem (tm_name SampleExcludes.A) (exclude_names SampleExcludes.B) = true
  /\ resolve_excludes [SampleExcludes.C; SampleExcludes.A; SampleExcludes.B]
     = Ok [SampleExcludes.C; SampleExcludes.B].
Proof. repeat split; reflexivity. Qed.

(** ** Equality of pattern matches *)

Lemma PatternMatch_eq_name (self o : PatternMatch.t) :
  PatternMatch.eq self o = String.eqb (pm_name self) (pm_name o).
Proof.
  unfold PatternMatch.eq, pm_name. rewrite !String.eqb_refl, !andb_true_r.
  reflexivity.
Qed.

Lemma hash_eqb_eq (h1 h2 : string * string * string) :
  PatternMatch.hash_eqb h1 h2 = true <-> h1 = h2.
Proof.
  destruct h1 as [[a1 b1] c1], h2 as [[a2 b2] c2]. simpl.
  rewrite !andb_true_iff, !String.eqb_eq. split.
  - intros [[-> ->] ->]. reflexivity.
  - intros [= -> -> ->]. auto.
Qed.

(** A match whose tuple is already in the set is not added: this is where
    two values matched by one pattern collapse. *)
Lemma set_add_same_tuple_found (s : list PatternMatch.t) (x y : PatternMatch.t) :
  In y s -> PatternMatch.hash y = PatternMatch.hash x ->
  existsb
    (fun y => PatternMatch.hash_eqb (PatternMatch.hash y) (PatternMatch.hash x)
              && PatternMatch.eq y x) s
  = true.
Proof.
  intros Hy Hh. apply existsb_exists. exists y. split; [exact Hy|].
  apply andb_true_iff. split; [apply hash_eqb_eq; exact Hh|].
  rewrite PatternMatch_eq_name. apply String.eqb_eq.
  unfold PatternMatch.hash in Hh. unfold pm_name. congruence.
Qed.

Lemma set_add_same_tuple (s : list PatternMatch.t) (x y : PatternMatch.t) :
  In y s -> PatternMatch.hash y = PatternMatch.hash x -> set_add s x = s.
Proof.
  intros Hy Hh. unfold set_add.
  rewrite (set_add_same_tuple_found s x y Hy Hh). reflexivity.
Qed.

Lemma set_add_NoDup (s : list PatternMatch.t) (x : PatternMatch.t) :
  NoDup (map PatternMatch.hash s) -> NoDup (map PatternMatch.hash (set_add s x)).
Proof.
  intros Hnd. unfold set_add.
  destruct (existsb _ s) eqn:E; [exact Hnd|].
  rewrite map_app. simpl.
  apply Permutation_NoDup with (l := PatternMatch.hash x :: map PatternMatch.hash s);
    [apply Permutation_cons_append|].
  constructor; [|exact Hnd].
  intros Hin. apply in_map_iff in Hin. destruct Hin as [y [Hh Hy]].
  rewrite (set_add_same_tuple_found s x y Hy Hh) in E. discriminate.
Qed.

(** A set holds each hashed tuple once. *)
Lemma set_of_NoDup (l : list PatternMatch.t) :
  NoDup (map PatternMatch.hash (set_of l)).
Proof.
  unfold set_of.
  assert (H : forall acc, NoDup (map PatternMatch.hash acc) ->
                          NoDup (map PatternMatch.hash (fold_left set_add l acc))).
  { induction l as [|x l IH]; intros acc Hnd; simpl; [exact Hnd|].
    apply IH, set_add_NoDup, Hnd. }
  apply H. constructor.
Qed.

(** Two values of the cookie [sid] matched by one pattern of confidence 60
    are one hit: the technology is reported with 60, not with the 100 that
    two hits would add up to. *)
Example two_cookie_values_count_once :
  map pm_name (match_cookies SampleCookies.shop [("SID", ["a"; "b"])])
  = ["Shop"; "Shop"]
  /\ fmap (map tm_view)
          (resolve_techno_matches (fun hashes => hashes) []
             (match_cookies SampleCookies.shop [("SID", ["a"; "b"])]))
     = Ok [("Shop", 60%Z, EmptyString)].
Proof. split; reflexivity. Qed.

(** C1.  [PatternMatch.__eq__] does not look at the pattern: it holds for
    any two matches of one technology, here for two matches whose pattern
    keys and pattern values differ, so whose hashed tuples differ. *)
Theorem PatternMatch_eq_ignores_pattern :
  (forall self o,
      PatternMatch.eq self o = String.eqb (pm_name self) (pm_name o))
  /\ PatternMatch.eq SampleCookies.pm_sid SampleCookies.pm_tok = true
  /\ PatternMatch.hash SampleCookies.pm_sid
     <> PatternMatch.hash SampleCookies.pm_tok.
Proof.
  split; [exact PatternMatch_eq_name|].
  split; [reflexivity|discriminate].
Qed.

(** ** The version resolver *)

(** C2.  With a back-reference before a ternary segment, the ternary step
    of group 2 starts again from the template and the text already put in
    for group 1 is lost; replacing inside the working string, as the
    specification words it, keeps it. *)
Theorem resolve_version_rebuilds_from_template :
  _resolve_version "\1 \2?x:y" Sample.re_digit_b "5b" = "\1 x"
  /\ Spec.resolve_version "\1 \2?x:y" Sample.re_digit_b "5b" = "5 x".
Proof. split; reflexivity. Qed.

(** The assertions of [tests/test_version.py]. *)
Example test_resolve_version_ternary :
  _resolve_version "\1?Enterprise:Community" SampleVersions.re_magento
                   "/skin/frontend/default" = "Community"
  /\ _resolve_version "\1?Enterprise:Community" SampleVersions.re_magento
                      "/skin/frontend/enterprise" = "Enterprise".
Proof. split; reflexivity. Qed.

Example test_resolve_version :
  _resolve_version "\1" SampleVersions.re_mathjax "3.3/mathjax.js" = "3.3".
Proof. reflexivity. Qed.

(** ** The confidence aggregator *)

Lemma existsb_map_name (n : string) (acc : list TechMatch.t) :
  existsb (fun tm => String.eqb (tm_name tm) n) acc
  = existsb (fun s => String.eqb s n) (map tm_name acc).
Proof. induction acc as [|tm acc IH]; simpl; [|rewrite IH]; reflexivity. Qed.

Lemma filter_map_swap {X Y : Type} (p : Y -> bool) (f : X -> Y) (l : list X) :
  filter p (map f l) = map f (filter (fun x => p (f x)) l).
Proof.
  induction l as [|x l IH]; simpl; [reflexivity|].
  destruct (p (f x)); simpl; rewrite IH; reflexivity.
Qed.

Lemma fold_left_pair {X Y Z : Type} (f : X -> Z -> X) (g : Y -> Z -> Y)
      (l : list Z) (a : X) (b : Y) :
  fold_left (fun acc z => (f (fst acc) z, g (snd acc) z)) l (a, b)
  = (fold_left f l a, fold_left g l b).
Proof. revert a b. induction l as [|z l IH]; intros; simpl; auto. Qed.

(** The inner loop only looks at the hits of the technology at hand. *)
Lemma fold_hit_hits (pm : PatternMatch.t) (l : list PatternMatch.t) :
  forall acc,
    fold_left (fold_hit pm) l acc
    = fold_left
        (fun acc pt => (clamp_add (fst acc) pt, longer_within_cap (snd acc) pt))
        (hits (pm_name pm) l) acc.
Proof.
  induction l as [|pt l IH]; intros [c v]; [reflexivity|].
  simpl. rewrite PatternMatch_eq_name.
  destruct (String.eqb (pm_name pt) (pm_name pm)); simpl; apply IH.
Qed.

Lemma inner_loop_aggregated (all : list PatternMatch.t) (pm : PatternMatch.t) :
  (let (confidence, version) :=
     fold_left (fold_hit pm) all (0%Z, EmptyString) in
   {| TechMatch.technology := PatternMatch.technology pm;
      TechMatch.confidence := confidence;
      TechMatch.version := version |})
  = aggregated all pm.
Proof. rewrite fold_hit_hits, fold_left_pair. reflexivity. Qed.

Lemma extract_outer (all l : list PatternMatch.t) :
  forall acc,
    fold_left
      (fun techno_matches pattern_match =>
         if negb (pattern_match_in pattern_match techno_matches) then
           let (confidence, version) :=
             fold_left (fold_hit pattern_match) all (0%Z, EmptyString) in
           techno_matches
             ++ [ {| TechMatch.technology := PatternMatch.technology pattern_match;
                     TechMatch.confidence := confidence;
                     TechMatch.version := version |} ]
         else techno_matches)
      l acc
    = acc ++ map (aggregated all) (first_hits (map tm_name acc) l).
Proof.
  induction l as [|pm l IH]; intros acc; cbn [fold_left first_hits];
    [symmetry; apply app_nil_r|].
  rewrite IH.
  replace (pattern_match_in pm acc)
    with (existsb (fun s => String.eqb s (pm_name pm)) (map tm_name acc))
    by (rewrite <- existsb_map_name; reflexivity).
  destruct (existsb _ (map tm_name acc)); cbn [negb]; [reflexivity|].
  rewrite fold_hit_hits, fold_left_pair, map_app, <- app_assoc.
  reflexivity.
Qed.

Lemma extract_techno_matches_first_hits (pms : list PatternMatch.t) :
  extract_techno_matches pms = map (aggregated pms) (first_hits [] pms).
Proof. unfold extract_techno_matches. rewrite extract_outer. reflexivity. Qed.

Lemma first_hits_seen (n : string) (l : list PatternMatch.t) :
  forall seen,
    existsb (fun s => String.eqb s n) seen = true ->
    hits n (first_hits seen l) = [].
Proof.
  induction l as [|pm l IH]; intros seen Hs; simpl; [reflexivity|].
  destruct (existsb (fun s => String.eqb s (pm_name pm)) seen) eqn:E;
    [apply IH; exact Hs|].
  unfold hits. simpl. destruct (String.eqb (pm_name pm) n) eqn:En.
  - apply String.eqb_eq in En. subst n. congruence.
  - apply IH. rewrite existsb_app, Hs. reflexivity.
Qed.

(** A technology that occurs among the hits is opened once, by its first
    hit. *)
Lemma first_hits_once (n : string) (l : list PatternMatch.t) :
  forall seen,
    existsb (fun s => String.eqb s n) seen = false ->
    In n (map pm_name l) ->
    exists pm0 rest,
      hits n (first_hits seen l) = [pm0] /\ hits n l = pm0 :: rest.
Proof.
  induction l as [|pm l IH]; intros seen Hs Hin; [destruct Hin|].
  simpl. destruct (String.eqb (pm_name pm) n) eqn:En.
  - apply String.eqb_eq in En. subst n. rewrite Hs.
    exists pm, (hits (pm_name pm) l). unfold hits at 1 3. simpl.
    rewrite String.eqb_refl. split; [|reflexivity].
    f_equal. apply first_hits_seen.
    rewrite existsb_app. simpl. rewrite String.eqb_refl, orb_true_r. reflexivity.
  - assert (Hin' : In n (map pm_name l)).
    { destruct Hin as [H|H]; [|exact H].
      rewrite H, String.eqb_refl in En. discriminate. }
    destruct (existsb (fun s => String.eqb s (pm_name pm)) seen) eqn:E;
      [apply IH; assumption|].
    unfold hits at 1. simpl. rewrite En. apply IH; [|exact Hin'].
    rewrite existsb_app, Hs. simpl. rewrite En. reflexivity.
Qed.

(** A running sum clamped at 100 after every step is the clamped sum when
    nothing negative is added. *)
Lemma clamp_add_sum (l : list PatternMatch.t) :
  (forall pm, In pm l -> (0 <= pm_confidence pm)%Z) ->
  forall c,
    (c <= 100)%Z ->
    fold_left clamp_add l c = Z.min 100 (c + Zsum (map pm_confidence l)).
Proof.
  induction l as [|pm l IH]; intros Hpos c Hc; simpl.
  - lia.
  - assert (Hsum : (0 <= Zsum (map pm_confidence l))%Z).
    { clear IH. induction l as [|q l IHl]; simpl; [lia|].
      assert (0 <= pm_confidence q)%Z by (apply Hpos; simpl; auto).
      assert (0 <= Zsum (map pm_confidence l))%Z; [|lia].
      apply IHl. intros r Hr. apply Hpos. simpl in *. tauto. }
    assert (0 <= pm_confidence pm)%Z by (apply Hpos; left; reflexivity).
    rewrite IH; unfold clamp_add; try lia.
    intros q Hq. apply Hpos. right. exact Hq.
Qed.

(** The running version is replaced only by a strictly longer candidate
    of at most ten characters. *)
Lemma longer_within_cap_fold (hs : list PatternMatch.t) :
  forall v0,
    let v := fold_left longer_within_cap hs v0 in
    (v = v0
     /\ forall w, In w (map PatternMatch.version hs) ->
                  String.length w <= 10 -> String.length w <= String.length v0)
    \/ (exists l1 l2,
           map PatternMatch.version hs = l1 ++ v :: l2
           /\ String.length v <= 10
           /\ String.length v0 < String.length v
           /\ (forall w, In w l1 ->
                         String.length w <= 10 -> String.length w < String.length v)
           /\ (forall w, In w l2 ->
                         String.length w <= 10 -> String.length w <= String.length v)).
Proof.
  induction hs as [|h hs IH]; intros v0; cbv zeta; cbn [fold_left map].
  - left. split; [reflexivity|]. intros w [].
  - destruct ((String.length v0 <? String.length (PatternMatch.version h))%nat
              && (String.length (PatternMatch.version h) <=? 10)%nat) eqn:C.
    + assert (Hs : longer_within_cap v0 h = PatternMatch.version h)
        by (unfold longer_within_cap; rewrite C; reflexivity).
      rewrite Hs. clear Hs.
      apply andb_true_iff in C. destruct C as [C1 C2].
      apply Nat.ltb_lt in C1. apply Nat.leb_le in C2.
      destruct (IH (PatternMatch.version h))
        as [[E Hall]|[l1 [l2 [E [Hc [Hlt [H1 H2]]]]]]].
      * right. exists [], (map PatternMatch.version hs).
        rewrite E. cbn [app]. repeat split; auto. intros w [].
      * right. exists (PatternMatch.version h :: l1), l2.
        rewrite E at 1. cbn [app]. repeat split; auto; try lia.
        intros w [<-|Hw]; auto.
    + assert (Hs : longer_within_cap v0 h = v0)
        by (unfold longer_within_cap; rewrite C; reflexivity).
      rewrite Hs. clear Hs.
      assert (Hh : String.length (PatternMatch.version h) <= 10 ->
                   String.length (PatternMatch.version h) <= String.length v0).
      { intros Hle. apply andb_false_iff in C. destruct C as [C|C].
        - apply Nat.ltb_ge in C. exact C.
        - apply Nat.leb_gt in C. lia. }
      destruct (IH v0) as [[E Hall]|[l1 [l2 [E [Hc [Hlt [H1 H2]]]]]]].
      * left. split; [exact E|]. intros w [<-|Hw]; auto.
      * right. exists (PatternMatch.version h :: l1), l2.
        rewrite E at 1. cbn [app]. repeat split; auto.
        intros w [<-|Hw] Hle; auto. specialize (Hh Hle). lia.
Qed.

Lemma hits_name (n : string) (l : list PatternMatch.t) (pm : PatternMatch.t) :
  In pm (hits n l) -> In pm l /\ pm_name pm = n.
Proof.
  unfold hits. rewrite filter_In, String.eqb_eq. tauto.
Qed.

(** C3, as amended.  For a list of pattern matches with no negative
    declared confidence and a technology that occurs in it,
    [extract_techno_matches] returns exactly one [TechMatch] of that
    technology; its confidence is the minimum of 100 and the sum of the
    declared confidences of all the hits of the technology in the list,
    and its version is the first longest version of at most ten characters
    among those hits, or the empty string when there is none. *)
Theorem extract_techno_matches_aggregates (pms : list PatternMatch.t) (n : string) :
  (forall pm, In pm pms -> (0 <= pm_confidence pm)%Z) ->
  In n (map pm_name pms) ->
  exists tm,
    filter (fun tm => String.eqb (tm_name tm) n) (extract_techno_matches pms) = [tm]
    /\ (exists pm0 rest,
           hits n pms = pm0 :: rest
           /\ TechMatch.technology tm = PatternMatch.technology pm0)
    /\ TechMatch.confidence tm
       = Z.min 100 (Zsum (map pm_confidence (hits n pms)))
    /\ String.length (TechMatch.version tm) <= 10
    /\ (forall w, In w (map PatternMatch.version (hits n pms)) ->
                  String.length w <= 10 ->
                  String.length w <= String.length (TechMatch.version tm))
    /\ (TechMatch.version tm = EmptyString
        \/ exists l1 l2,
             map PatternMatch.version (hits n pms)
             = l1 ++ TechMatch.version tm :: l2
             /\ forall w, In w l1 ->
                          String.length w <= 10 ->
                          String.length w < String.length (TechMatch.version tm)).
Proof.
  intros Hpos Hin.
  destruct (first_hits_once n pms [] eq_refl Hin) as [pm0 [rest [Hfirst Hhits]]].
  assert (Hn : pm_name pm0 = n).
  { apply (hits_name n pms). rewrite Hhits. left. reflexivity. }
  exists (aggregated pms pm0).
  split.
  { rewrite extract_techno_matches_first_hits, filter_map_swap.
    change (filter _ (first_hits [] pms)) with (hits n (first_hits [] pms)).
    rewrite Hfirst. reflexivity. }
  split; [exists pm0, rest; split; [exact Hhits|reflexivity]|].
  unfold aggregated. cbn [TechMatch.confidence TechMatch.version]. rewrite Hn.
  split.
  { rewrite clamp_add_sum; [reflexivity| |lia].
    intros pm Hpm. apply Hpos. apply (hits_name n pms pm Hpm). }
  destruct (longer_within_cap_fold (hits n pms) EmptyString)
    as [[E Hall]|[l1 [l2 [E [Hc [Hlt [H1 H2]]]]]]].
  - rewrite E. split; [simpl; lia|]. split; [exact Hall|]. left. reflexivity.
  - split; [exact Hc|]. split.
    + intros w Hw Hle. rewrite E in Hw. apply in_app_or in Hw.
      destruct Hw as [Hw|[<-|Hw]]; [apply H1 in Hw; lia|lia|auto].
    + right. exists l1, l2. split; [exact E|exact H1].
Qed.

Lemma extract_techno_matches_aggregates_witness :
  exists tm,
    filter (fun tm => String.eqb (tm_name tm) "Shop")
           (extract_techno_matches SampleAggregate.versions) = [tm]
    /\ (exists pm0 rest,
           hits "Shop" SampleAggregate.versions = pm0 :: rest
           /\ TechMatch.technology tm = PatternMatch.technology pm0)
    /\ TechMatch.confidence tm
       = Z.min 100 (Zsum (map pm_confidence (hits "Shop" SampleAggregate.versions)))
    /\ String.length (TechMatch.version tm) <= 10
    /\ (forall w, In w (map PatternMatch.version (hits "Shop" SampleAggregate.versions)) ->
                  String.length w <= 10 ->
                  String.length w <= String.length (TechMatch.version tm))
    /\ (TechMatch.version tm = EmptyString
        \/ exists l1 l2,
             map PatternMatch.version (hits "Shop" SampleAggregate.versions)
             = l1 ++ TechMatch.version tm :: l2
             /\ forall w, In w l1 ->
                          String.length w <= 10 ->
                          String.length w < String.length (TechMatch.version tm)).
Proof.
  apply (extract_techno_matches_aggregates SampleAggregate.versions "Shop").
  - intros pm [<-|[<-|[<-|[<-|[]]]]]; vm_compute; discriminate.
  - simpl. left. reflexivity.
Defined.

(** What the code returns on the sample with four versions: the sum
    40 + 50 + 30 + 0 is clamped, and of the two six-character versions the
    first is kept. *)
Example extract_techno_matches_versions :
  map (fun tm => (tm_name tm, TechMatch.confidence tm, TechMatch.version tm))
      (extract_techno_matches SampleAggregate.versions)
  = [("Shop", 100%Z, "10.4.1")].
Proof. reflexivity. Qed.

(** C3, as stated, fails twice.  A list that holds one logical hit twice
    counts it twice: 60, where the distinct hits add up to 30.  And with a
    negative declared confidence the running clamp differs from the
    clamped sum: 100, 100, 50 against min(100, 150). *)
Lemma extract_techno_matches_counts_every_hit :
  (map TechMatch.confidence (extract_techno_matches SampleAggregate.twice)
   = [60%Z]
   /\ Z.min 100 (Zsum (map pm_confidence
                           (hits "Shop" (set_of SampleAggregate.twice))))
      = 30%Z)
  /\ (map TechMatch.confidence (extract_techno_matches SampleAggregate.negative)
      = [50%Z]
      /\ set_of SampleAggregate.negative = SampleAggregate.negative
      /\ Z.min 100 (Zsum (map pm_confidence
                              (hits "Shop" SampleAggregate.negative)))
         = 100%Z).
Proof. repeat split; reflexivity. Qed.

(** ** The implication resolver *)

Lemma techno_match_in_name (tm : TechMatch.t) (impls : list TechMatch.t) :
  techno_match_in tm impls = name_in (tm_name tm) impls.
Proof. reflexivity. Qed.

Lemma name_in_app (n : string) (l1 l2 : list TechMatch.t) :
  name_in n (l1 ++ l2) = name_in n l1 || name_in n l2.
Proof. apply existsb_app. Qed.

Lemma name_in_In (n : string) (l : list TechMatch.t) :
  name_in n l = true <-> In n (map tm_name l).
Proof.
  unfold name_in. rewrite existsb_exists, in_map_iff. split.
  - intros [tm [Hin E]]. apply String.eqb_eq in E. eauto.
  - intros [tm [E Hin]]. exists tm. rewrite E, String.eqb_refl. auto.
Qed.

Lemma inner_unfold (fuel : nat) (impls : list TechMatch.t) (tm : TechMatch.t)
      (techs : list (string * Technology.t)) :
  _resolve_implies_inner (S fuel) impls tm techs
  = if name_in (tm_name tm) impls then Ok impls
    else
      implies <- implied tm techs ;;
      for_each (fun s x => _resolve_implies_inner fuel s x techs)
               (impls ++ [tm]) implies.
Proof.
  cbn [_resolve_implies_inner]. rewrite techno_match_in_name.
  destruct (name_in (tm_name tm) impls); reflexivity.
Qed.

(** *** Loops *)

Lemma for_each_app {S A : Type} (body : S -> A -> result S) (l1 l2 : list A) :
  forall s,
    for_each body s (l1 ++ l2) = s' <- for_each body s l1 ;; for_each body s' l2.
Proof.
  induction l1 as [|x l1 IH]; intros s; simpl; [reflexivity|].
  destruct (body s x); simpl; auto.
Qed.

(** A property kept by every turn of the loop holds at its end. *)
Lemma for_each_invariant {S A : Type} (body : S -> A -> result S)
      (P : S -> Prop) (l : list A) :
  (forall s x s', In x l -> P s -> body s x = Ok s' -> P s') ->
  forall s s', P s -> for_each body s l = Ok s' -> P s'.
Proof.
  induction l as [|x l IH]; intros Hbody s s' Hs E; simpl in E.
  - injection E as <-. exact Hs.
  - destruct (body s x) as [s1| |] eqn:Eb; simpl in E; try discriminate.
    apply (IH (fun s0 y s0' Hy => Hbody s0 y s0' (or_intror Hy)) s1 s');
      [|exact E].
    apply (Hbody s x s1); simpl; auto.
Qed.

(** A loop whose turns never run out of budget does not either. *)
Lemma for_each_fuelled {S A : Type} (body : S -> A -> result S)
      (P : S -> Prop) (l : list A) :
  (forall s x, In x l -> P s -> body s x <> OutOfFuel) ->
  (forall s x s', In x l -> P s -> body s x = Ok s' -> P s') ->
  forall s, P s -> for_each body s l <> OutOfFuel.
Proof.
  induction l as [|x l IH]; intros Hfuel Hbody s Hs; simpl; [discriminate|].
  destruct (body s x) as [s1| |] eqn:Eb; simpl.
  - apply IH.
    + intros s0 y Hy. apply Hfuel. right. exact Hy.
    + intros s0 y s0' Hy. apply Hbody. right. exact Hy.
    + apply (Hbody s x s1); simpl; auto.
  - discriminate.
  - exfalso. apply (Hfuel s x); simpl; auto.
Qed.

(** Two bodies that agree wherever the first gives an answer give the same
    loop. *)
Lemma for_each_agree {S A : Type} (body1 body2 : S -> A -> result S)
      (l : list A) :
  (forall s x, In x l -> body1 s x <> OutOfFuel -> body2 s x = body1 s x) ->
  forall s, for_each body1 s l <> OutOfFuel ->
            for_each body2 s l = for_each body1 s l.
Proof.
  induction l as [|x l IH]; intros Hag s Hne; simpl in *; [reflexivity|].
  assert (Hx : body1 s x <> OutOfFuel).
  { intros E. rewrite E in Hne. apply Hne. reflexivity. }
  rewrite (Hag s x (or_introl eq_refl) Hx).
  destruct (body1 s x) as [s1| |]; simpl in *; auto.
Qed.

(** *** The list comprehension *)

Lemma comprehension_fuelled {A B : Type} (f : A -> result B) (l : list A) :
  (forall x, In x l -> f x <> OutOfFuel) -> comprehension f l <> OutOfFuel.
Proof.
  induction l as [|x l IH]; intros Hf; simpl; [discriminate|].
  destruct (f x) eqn:E; simpl; try discriminate.
  - destruct (comprehension f l) eqn:E'; simpl; try discriminate.
    apply IH. intros y Hy. apply Hf. right. exact Hy.
  - exfalso. apply (Hf x); simpl; auto.
Qed.

Lemma comprehension_Ok {A B : Type} (f : A -> result B) (l : list A) :
  forall ys,
    comprehension f l = Ok ys ->
    forall y, In y ys -> exists x, In x l /\ f x = Ok y.
Proof.
  induction l as [|x l IH]; intros ys E y Hy; simpl in E.
  - injection E as <-. destruct Hy.
  - destruct (f x) as [b| |] eqn:Ef; simpl in E; try discriminate.
    destruct (comprehension f l) as [bs| |] eqn:Ec; simpl in E; try discriminate.
    injection E as <-. destruct Hy as [<-|Hy].
    + exists x. split; [left; reflexivity|exact Ef].
    + destruct (IH bs eq_refl y Hy) as [x' [Hx' Ef']].
      exists x'. split; [right; exact Hx'|exact Ef'].
Qed.

Lemma get_In {V : Type} (d : list (string * V)) (key : string) (v : V) :
  Py.get d key = Some v -> exists k, In (k, v) d.
Proof.
  induction d as [|[k w] d IH]; simpl; [discriminate|].
  destruct (String.eqb k key).
  - intros [= ->]. exists k. left. reflexivity.
  - intros E. destruct (IH E) as [k' Hk']. exists k'. right. exact Hk'.
Qed.

Lemma implied_fuelled (tm : TechMatch.t) (techs : list (string * Technology.t)) :
  implied tm techs <> OutOfFuel.
Proof.
  apply comprehension_fuelled. intros imply _. unfold getitem.
  destruct (Py.get techs (Imply.name imply)); simpl; discriminate.
Qed.

(** What the comprehension builds: one match per [Imply], in order. *)
Lemma implied_Ok (tm : TechMatch.t) (techs : list (string * Technology.t))
      (implies : list TechMatch.t) :
  implied tm techs = Ok implies ->
  forall x, In x implies -> implied_by techs tm x /\ from_rules techs x.
Proof.
  intros E x Hx. destruct (comprehension_Ok _ _ _ E x Hx) as [imply [Hi Ef]].
  unfold getitem in Ef.
  destruct (Py.get techs (Imply.name imply)) as [t|] eqn:Eg; simpl in Ef;
    [|discriminate].
  injection Ef as <-. split.
  - exists imply. simpl. auto.
  - apply (get_In _ _ _ Eg).
Qed.

(** *** One visit *)

(** A visit only appends: what is recorded stays as it is. *)
Lemma inner_prefix (techs : list (string * Technology.t)) (fuel : nat) :
  forall impls tm impls',
    _resolve_implies_inner fuel impls tm techs = Ok impls' ->
    exists ext, impls' = impls ++ ext.
Proof.
  induction fuel as [|fuel IH]; intros impls tm impls' E; [discriminate|].
  rewrite inner_unfold in E. destruct (name_in (tm_name tm) impls).
  - injection E as <-. exists []. symmetry. apply app_nil_r.
  - destruct (implied tm techs) as [implies| |]; simpl in E; try discriminate.
    refine (for_each_invariant _ (fun s => exists ext, s = impls ++ ext)
                               _ _ _ _ _ E); [|exists [tm]; reflexivity].
    intros s x s' _ [ext ->] Ex. destruct (IH _ _ _ Ex) as [ext' ->].
    exists (ext ++ ext'). apply eq_sym, app_assoc.
Qed.

(** A visit records a technology only when its name is new. *)
Lemma inner_NoDup (techs : list (string * Technology.t)) (fuel : nat) :
  forall impls tm impls',
    NoDup (map tm_name impls) ->
    _resolve_implies_inner fuel impls tm techs = Ok impls' ->
    NoDup (map tm_name impls').
Proof.
  induction fuel as [|fuel IH]; intros impls tm impls' Hnd E; [discriminate|].
  rewrite inner_unfold in E. destruct (name_in (tm_name tm) impls) eqn:Hin.
  - injection E as <-. exact Hnd.
  - destruct (implied tm techs) as [implies| |]; simpl in E; try discriminate.
    refine (for_each_invariant _ (fun s => NoDup (map tm_name s))
                               _ _ _ _ _ E).
    + intros s x s' _ Hs Ex. apply (IH _ _ _ Hs Ex).
    + rewrite map_app. simpl. apply NoDup_app_remove_l with (l := []).
      simpl. apply Permutation_NoDup with (l := tm_name tm :: map tm_name impls).
      * apply Permutation_cons_append.
      * constructor; [|exact Hnd]. intros Hn. apply name_in_In in Hn. congruence.
Qed.

(** More budget does not change an answer. *)
Lemma inner_mono (techs : list (string * Technology.t)) (fuel : nat) :
  forall impls tm fuel',
    _resolve_implies_inner fuel impls tm techs <> OutOfFuel ->
    fuel <= fuel' ->
    _resolve_implies_inner fuel' impls tm techs
    = _resolve_implies_inner fuel impls tm techs.
Proof.
  induction fuel as [|fuel IH]; intros impls tm fuel' Hne Hle.
  - exfalso. apply Hne. reflexivity.
  - destruct fuel' as [|fuel']; [lia|].
    rewrite inner_unfold in Hne. rewrite !inner_unfold.
    destruct (name_in (tm_name tm) impls); [reflexivity|].
    destruct (implied tm techs) as [implies| |]; simpl in *; try reflexivity.
    apply for_each_agree; [|exact Hne].
    intros s x _ Hx. apply IH; [exact Hx|lia].
Qed.

(** *** The budget *)

Lemma filter_length_mono {X : Type} (p q : X -> bool) (l : list X) :
  (forall x, In x l -> p x = true -> q x = true) ->
  List.length (filter p l) <= List.length (filter q l).
Proof.
  induction l as [|x l IH]; intros H; simpl; [lia|].
  assert (IH' : List.length (filter p l) <= List.length (filter q l)).
  { apply IH. intros y Hy. apply H. right. exact Hy. }
  destruct (p x) eqn:Ep.
  - rewrite (H x (or_introl eq_refl) Ep). simpl. lia.
  - destruct (q x); simpl; lia.
Qed.

Lemma filter_length_strict {X : Type} (p q : X -> bool) (l : list X) (x0 : X) :
  (forall x, In x l -> p x = true -> q x = true) ->
  In x0 l -> p x0 = false -> q x0 = true ->
  List.length (filter p l) < List.length (filter q l).
Proof.
  induction l as [|x l IH]; intros H Hin Hp Hq; [destruct Hin|].
  assert (Hl : forall y, In y l -> p y = true -> q y = true).
  { intros y Hy. apply H. right. exact Hy. }
  pose proof (filter_length_mono p q l Hl) as Hmono.
  simpl. destruct Hin as [->|Hin].
  - rewrite Hp, Hq. simpl. lia.
  - specialize (IH Hl Hin Hp Hq). destruct (p x) eqn:Ep.
    + rewrite (H x (or_introl eq_refl) Ep). simpl. lia.
    + destruct (q x); simpl; lia.
Qed.

Lemma unseen_le_length (techs : list (string * Technology.t))
      (impls : list TechMatch.t) :
  unseen techs impls <= List.length techs.
Proof. apply filter_length_le. Qed.

Lemma unseen_app_le (techs : list (string * Technology.t))
      (impls ext : list TechMatch.t) :
  unseen techs (impls ++ ext) <= unseen techs impls.
Proof.
  apply filter_length_mono. intros kv _. rewrite name_in_app.
  destruct (name_in _ impls); simpl; [discriminate|reflexivity].
Qed.

Lemma unseen_snoc_lt (techs : list (string * Technology.t))
      (impls : list TechMatch.t) (tm : TechMatch.t) :
  from_rules techs tm ->
  name_in (tm_name tm) impls = false ->
  unseen techs (impls ++ [tm]) < unseen techs impls.
Proof.
  intros [k Hk] Hnew.
  apply filter_length_strict with (x0 := (k, TechMatch.technology tm)).
  - intros kv _. rewrite name_in_app.
    destruct (name_in (Technology.name (snd kv)) impls); simpl;
      [discriminate|reflexivity].
  - exact Hk.
  - rewrite name_in_app. simpl. unfold tm_name.
    rewrite String.eqb_refl, orb_true_r. reflexivity.
  - simpl. fold (tm_name tm). rewrite Hnew. reflexivity.
Qed.

(** A visit of a technology of the rule set needs no more budget than
    there are technologies left to record, plus one. *)
Lemma inner_fuelled_rules (techs : list (string * Technology.t)) (fuel : nat) :
  forall impls tm,
    from_rules techs tm ->
    unseen techs impls < fuel ->
    _resolve_implies_inner fuel impls tm techs <> OutOfFuel.
Proof.
  induction fuel as [|fuel IH]; intros impls tm Hr Hlt; [lia|].
  rewrite inner_unfold. destruct (name_in (tm_name tm) impls) eqn:Hin;
    [discriminate|].
  pose proof (implied_fuelled tm techs) as Hi.
  destruct (implied tm techs) as [implies| |] eqn:Ei; simpl;
    [|discriminate|congruence].
  pose proof (unseen_snoc_lt techs impls tm Hr Hin) as Hlt'.
  apply (for_each_fuelled _ (fun s => exists ext, s = (impls ++ [tm]) ++ ext)).
  - intros s x Hx [ext ->]. apply IH.
    + apply (implied_Ok _ _ _ Ei x Hx).
    + pose proof (unseen_app_le techs (impls ++ [tm]) ext). lia.
  - intros s x s' _ [ext ->] Ex.
    destruct (inner_prefix _ _ _ _ _ Ex) as [ext' ->].
    exists (ext ++ ext'). apply eq_sym, app_assoc.
  - exists []. symmetry. apply app_nil_r.
Qed.

(** The first visit may be of a technology that the rule set does not
    hold: one more level. *)
Lemma inner_fuelled (techs : list (string * Technology.t)) (fuel : nat)
      (impls : list TechMatch.t) (tm : TechMatch.t) :
  unseen techs impls + 1 < fuel ->
  _resolve_implies_inner fuel impls tm techs <> OutOfFuel.
Proof.
  intros Hlt. destruct fuel as [|fuel]; [lia|].
  rewrite inner_unfold. destruct (name_in (tm_name tm) impls); [discriminate|].
  pose proof (implied_fuelled tm techs) as Hi.
  destruct (implied tm techs) as [implies| |] eqn:Ei; simpl;
    [|discriminate|congruence].
  apply (for_each_fuelled _ (fun s => exists ext, s = (impls ++ [tm]) ++ ext)).
  - intros s x Hx [ext ->]. apply inner_fuelled_rules.
    + apply (implied_Ok _ _ _ Ei x Hx).
    + pose proof (unseen_app_le techs (impls ++ [tm]) ext).
      pose proof (unseen_app_le techs impls [tm]). lia.
  - intros s x s' _ [ext ->] Ex.
    destruct (inner_prefix _ _ _ _ _ Ex) as [ext' ->].
    exists (ext ++ ext'). apply eq_sym, app_assoc.
  - exists []. symmetry. apply app_nil_r.
Qed.

Lemma resolve_implies_fuelled (tms : list TechMatch.t)
      (techs : list (string * Technology.t)) (fuel : nat) :
  2 + List.length techs <= fuel ->
  resolve_implies_fuel fuel tms techs <> OutOfFuel.
Proof.
  intros Hle. unfold resolve_implies_fuel.
  apply (for_each_fuelled _ (fun _ => True)); auto.
  intros s x _ _. apply inner_fuelled.
  pose proof (unseen_le_length techs s). lia.
Qed.

Lemma resolve_implies_any_fuel (tms : list TechMatch.t)
      (techs : list (string * Technology.t)) (fuel : nat) :
  2 + List.length techs <= fuel ->
  resolve_implies_fuel fuel tms techs = resolve_implies tms techs.
Proof.
  intros Hle. unfold resolve_implies, resolve_implies_fuel.
  apply for_each_agree.
  - intros s x _ Hx. apply inner_mono; [exact Hx|exact Hle].
  - apply (resolve_implies_fuelled tms techs (2 + List.length techs)). lia.
Qed.

(** *** Where the recorded matches come from *)

Lemma justified_weaken (techs : list (string * Technology.t))
      (inputs before before' : list TechMatch.t) (tm : TechMatch.t) :
  incl before before' ->
  justified techs inputs before tm -> justified techs inputs before' tm.
Proof.
  intros Hincl [Hin|[parent [Hp Himp]]]; [left; exact Hin|right].
  exists parent. split; [apply Hincl; exact Hp|exact Himp].
Qed.

Lemma inner_justified (techs : list (string * Technology.t))
      (inputs : list TechMatch.t) (fuel : nat) :
  forall impls tm impls',
    _resolve_implies_inner fuel impls tm techs = Ok impls' ->
    all_justified techs inputs impls ->
    justified techs inputs impls tm ->
    all_justified techs inputs impls'.
Proof.
  induction fuel as [|fuel IH]; intros impls tm impls' E Hall Hj; [discriminate|].
  rewrite inner_unfold in E. destruct (name_in (tm_name tm) impls).
  - injection E as <-. exact Hall.
  - destruct (implied tm techs) as [implies| |] eqn:Ei; simpl in E;
      try discriminate.
    refine (proj1 (for_each_invariant _
              (fun s => all_justified techs inputs s
                        /\ exists ext, s = (impls ++ [tm]) ++ ext)
              _ _ _ _ _ E)).
    + intros s x s' Hx [Hs [ext ->]] Ex. split.
      * apply (IH _ _ _ Ex Hs). right. exists tm. split.
        -- apply in_or_app. left. apply in_or_app. right. left. reflexivity.
        -- apply (implied_Ok _ _ _ Ei x Hx).
      * destruct (inner_prefix _ _ _ _ _ Ex) as [ext' ->].
        exists (ext ++ ext'). apply eq_sym, app_assoc.
    + split; [constructor; assumption|exists []; symmetry; apply app_nil_r].
Qed.

Lemma resolve_implies_justified (tms : list TechMatch.t)
      (techs : list (string * Technology.t)) (out : list TechMatch.t) :
  resolve_implies tms techs = Ok out -> all_justified techs tms out.
Proof.
  intros E. unfold resolve_implies, resolve_implies_fuel in E.
  refine (for_each_invariant _ (all_justified techs tms) _ _ _ _ _ E).
  - intros s x s' Hx Hs Ex. apply (inner_justified _ _ _ _ _ _ Ex Hs).
    left. exact Hx.
  - constructor.
Qed.

Lemma all_justified_at (techs : list (string * Technology.t))
      (inputs l : list TechMatch.t) :
  all_justified techs inputs l ->
  forall l1 tm l2, l = l1 ++ tm :: l2 -> justified techs inputs l1 tm.
Proof.
  induction 1 as [|l tm' Hall IH Hj]; intros l1 tm l2 E.
  - destruct l1; discriminate.
  - destruct l2 as [|z l2 _] using rev_ind.
    + apply app_inj_tail in E. destruct E as [-> ->]. exact Hj.
    + change (l ++ [tm'] = l1 ++ (tm :: l2) ++ [z]) in E.
      rewrite app_assoc in E. apply app_inj_tail in E. destruct E as [-> _].
      apply (IH l1 tm l2). reflexivity.
Qed.

(** C6.  A match of the output of [resolve_implies] whose technology is not
    among the input matches has the empty version, and its confidence is
    the minimum of the confidence of an [Imply] and of the confidence of
    its parent, a match recorded before it whose technology declares that
    [Imply] for the technology of the match. *)
Theorem implied_match_is_capped (tms : list TechMatch.t)
        (techs : list (string * Technology.t)) (out : list TechMatch.t) :
  resolve_implies tms techs = Ok out ->
  forall l1 tm l2,
    out = l1 ++ tm :: l2 ->
    ~ In (tm_name tm) (map tm_name tms) ->
    TechMatch.version tm = EmptyString
    /\ exists parent imply,
         In parent l1
         /\ In imply (Technology.implies (TechMatch.technology parent))
         /\ Py.get techs (Imply.name imply) = Some (TechMatch.technology tm)
         /\ TechMatch.confidence tm
            = Z.min (Imply.confidence imply) (TechMatch.confidence parent).
Proof.
  intros E l1 tm l2 Hout Hnew.
  destruct (all_justified_at _ _ _ (resolve_implies_justified _ _ _ E) _ _ _ Hout)
    as [Hin|[parent [Hp [imply [Hi [Hg [Hc Hv]]]]]]].
  - exfalso. apply Hnew. apply in_map. exact Hin.
  - split; [exact Hv|]. exists parent, imply. auto.
Qed.

Lemma implied_match_is_capped_witness :
  TechMatch.version (Sample.hit SampleImplies.B 50 EmptyString) = EmptyString
  /\ exists parent imply,
       In parent [Sample.hit SampleImplies.A 80 "1.0"]
       /\ In imply (Technology.implies (TechMatch.technology parent))
       /\ Py.get SampleImplies.cyclic (Imply.name imply)
          = Some (TechMatch.technology (Sample.hit SampleImplies.B 50 EmptyString))
       /\ TechMatch.confidence (Sample.hit SampleImplies.B 50 EmptyString)
          = Z.min (Imply.confidence imply) (TechMatch.confidence parent).
Proof.
  apply (implied_match_is_capped
           [Sample.hit SampleImplies.A 80 "1.0"] SampleImplies.cyclic
           [Sample.hit SampleImplies.A 80 "1.0";
            Sample.hit SampleImplies.B 50 EmptyString]
           eq_refl
           [Sample.hit SampleImplies.A 80 "1.0"]
           (Sample.hit SampleImplies.B 50 EmptyString) [] eq_refl).
  simpl. intros [H|[]]. discriminate H.
Defined.

Lemma resolve_implies_prefix (pre post : list TechMatch.t)
      (techs : list (string * Technology.t)) (out : list TechMatch.t) :
  resolve_implies (pre ++ post) techs = Ok out ->
  exists out0 ext, resolve_implies pre techs = Ok out0 /\ out = out0 ++ ext.
Proof.
  unfold resolve_implies, resolve_implies_fuel. rewrite for_each_app.
  destruct (for_each _ [] pre) as [s0| |]; cbn [bind]; try discriminate.
  intros E. exists s0.
  refine (for_each_invariant _ (fun s => exists ext, Ok s0 = Ok s0 /\ s = s0 ++ ext)
                             _ _ _ _ _ E).
  - intros s x s' _ [ext [_ ->]] Ex.
    destruct (inner_prefix _ _ _ _ _ Ex) as [ext' ->].
    exists (ext ++ ext'). split; [reflexivity|apply eq_sym, app_assoc].
  - exists []. split; [reflexivity|symmetry; apply app_nil_r].
Qed.

Lemma resolve_implies_NoDup (tms : list TechMatch.t)
      (techs : list (string * Technology.t)) (out : list TechMatch.t) :
  resolve_implies tms techs = Ok out -> NoDup (map tm_name out).
Proof.
  intros E. unfold resolve_implies, resolve_implies_fuel in E.
  refine (for_each_invariant _ (fun s => NoDup (map tm_name s)) _ _ _ _ _ E).
  - intros s x s' _ Hs Ex. apply (inner_NoDup _ _ _ _ _ Hs Ex).
  - constructor.
Qed.

(** Two technologies that imply each other: the second visit of the first
    one finds it recorded and stops. *)
Lemma resolve_implies_cycle (techs : list (string * Technology.t))
      (tm : TechMatch.t) (b : Technology.t) (ka kb : string) (ca cb : Z) :
  Technology.implies (TechMatch.technology tm)
  = [ {| Imply.name := kb; Imply.confidence := cb |} ] ->
  Technology.implies b = [ {| Imply.name := ka; Imply.confidence := ca |} ] ->
  Py.get techs ka = Some (TechMatch.technology tm) ->
  Py.get techs kb = Some b ->
  tm_name tm <> Technology.name b ->
  resolve_implies [tm] techs
  = Ok [tm; {| TechMatch.technology := b;
               TechMatch.confidence := Z.min cb (TechMatch.confidence tm);
               TechMatch.version := EmptyString |}].
Proof.
  intros Ha Hb Hka Hkb Hab.
  unfold resolve_implies, resolve_implies_fuel.
  destruct techs as [|kv techs]; [discriminate|].
  cbn [List.length Nat.add for_each]. rewrite inner_unfold. cbn [name_in existsb].
  unfold implied at 1. rewrite Ha. cbn [comprehension]. unfold getitem at 1.
  cbn [Imply.name Imply.confidence]. rewrite Hkb.
  cbn [bind for_each app]. rewrite inner_unfold.
  assert (Hn : name_in (Technology.name b) [tm] = false).
  { cbn [name_in existsb]. apply orb_false_iff. split; [|reflexivity].
    apply String.eqb_neq. exact Hab. }
  unfold tm_name at 1. cbn [TechMatch.technology]. rewrite Hn.
  unfold implied at 1. cbn [TechMatch.technology]. rewrite Hb.
  cbn [comprehension]. unfold getitem at 1.
  cbn [Imply.name Imply.confidence]. rewrite Hka.
  cbn [bind for_each app]. rewrite inner_unfold.
  unfold tm_name at 1. cbn [TechMatch.technology].
  unfold name_in at 1. cbn [existsb]. unfold tm_name at 1.
  rewrite String.eqb_refl. reflexivity.
Qed.

(** C5.  [resolve_implies] ends on every rule set: any recursion budget of
    at least the size of the rule set plus two gives the same answer, and
    that answer is a list or a lookup failure.  The list holds each
    technology name once; matches already recorded are a prefix of every
    later state, so a later visit of a recorded technology changes
    nothing; and two technologies that imply each other resolve to the
    two of them. *)
Theorem resolve_implies_terminates_once (tms : list TechMatch.t)
        (techs : list (string * Technology.t)) :
  (forall fuel,
      2 + List.length techs <= fuel ->
      resolve_implies_fuel fuel tms techs = resolve_implies tms techs)
  /\ resolve_implies tms techs <> OutOfFuel
  /\ (forall out, resolve_implies tms techs = Ok out -> NoDup (map tm_name out))
  /\ (forall pre post out,
         tms = pre ++ post ->
         resolve_implies tms techs = Ok out ->
         exists out0 ext, resolve_implies pre techs = Ok out0 /\ out = out0 ++ ext)
  /\ (forall fuel impls tm,
         techno_match_in tm impls = true ->
         _resolve_implies_inner (S fuel) impls tm techs = Ok impls)
  /\ (forall tm b ka kb ca cb,
         tms = [tm] ->
         Technology.implies (TechMatch.technology tm)
         = [ {| Imply.name := kb; Imply.confidence := cb |} ] ->
         Technology.implies b = [ {| Imply.name := ka; Imply.confidence := ca |} ] ->
         Py.get techs ka = Some (TechMatch.technology tm) ->
         Py.get techs kb = Some b ->
         tm_name tm <> Technology.name b ->
         resolve_implies tms techs
         = Ok [tm; {| TechMatch.technology := b;
                      TechMatch.confidence := Z.min cb (TechMatch.confidence tm);
                      TechMatch.version := EmptyString |}]).
Proof.
  split; [intros fuel; apply resolve_implies_any_fuel|].
  split; [apply (resolve_implies_fuelled tms techs (2 + List.length techs)); lia|].
  split; [apply resolve_implies_NoDup|].
  split; [intros pre post out ->; apply resolve_implies_prefix|].
  split.
  - intros fuel impls tm Hin. rewrite inner_unfold.
    rewrite techno_match_in_name in Hin. rewrite Hin. reflexivity.
  - intros tm b ka kb ca cb ->. apply resolve_implies_cycle.
Qed.

Lemma resolve_implies_terminates_once_witness :
  resolve_implies [Sample.hit SampleImplies.A 80 "1.0"] SampleImplies.cyclic
  = Ok [Sample.hit SampleImplies.A 80 "1.0";
        {| TechMatch.technology := SampleImplies.B;
           TechMatch.confidence := Z.min 50 80;
           TechMatch.version := EmptyString |}].
Proof.
  apply (proj2 (proj2 (proj2 (proj2 (proj2
           (resolve_implies_terminates_once
              [Sample.hit SampleImplies.A 80 "1.0"] SampleImplies.cyclic))))))
    with (ka := "A") (kb := "B") (ca := 100%Z) (cb := 50%Z).
  - reflexivity.
  - reflexivity.
  - reflexivity.
  - reflexivity.
  - reflexivity.
  - simpl. discriminate.
Defined.

(** ** Dangling references *)











(** ** The signal matcher *)

Lemma flat_map_ext_in {X Y : Type} (f g : X -> list Y) (l : list X) :
  (forall x, In x l -> f x = g x) -> flat_map f l = flat_map g l.
Proof.
  induction l as [|x l IH]; intros H; simpl; [reflexivity|].
  rewrite (H x (or_introl eq_refl)), IH; [reflexivity|].
  intros y Hy. apply H. right. exact Hy.
Qed.

Lemma flat_map_nil {X Y : Type} (f : X -> list Y) (l : list X) :
  (forall x, In x l -> f x = []) -> flat_map f l = [].
Proof.
  induction l as [|x l IH]; intros H; simpl; [reflexivity|].
  rewrite (H x (or_introl eq_refl)), IH; [reflexivity|].
  intros y Hy. apply H. right. exact Hy.
Qed.

Lemma match_parts_app (t : Technology.t)
      (f g : list (Technology.t -> list PatternMatch.t)) :
  match_parts t (f ++ g) = match_parts t f ++ match_parts t g.
Proof. apply flat_map_app. Qed.

(** A guarded string field gives what the evaluation gives, provided the
    evaluation of the empty string gives nothing. *)
Lemma when_str_evaluated (t : Technology.t) (x : option string)
      (f : Technology.t -> string -> list PatternMatch.t) :
  (Spec.or_empty_str x = EmptyString -> f t EmptyString = []) ->
  match_parts t (when_str x f) = f t (Spec.or_empty_str x).
Proof.
  intros H. destruct x as [[|c s]|]; simpl.
  - symmetry. apply H. reflexivity.
  - apply app_nil_r.
  - symmetry. apply H. reflexivity.
Qed.

(** A guarded list or mapping gives what the evaluation gives, provided
    the evaluation of the empty value gives nothing. *)
Lemma when_items_evaluated {A : Type} (t : Technology.t) (x : option (list A))
      (f : Technology.t -> list A -> list PatternMatch.t) :
  f t [] = [] ->
  match_parts t (when_items x f) = f t (Spec.or_empty x).
Proof.
  intros H. destruct x as [[|a l]|]; simpl.
  - symmetry. exact H.
  - apply app_nil_r.
  - symmetry. exact H.
Qed.

Lemma match_pairs_empty (t : Technology.t) (field : string) :
  match_pairs t field [] = [].
Proof.
  unfold match_pairs.
  replace (if Py.mem field ["cookies"] then lower_keys [] else [])
    with (@nil (string * list string)) by (destruct (Py.mem field _); reflexivity).
  apply flat_map_nil. intros [key patterns] _. reflexivity.
Qed.

Lemma match_patterns_none (patterns : list Pattern.t) (t : Technology.t)
      (value : string) :
  (forall p, In p patterns -> Re.search (Pattern.regex p) value = None) ->
  _match_patterns patterns t value = [].
Proof.
  intros H. apply flat_map_nil. intros p Hp. rewrite (H p Hp). reflexivity.
Qed.

(** C8, as amended.  Skipping an absent or empty input gives the same
    pattern matches, in the same order, as evaluating the field on the
    empty value, provided that no URL pattern matches the empty string when
    the URL is absent or empty, and likewise for the HTML patterns. *)
Theorem match_all_short_circuit (technologies : list (string * Technology.t))
        (url html : option string) (scripts : option (list string))
        (cookies metas headers js_vars : option (list (string * list string))) :
  (Spec.or_empty_str url = EmptyString ->
   forall k t p,
     In (k, t) technologies -> In p (Technology.url t) ->
     Re.search (Pattern.regex p) EmptyString = None) ->
  (Spec.or_empty_str html = EmptyString ->
   forall k t p,
     In (k, t) technologies -> In p (Technology.html t) ->
     Re.search (Pattern.regex p) EmptyString = None) ->
  match_all technologies url html scripts cookies metas headers js_vars
  = Spec.match_all_evaluated technologies url html scripts cookies metas
                             headers js_vars.
Proof.
  intros Hurl Hhtml. unfold match_all, Spec.match_all_evaluated.
  apply flat_map_ext_in. intros t Ht.
  apply in_map_iff in Ht. destruct Ht as [[k t'] [E Hk]]. simpl in E. subst t'.
  rewrite !match_parts_app.
  rewrite (when_str_evaluated t url match_url),
          (when_str_evaluated t html match_html),
          (when_items_evaluated t headers match_headers),
          (when_items_evaluated t cookies match_cookies),
          (when_items_evaluated t metas match_metas),
          (when_items_evaluated t scripts match_scripts),
          (when_items_evaluated t js_vars match_js_vars);
    try apply match_pairs_empty; try reflexivity.
  - simpl. rewrite app_nil_r. reflexivity.
  - intros E. apply match_patterns_none. intros p Hp.
    apply (Hhtml E k t p Hk Hp).
  - intros E. apply match_patterns_none. intros p Hp.
    apply (Hurl E k t p Hk Hp).
Qed.

Lemma match_all_short_circuit_witness :
  match_all SampleSignals.blank_rules (Some "https://example.org") None
            (Some []) None None (Some []) None
  = Spec.match_all_evaluated SampleSignals.blank_rules
      (Some "https://example.org") None (Some []) None None (Some []) None.
Proof.
  apply match_all_short_circuit.
  - simpl. discriminate.
  - intros _ k t p [[= <- <-]|[]] [].
Defined.

(** C8, as stated, fails for the empty URL: the field is skipped, while
    evaluating it finds the pattern that matches the empty string. *)
Lemma match_all_skips_empty_url :
  match_all SampleSignals.blank_rules (Some EmptyString) None None None None
            None None
  = []
  /\ map pm_name
         (Spec.match_all_evaluated SampleSignals.blank_rules (Some EmptyString)
                                   None None None None None None)
     = ["Blank"].
Proof. split; reflexivity. Qed.

(** ** Dictionaries *)

Lemma match_pairs_single (t : Technology.t) (field : string)
      (key : string) (patterns : list Pattern.t)
      (pairs : list (string * list string)) :
  Technology.get_pairs t field = [(key, patterns)] ->
  match_pairs t field pairs
  = flat_map (fun value => _match_patterns patterns t value)
      (match Py.get (if Py.mem field ["cookies"] then lower_keys pairs else pairs)
                    key with
       | Some vs => vs
       | None => []
       end).
Proof.
  intros E. unfold match_pairs. rewrite E. simpl. apply app_nil_r.
Qed.

Lemma set_In {V : Type} (d : list (string * V)) (k : string) (v : V)
      (n : string) (w : V) :
  In (n, w) (Py.set d k v) -> n = k \/ In (n, w) d.
Proof.
  induction d as [|[k' v'] d IH]; simpl.
  - intros [[= <- <-]|[]]. left. reflexivity.
  - destruct (String.eqb k' k) eqn:E.
    + apply String.eqb_eq in E. subst k'.
      intros [[= <- <-]|H]; [left; reflexivity|right; right; exact H].
    + intros [H|H]; [right; left; exact H|].
      destruct (IH H) as [->|H']; [left; reflexivity|right; right; exact H'].
Qed.

(** ** JavaScript patterns and the entry point *)

Lemma map_flat_map {X Y Z : Type} (f : Y -> Z) (g : X -> list Y) (l : list X) :
  map f (flat_map g l) = flat_map (fun x => map f (g x)) l.
Proof.
  induction l as [|x l IH]; simpl; [reflexivity|].
  rewrite map_app, IH. reflexivity.
Qed.

Lemma flat_map_map {X Y Z : Type} (f : Y -> list Z) (g : X -> Y) (l : list X) :
  flat_map f (map g l) = flat_map (fun x => f (g x)) l.
Proof.
  induction l as [|x l IH]; simpl; [reflexivity|]. rewrite IH. reflexivity.
Qed.

Lemma existsb_map {X Y : Type} (p : Y -> bool) (g : X -> Y) (l : list X) :
  existsb p (map g l) = existsb (fun x => p (g x)) l.
Proof.
  induction l as [|x l IH]; simpl; [reflexivity|]. rewrite IH. reflexivity.
Qed.

Lemma fold_left_map {X Y Z : Type} (f : Z -> Y -> Z) (g : X -> Y) (l : list X) :
  forall a, fold_left f (map g l) a = fold_left (fun a x => f a (g x)) l a.
Proof. induction l as [|x l IH]; intros a; simpl; auto. Qed.

(** *** The matcher does not read the JavaScript patterns *)

Lemma match_patterns_erase (patterns : list Pattern.t) (t : Technology.t)
      (value : string) :
  _match_patterns patterns (erase_js t) value
  = map pm_erase_js (_match_patterns patterns t value).
Proof.
  unfold _match_patterns. rewrite map_flat_map. apply flat_map_ext.
  intros p. destruct (Re.search (Pattern.regex p) value); reflexivity.
Qed.

Lemma match_str_erase (t : Technology.t) (field value : string) :
  match_str (erase_js t) field value = map pm_erase_js (match_str t field value).
Proof.
  unfold match_str.
  replace (Technology.get_list (erase_js t) field)
    with (Technology.get_list t field); [apply match_patterns_erase|].
  unfold Technology.get_list.
  repeat match goal with |- context [String.eqb ?a ?b] =>
    destruct (String.eqb a b); try reflexivity end.
Qed.

Lemma match_list_erase (t : Technology.t) (field : string) (values : list string) :
  match_list (erase_js t) field values
  = map pm_erase_js (match_list t field values).
Proof.
  unfold match_list. rewrite map_flat_map. apply flat_map_ext. intros value.
  apply (match_str_erase t field value).
Qed.

Lemma match_pairs_erase (t : Technology.t) (field : string)
      (pairs : list (string * list string)) :
  String.eqb field "js" = false ->
  match_pairs (erase_js t) field pairs
  = map pm_erase_js (match_pairs t field pairs).
Proof.
  intros Hjs. unfold match_pairs.
  replace (Technology.get_pairs (erase_js t) field)
    with (Technology.get_pairs t field).
  - rewrite map_flat_map. apply flat_map_ext. intros [key patterns].
    rewrite map_flat_map. apply flat_map_ext. intros value.
    apply match_patterns_erase.
  - unfold Technology.get_pairs. rewrite Hjs.
    repeat match goal with |- context [String.eqb ?a ?b] =>
      destruct (String.eqb a b); try reflexivity end.
Qed.

Lemma when_str_blind (x : option string)
      (f : Technology.t -> string -> list PatternMatch.t) :
  (forall s, js_blind (fun t => f t s)) -> Forall js_blind (when_str x f).
Proof.
  intros H. destruct x as [[|c s]|]; simpl; constructor; auto.
Qed.

Lemma when_items_blind {A : Type} (x : option (list A))
      (f : Technology.t -> list A -> list PatternMatch.t) :
  (forall l, js_blind (fun t => f t l)) -> Forall js_blind (when_items x f).
Proof.
  intros H. destruct x as [[|a l]|]; simpl; constructor; auto.
Qed.

Lemma match_parts_erase (funcs : list (Technology.t -> list PatternMatch.t))
      (t : Technology.t) :
  Forall js_blind funcs ->
  match_parts (erase_js t) funcs = map pm_erase_js (match_parts t funcs).
Proof.
  intros H. unfold match_parts. rewrite map_flat_map.
  apply flat_map_ext_in. intros f Hf.
  rewrite Forall_forall in H. apply (H f Hf).
Qed.

Lemma match_all_erase (techs : list (string * Technology.t))
      (url html : option string) (scripts : option (list string))
      (cookies metas headers : option (list (string * list string))) :
  match_all (rules_erase_js techs) url html scripts cookies metas headers None
  = map pm_erase_js
        (match_all techs url html scripts cookies metas headers None).
Proof.
  unfold match_all, rules_erase_js.
  rewrite map_map. cbn [snd].
  rewrite <- (map_map snd erase_js), flat_map_map, map_flat_map.
  apply flat_map_ext. intros t. apply match_parts_erase.
  rewrite !Forall_app.
  split; [apply when_str_blind; intros s t'; apply match_str_erase|].
  split; [apply when_items_blind; intros l t';
          apply match_pairs_erase; reflexivity|].
  split; [apply when_items_blind; intros l t';
          apply match_pairs_erase; reflexivity|].
  split; [apply when_str_blind; intros s t'; apply match_str_erase|].
  split; [apply when_items_blind; intros l t';
          apply match_pairs_erase; reflexivity|].
  split; [apply when_items_blind; intros l t'; apply match_list_erase|].
  constructor.
Qed.

(** *** Sets and aggregation do not read them either *)

Lemma set_add_erase (s : list PatternMatch.t) (x : PatternMatch.t) :
  set_add (map pm_erase_js s) (pm_erase_js x) = map pm_erase_js (set_add s x).
Proof.
  unfold set_add. rewrite existsb_map.
  change (existsb _ s)
    with (existsb
            (fun y => PatternMatch.hash_eqb (PatternMatch.hash y) (PatternMatch.hash x)
                      && PatternMatch.eq y x) s).
  destruct (existsb _ s); [reflexivity|]. rewrite map_app. reflexivity.
Qed.

Lemma set_of_erase (l : list PatternMatch.t) :
  set_of (map pm_erase_js l) = map pm_erase_js (set_of l).
Proof.
  unfold set_of. change (@nil PatternMatch.t) with (map pm_erase_js []) at 1.
  generalize (@nil PatternMatch.t) as acc.
  induction l as [|x l IH]; intros acc; simpl; [reflexivity|].
  rewrite set_add_erase. apply IH.
Qed.

Lemma list_of_set_erase
      (set_order : list (string * string * string) -> list (string * string * string))
      (s : list PatternMatch.t) :
  list_of_set set_order (map pm_erase_js s)
  = map pm_erase_js (list_of_set set_order s).
Proof.
  unfold list_of_set. rewrite map_map, map_flat_map.
  apply flat_map_ext. intros h. apply filter_map_swap.
Qed.

Lemma first_hits_erase (l : list PatternMatch.t) :
  forall seen,
    first_hits seen (map pm_erase_js l) = map pm_erase_js (first_hits seen l).
Proof.
  induction l as [|pm l IH]; intros seen; simpl; [reflexivity|].
  change (pm_name (pm_erase_js pm)) with (pm_name pm).
  destruct (existsb _ seen); simpl; rewrite IH; reflexivity.
Qed.

Lemma aggregated_erase (pms : list PatternMatch.t) (pm : PatternMatch.t) :
  aggregated (map pm_erase_js pms) (pm_erase_js pm)
  = tm_erase_js (aggregated pms pm).
Proof.
  unfold aggregated, tm_erase_js. cbn [TechMatch.technology TechMatch.confidence
                                       TechMatch.version PatternMatch.technology
                                       pm_erase_js].
  change (pm_name (pm_erase_js pm)) with (pm_name pm).
  unfold hits. rewrite filter_map_swap, !fold_left_map. reflexivity.
Qed.

Lemma extract_techno_matches_erase (pms : list PatternMatch.t) :
  extract_techno_matches (map pm_erase_js pms)
  = map tm_erase_js (extract_techno_matches pms).
Proof.
  rewrite !extract_techno_matches_first_hits, first_hits_erase, !map_map.
  apply map_ext. intros pm. apply aggregated_erase.
Qed.

(** *** The resolvers look technologies up by name *)

Lemma get_erase (techs : list (string * Technology.t)) (key : string) :
  Py.get (rules_erase_js techs) key = option_map erase_js (Py.get techs key).
Proof.
  induction techs as [|[k t] techs IH]; simpl; [reflexivity|].
  destruct (String.eqb k key); [reflexivity|exact IH].
Qed.

Lemma comprehension_fmap {A B B' : Type} (f : A -> result B) (f' : A -> result B')
      (F : B -> B') (l : list A) :
  (forall x, f' x = fmap F (f x)) ->
  comprehension f' l = fmap (map F) (comprehension f l).
Proof.
  intros H. induction l as [|x l IH]; simpl; [reflexivity|].
  rewrite H, IH. destruct (f x); simpl; try reflexivity.
  destruct (comprehension f l); reflexivity.
Qed.

Lemma for_each_fmap {S S' A A' : Type} (body : S -> A -> result S)
      (body' : S' -> A' -> result S') (F : S -> S') (G : A -> A') (l : list A) :
  (forall s x, body' (F s) (G x) = fmap F (body s x)) ->
  forall s, for_each body' (F s) (map G l) = fmap F (for_each body s l).
Proof.
  intros H. induction l as [|x l IH]; intros s; simpl; [reflexivity|].
  rewrite H. destruct (body s x); simpl; auto.
Qed.

Lemma implied_erase (tm : TechMatch.t) (techs : list (string * Technology.t)) :
  implied (tm_erase_js tm) (rules_erase_js techs)
  = fmap (map tm_erase_js) (implied tm techs).
Proof.
  unfold implied. apply comprehension_fmap. intros imply.
  unfold getitem. rewrite get_erase.
  destruct (Py.get techs (Imply.name imply)); reflexivity.
Qed.

Lemma inner_erase (techs : list (string * Technology.t)) (fuel : nat) :
  forall impls tm,
    _resolve_implies_inner fuel (map tm_erase_js impls) (tm_erase_js tm)
                           (rules_erase_js techs)
    = fmap (map tm_erase_js) (_resolve_implies_inner fuel impls tm techs).
Proof.
  induction fuel as [|fuel IH]; intros impls tm; [reflexivity|].
  rewrite !inner_unfold.
  change (tm_name (tm_erase_js tm)) with (tm_name tm).
  unfold name_in. rewrite existsb_map.
  change (existsb _ impls) with (name_in (tm_name tm) impls).
  destruct (name_in (tm_name tm) impls); [reflexivity|].
  rewrite implied_erase.
  destruct (implied tm techs) as [implies| |]; try reflexivity.
  cbn [fmap bind].
  change (map tm_erase_js impls ++ [tm_erase_js tm])
    with (map tm_erase_js impls ++ map tm_erase_js [tm]).
  rewrite <- map_app. apply for_each_fmap. intros s x. apply IH.
Qed.

Lemma resolve_implies_erase (tms : list TechMatch.t)
      (techs : list (string * Technology.t)) :
  resolve_implies (map tm_erase_js tms) (rules_erase_js techs)
  = fmap (map tm_erase_js) (resolve_implies tms techs).
Proof.
  unfold resolve_implies, resolve_implies_fuel, rules_erase_js.
  rewrite length_map. fold (rules_erase_js techs).
  apply (for_each_fmap _ _ (map tm_erase_js) tm_erase_js tms) with (s := []).
  intros s x. apply inner_erase.
Qed.

Lemma not_excluded_erase (excludes : list string) (l : list TechMatch.t) :
  not_excluded excludes (map tm_erase_js l)
  = map tm_erase_js (not_excluded excludes l).
Proof. unfold not_excluded. rewrite filter_map_swap. reflexivity. Qed.

Lemma resolve_excludes_loop_erase (fuel : nat) :
  forall pool acc,
    resolve_excludes_loop fuel (map tm_erase_js pool) (map tm_erase_js acc)
    = fmap (map tm_erase_js) (resolve_excludes_loop fuel pool acc).
Proof.
  induction fuel as [|fuel IH]; intros [|x pool] acc; try reflexivity.
  cbn [map resolve_excludes_loop pop0].
  change (exclude_names (tm_erase_js x)) with (exclude_names x).
  rewrite not_excluded_erase.
  change (map tm_erase_js acc ++ [tm_erase_js x])
    with (map tm_erase_js acc ++ map tm_erase_js [x]).
  rewrite <- map_app. apply IH.
Qed.

Lemma resolve_excludes_erase (tms : list TechMatch.t) :
  resolve_excludes (map tm_erase_js tms)
  = fmap (map tm_erase_js) (resolve_excludes tms).
Proof.
  unfold resolve_excludes. rewrite length_map.
  apply (resolve_excludes_loop_erase (List.length tms) tms []).
Qed.

Lemma resolve_techno_matches_erase
      (set_order : list (string * string * string) -> list (string * string * string))
      (techs : list (string * Technology.t)) (pms : list PatternMatch.t) :
  resolve_techno_matches set_order (rules_erase_js techs) (map pm_erase_js pms)
  = fmap (map tm_erase_js) (resolve_techno_matches set_order techs pms).
Proof.
  unfold resolve_techno_matches.
  rewrite set_of_erase, list_of_set_erase, extract_techno_matches_erase,
          resolve_implies_erase.
  destruct (resolve_implies _ techs) as [tms| |]; try reflexivity.
  cbn [fmap bind]. rewrite resolve_excludes_erase.
  destruct (resolve_excludes tms); reflexivity.
Qed.

Lemma discover_technologies_erase
      (set_order : list (string * string * string) -> list (string * string * string))
      (techs : list (string * Technology.t))
      (url html : option string) (scripts : option (list string))
      (cookies metas headers : option (list (string * list string))) :
  discover_technologies set_order (rules_erase_js techs)
                        url html scripts cookies metas headers
  = fmap (map tm_erase_js)
         (discover_technologies set_order techs
                                url html scripts cookies metas headers).
Proof.
  unfold discover_technologies.
  rewrite match_all_erase. apply resolve_techno_matches_erase.
Qed.

Lemma fmap_fmap {A B C : Type} (f : A -> B) (g : B -> C) (r : result A) :
  fmap g (fmap f r) = fmap (fun a => g (f a)) r.
Proof. destruct r; reflexivity. Qed.

Lemma fmap_view_erase (r : result (list TechMatch.t)) :
  fmap (map tm_view) (fmap (map tm_erase_js) r) = fmap (map tm_view) r.
Proof.
  rewrite fmap_fmap. destruct r as [l| |]; try reflexivity.
  cbn [fmap bind]. rewrite map_map. reflexivity.
Qed.

(** C10.  [discover_technologies] has no parameter for JavaScript
    variables and calls [match_all] with none, so the JavaScript patterns
    of the rule set are never read: two rule sets that differ only in
    them give the same result, reported matches differing at most in the
    JavaScript patterns that their technology records carry. *)
Theorem discover_technologies_ignores_js
        (set_order : list (string * string * string) -> list (string * string * string))
        (techs techs' : list (string * Technology.t))
        (url html : option string) (scripts : option (list string))
        (cookies metas headers : option (list (string * list string))) :
  rules_erase_js techs = rules_erase_js techs' ->
  discover_technologies set_order techs url html scripts cookies metas headers
  = resolve_techno_matches set_order techs
      (match_all techs url html scripts cookies metas headers None)
  /\ fmap (map tm_erase_js)
          (discover_technologies set_order techs
                                 url html scripts cookies metas headers)
     = fmap (map tm_erase_js)
            (discover_technologies set_order techs'
                                   url html scripts cookies metas headers)
  /\ fmap (map tm_view)
          (discover_technologies set_order techs
                                 url html scripts cookies metas headers)
     = fmap (map tm_view)
            (discover_technologies set_order techs'
                                   url html scripts cookies metas headers).
Proof.
  intros E. split; [reflexivity|].
  assert (H : fmap (map tm_erase_js)
                   (discover_technologies set_order techs
                                          url html scripts cookies metas headers)
              = fmap (map tm_erase_js)
                     (discover_technologies set_order techs'
                                            url html scripts cookies metas headers)).
  { rewrite <- !discover_technologies_erase, E. reflexivity. }
  split; [exact H|].
  rewrite <- (fmap_view_erase (discover_technologies set_order techs _ _ _ _ _ _)),
          <- (fmap_view_erase (discover_technologies set_order techs' _ _ _ _ _ _)),
          H.
  reflexivity.
Qed.

Lemma discover_technologies_ignores_js_witness :
  fmap (map tm_view)
       (discover_technologies (fun hashes => hashes) SampleSignals.rules_a
                              (Some "https://shop.example") None None None None None)
  = fmap (map tm_view)
         (discover_technologies (fun hashes => hashes) SampleSignals.rules_b
                                (Some "https://shop.example") None None None None None).
Proof.
  apply (proj2 (proj2 (discover_technologies_ignores_js
                         (fun hashes => hashes)
                         SampleSignals.rules_a SampleSignals.rules_b
                         (Some "https://shop.example") None None None None None
                         eq_refl))).
Defined.

(** What the entry point reports on that sample. *)
Example discover_technologies_sample :
  fmap (map tm_view)
       (discover_technologies (fun hashes => hashes) SampleSignals.rules_b
                              (Some "https://shop.example") None None None None None)
  = Ok [("Shop", 70%Z, EmptyString)].
Proof. reflexivity. Qed.

(** * Further properties of the engine *)

(** ** Sets keep the first match of every tuple *)

Lemma set_add_cons_same (acc : list PatternMatch.t) (x y : PatternMatch.t) :
  PatternMatch.hash y = PatternMatch.hash x ->
  set_add (x :: acc) y = x :: acc.
Proof.
  intros Hh. apply (set_add_same_tuple (x :: acc) y x); [left; reflexivity|].
  symmetry. exact Hh.
Qed.

Lemma set_add_cons_other (acc : list PatternMatch.t) (x y : PatternMatch.t) :
  PatternMatch.hash_eqb (PatternMatch.hash y) (PatternMatch.hash x) = false ->
  set_add (x :: acc) y = x :: set_add acc y.
Proof.
  intros Hh. unfold set_add. cbn [existsb].
  replace (PatternMatch.hash_eqb (PatternMatch.hash x) (PatternMatch.hash y))
    with false.
  - cbn [andb orb]. destruct (existsb _ acc); reflexivity.
  - symmetry. destruct (PatternMatch.hash_eqb (PatternMatch.hash x)
                                              (PatternMatch.hash y)) eqn:E;
      [|reflexivity].
    apply hash_eqb_eq in E. rewrite E in Hh.
    assert (H : PatternMatch.hash_eqb (PatternMatch.hash y) (PatternMatch.hash y)
                = true) by (apply hash_eqb_eq; reflexivity).
    congruence.
Qed.

Lemma set_fold_cons (l : list PatternMatch.t) (x : PatternMatch.t) :
  forall acc,
    fold_left set_add l (x :: acc)
    = x :: fold_left set_add
             (filter (fun y => negb (PatternMatch.hash_eqb (PatternMatch.hash y)
                                                           (PatternMatch.hash x)))
                     l)
             acc.
Proof.
  induction l as [|y l IH]; intros acc; [reflexivity|].
  cbn [fold_left filter].
  destruct (PatternMatch.hash_eqb (PatternMatch.hash y) (PatternMatch.hash x)) eqn:E.
  - apply hash_eqb_eq in E. rewrite (set_add_cons_same acc x y E). apply IH.
  - rewrite (set_add_cons_other acc x y E). cbn [negb fold_left]. apply IH.
Qed.

(** X1.  [set(pattern_matches)] keeps, for every tuple (technology name,
    pattern key, pattern value), the first match that was yielded and drops
    the later ones, whatever their version: the set starts with the first
    match, followed by the set of the later matches with another tuple; and
    no two of its members share a tuple. *)
Theorem set_of_keeps_first :
  set_of [] = []
  /\ (forall x l,
         set_of (x :: l)
         = x :: set_of
                  (filter
                     (fun y => negb (PatternMatch.hash_eqb (PatternMatch.hash y)
                                                           (PatternMatch.hash x)))
                     l))
  /\ (forall l, NoDup (map PatternMatch.hash (set_of l))).
Proof.
  split; [reflexivity|]. split; [|exact set_of_NoDup].
  intros x l. unfold set_of. cbn [fold_left].
  change (set_add [] x) with [x]. apply set_fold_cons.
Qed.

(** ** What the aggregator reports *)

Lemma first_hits_names (l : list PatternMatch.t) :
  forall seen n,
    In n (map pm_name (first_hits seen l))
    <-> In n (map pm_name l) /\ existsb (fun s => String.eqb s n) seen = false.
Proof.
  induction l as [|pm l IH]; intros seen n; cbn [first_hits map].
  - simpl. tauto.
  - destruct (existsb (fun s => String.eqb s (pm_name pm)) seen) eqn:E.
    + rewrite IH. simpl. split; [tauto|].
      intros [[<-|H] Hn]; [congruence|tauto].
    + cbn [map]. simpl. rewrite IH, existsb_app. simpl.
      rewrite orb_false_r, orb_false_iff, String.eqb_neq. split.
      * intros [<-|[H [Hs Hne]]]; [split; [left; reflexivity|exact E]|tauto].
      * intros [[H|H] Hs]; [left; exact H|].
        destruct (String.eqb (pm_name pm) n) eqn:En.
        -- left. apply String.eqb_eq. exact En.
        -- right. apply String.eqb_neq in En. tauto.
Qed.

Lemma first_hits_NoDup (l : list PatternMatch.t) :
  forall seen, NoDup (map pm_name (first_hits seen l)).
Proof.
  induction l as [|pm l IH]; intros seen; cbn [first_hits map]; [constructor|].
  destruct (existsb (fun s => String.eqb s (pm_name pm)) seen); [apply IH|].
  cbn [map]. constructor; [|apply IH].
  rewrite first_hits_names, existsb_app. simpl.
  rewrite String.eqb_refl, orb_true_r. intros [_ H]. discriminate.
Qed.

Lemma first_hits_incl (l : list PatternMatch.t) :
  forall seen, incl (first_hits seen l) l.
Proof.
  induction l as [|pm l IH]; intros seen x; cbn [first_hits]; [tauto|].
  destruct (existsb _ seen).
  - intros H. right. apply (IH _ _ H).
  - intros [<-|H]; [left; reflexivity|right; apply (IH _ _ H)].
Qed.

Lemma extract_names (pms : list PatternMatch.t) :
  map tm_name (extract_techno_matches pms) = map pm_name (first_hits [] pms).
Proof.
  rewrite extract_techno_matches_first_hits, map_map. reflexivity.
Qed.

(** X2.  [extract_techno_matches] reports the technologies of its input
    and no other, each once; the first reported match is for the technology
    of the first pattern match; and nothing is reported for no input. *)
Theorem extract_techno_matches_names (pms : list PatternMatch.t) :
  extract_techno_matches [] = []
  /\ NoDup (map tm_name (extract_techno_matches pms))
  /\ (forall n,
         In n (map tm_name (extract_techno_matches pms))
         <-> In n (map pm_name pms))
  /\ (forall pm l,
         pms = pm :: l ->
         exists tm rest,
           extract_techno_matches pms = tm :: rest
           /\ TechMatch.technology tm = PatternMatch.technology pm).
Proof.
  split; [reflexivity|]. split; [|split].
  - rewrite extract_names. apply first_hits_NoDup.
  - intros n. rewrite extract_names, first_hits_names. simpl. tauto.
  - intros pm l ->. rewrite extract_techno_matches_first_hits.
    cbn [first_hits existsb map]. eexists. eexists. split; reflexivity.
Qed.

Lemma extract_techno_matches_names_witness :
  exists tm rest,
    extract_techno_matches SampleAggregate.versions = tm :: rest
    /\ TechMatch.technology tm = SampleAggregate.shop.
Proof.
  apply (proj2 (proj2 (proj2 (extract_techno_matches_names
                                SampleAggregate.versions)))
               (SampleAggregate.pm "a" 40 "1.2")
               (tl SampleAggregate.versions)).
  reflexivity.
Defined.

(** ** Bounds on the reported confidence *)

Lemma clamp_add_le (l : list PatternMatch.t) :
  forall c, (c <= 100)%Z -> (fold_left clamp_add l c <= 100)%Z.
Proof.
  induction l as [|pm l IH]; intros c Hc; simpl; [exact Hc|].
  apply IH. unfold clamp_add. lia.
Qed.

Lemma clamp_add_ge (l : list PatternMatch.t) :
  (forall pm, In pm l -> (0 <= pm_confidence pm)%Z) ->
  forall c, (0 <= c)%Z -> (0 <= fold_left clamp_add l c)%Z.
Proof.
  induction l as [|pm l IH]; intros Hpos c Hc; simpl; [exact Hc|].
  apply IH; [intros q Hq; apply Hpos; right; exact Hq|].
  assert (0 <= pm_confidence pm)%Z by (apply Hpos; left; reflexivity).
  unfold clamp_add. lia.
Qed.

Lemma set_of_incl (l : list PatternMatch.t) : incl (set_of l) l.
Proof.
  unfold set_of.
  assert (H : forall acc x,
             In x (fold_left set_add l acc) -> In x acc \/ In x l).
  { induction l as [|y l IH]; intros acc x Hx; simpl in Hx; [left; exact Hx|].
    destruct (IH _ _ Hx) as [H|H]; [|right; right; exact H].
    unfold set_add in H. destruct (existsb _ acc); [left; exact H|].
    apply in_app_or in H. destruct H as [H|[<-|[]]]; [left; exact H|].
    right. left. reflexivity. }
  intros x Hx. destruct (H [] x Hx) as [[]|Hl]. exact Hl.
Qed.

Lemma list_of_set_incl
      (set_order : list (string * string * string) -> list (string * string * string))
      (s : list PatternMatch.t) :
  incl (list_of_set set_order s) s.
Proof.
  intros x Hx. unfold list_of_set in Hx. apply in_flat_map in Hx.
  destruct Hx as [h [_ Hx]]. apply filter_In in Hx. tauto.
Qed.

(** A property of the inputs that every derivation step keeps holds for
    all the recorded matches. *)
Lemma all_justified_all (techs : list (string * Technology.t))
      (inputs l : list TechMatch.t) (Q : TechMatch.t -> Prop) :
  (forall tm, In tm inputs -> Q tm) ->
  (forall parent tm, Q parent -> implied_by techs parent tm -> Q tm) ->
  all_justified techs inputs l ->
  forall tm, In tm l -> Q tm.
Proof.
  intros Hin Hstep Hall. induction Hall as [|l tm' Hall IH Hj]; intros tm Htm.
  - destruct Htm.
  - apply in_app_or in Htm. destruct Htm as [Htm|[<-|[]]]; [apply IH; exact Htm|].
    destruct Hj as [Hi|[parent [Hp Himp]]]; [apply Hin; exact Hi|].
    apply (Hstep parent); [apply IH; exact Hp|exact Himp].
Qed.

(** X3.  No match reported by [resolve_techno_matches] has a confidence
    above 100.  None has a negative confidence either, provided no pattern
    of the input and no [Imply] of the technologies involved declares a
    negative confidence. *)
Theorem reported_confidence_bounds
        (set_order : list (string * string * string) -> list (string * string * string))
        (techs : list (string * Technology.t)) (pms : list PatternMatch.t)
        (out : list TechMatch.t) :
  resolve_techno_matches set_order techs pms = Ok out ->
  (forall tm, In tm out -> (TechMatch.confidence tm <= 100)%Z)
  /\ ((forall pm, In pm pms -> (0 <= pm_confidence pm)%Z) ->
      (forall pm i,
          In pm pms -> In i (Technology.implies (PatternMatch.technology pm)) ->
          (0 <= Imply.confidence i)%Z) ->
      (forall k t i,
          In (k, t) techs -> In i (Technology.implies t) ->
          (0 <= Imply.confidence i)%Z) ->
      forall tm, In tm out -> (0 <= TechMatch.confidence tm)%Z).
Proof.
  unfold resolve_techno_matches. intros E.
  set (listed := list_of_set set_order (set_of pms)) in E.
  assert (Hlisted : incl listed pms).
  { intros x Hx. apply set_of_incl. apply (list_of_set_incl _ _ _ Hx). }
  destruct (resolve_implies (extract_techno_matches listed) techs)
    as [impls| |] eqn:Ei; cbn [bind] in E; try discriminate.
  pose proof (resolve_implies_justified _ _ _ Ei) as Hall.
  pose proof (resolve_excludes_incl _ _ E) as Hout.
  assert (Hagg : forall tm, In tm (extract_techno_matches listed) ->
                            exists pm0, In pm0 listed /\ tm = aggregated listed pm0).
  { intros tm Htm. rewrite extract_techno_matches_first_hits in Htm.
    apply in_map_iff in Htm. destruct Htm as [pm0 [<- H0]].
    exists pm0. split; [apply (first_hits_incl _ _ _ H0)|reflexivity]. }
  split.
  - intros tm Htm. apply Hout in Htm.
    refine (all_justified_all techs _ impls
              (fun tm => (TechMatch.confidence tm <= 100)%Z) _ _ Hall tm Htm).
    + intros x Hx. destruct (Hagg x Hx) as [pm0 [_ ->]].
      apply clamp_add_le. lia.
    + intros parent x Hp [i [_ [_ [Hc _]]]]. rewrite Hc. lia.
  - intros Hpos Hpm Hrules tm Htm. apply Hout in Htm.
    refine (proj1 (all_justified_all techs _ impls
             (fun tm => (0 <= TechMatch.confidence tm)%Z
                        /\ forall i,
                             In i (Technology.implies (TechMatch.technology tm)) ->
                             (0 <= Imply.confidence i)%Z)
              _ _ Hall tm Htm)).
    + intros x Hx. destruct (Hagg x Hx) as [pm0 [H0 ->]]. split.
      * apply clamp_add_ge; [|lia]. intros q Hq.
        apply Hpos, Hlisted. apply (hits_name _ _ _ Hq).
      * intros i Hi. apply (Hpm pm0 i); [apply Hlisted; exact H0|exact Hi].
    + intros parent x [Hp Hpi] [i [Hi [Hg [Hc _]]]]. split.
      * rewrite Hc. specialize (Hpi i Hi). lia.
      * intros j Hj. destruct (get_In _ _ _ Hg) as [k Hk].
        apply (Hrules k _ j Hk Hj).
Qed.

Lemma reported_confidence_bounds_witness :
  Forall (fun tm => (TechMatch.confidence tm <= 100)%Z)
         [Sample.hit SampleCookies.shop 60 EmptyString].
Proof.
  apply Forall_forall.
  apply (proj1 (reported_confidence_bounds
                  (fun hashes => hashes) []
                  (match_cookies SampleCookies.shop [("SID", ["a"; "b"])])
                  [Sample.hit SampleCookies.shop 60 EmptyString] eq_refl)).
Defined.

(** ** What the exclusion resolver leaves *)

Lemma not_excluded_all (excludes : list string) (l : list TechMatch.t) :
  (forall y, In y l -> Py.mem (tm_name y) excludes = false) ->
  not_excluded excludes l = l.
Proof.
  intros H. induction l as [|y l IH]; [reflexivity|].
  unfold not_excluded in *. cbn [filter]. fold (tm_name y).
  rewrite (H y (or_introl eq_refl)). cbn [negb]. f_equal.
  apply IH. intros z Hz. apply H. right. exact Hz.
Qed.

Lemma resolve_excludes_compatible (l : list TechMatch.t) :
  compatible l -> resolve_excludes l = Ok l.
Proof.
  induction l as [|x l IH]; intros Hc; [reflexivity|].
  destruct Hc as [Hx Hl].
  rewrite resolve_excludes_cons, (not_excluded_all _ _ Hx), (IH Hl).
  reflexivity.
Qed.

Lemma resolve_excludes_gives_compatible (l out : list TechMatch.t) :
  resolve_excludes l = Ok out -> compatible out.
Proof.
  revert l out. apply resolve_excludes_ind; [exact I|].
  intros x l out E IH. split; [|exact IH].
  intros y Hy. apply (resolve_excludes_incl _ _ E), not_excluded_In in Hy.
  apply Hy.
Qed.

(** X4.  In the output of [resolve_excludes] no match excludes a match
    that comes after it; a list that already has this property is returned
    as it is, so resolving the exclusions of an output again changes
    nothing. *)
Theorem resolve_excludes_settles (l out : list TechMatch.t) :
  resolve_excludes l = Ok out ->
  compatible out
  /\ incl out l
  /\ resolve_excludes out = Ok out
  /\ (compatible l -> out = l).
Proof.
  intros E. pose proof (resolve_excludes_gives_compatible _ _ E) as Hc.
  split; [exact Hc|]. split; [apply (resolve_excludes_incl _ _ E)|].
  split; [apply resolve_excludes_compatible; exact Hc|].
  intros Hl. rewrite (resolve_excludes_compatible _ Hl) in E.
  injection E as <-. reflexivity.
Qed.

Lemma resolve_excludes_settles_witness :
  compatible [SampleExcludes.C; SampleExcludes.B]
  /\ incl [SampleExcludes.C; SampleExcludes.B]
          [SampleExcludes.C; SampleExcludes.A; SampleExcludes.B]
  /\ resolve_excludes [SampleExcludes.C; SampleExcludes.B]
     = Ok [SampleExcludes.C; SampleExcludes.B]
  /\ (compatible [SampleExcludes.C; SampleExcludes.A; SampleExcludes.B] ->
      [SampleExcludes.C; SampleExcludes.B]
      = [SampleExcludes.C; SampleExcludes.A; SampleExcludes.B]).
Proof.
  apply (resolve_excludes_settles
           [SampleExcludes.C; SampleExcludes.A; SampleExcludes.B]
           [SampleExcludes.C; SampleExcludes.B]).
  reflexivity.
Defined.

(** ** What the implication resolver records *)

(** A loop invariant that knows which elements were already handled. *)
Lemma for_each_trace {S A : Type} (body : S -> A -> result S)
      (P : list A -> S -> Prop) (l : list A) :
  (forall done x s s',
      P done s -> body s x = Ok s' -> P (done ++ [x]) s') ->
  forall s s', P [] s -> for_each body s l = Ok s' -> P l s'.
Proof.
  intros Hbody.
  assert (H : forall rest done s s',
             P done s -> for_each body s rest = Ok s' -> P (done ++ rest) s').
  { induction rest as [|x rest IH]; intros done s s' Hs E; simpl in E.
    - injection E as <-. rewrite app_nil_r. exact Hs.
    - destruct (body s x) as [s1| |] eqn:Eb; simpl in E; try discriminate.
      change (x :: rest) with ([x] ++ rest). rewrite app_assoc.
      apply (IH (done ++ [x]) s1); [|exact E].
      apply (Hbody done x s s1 Hs Eb). }
  intros s s' Hs E. apply (H l [] s s' Hs E).
Qed.

Lemma comprehension_all {A B : Type} (f : A -> result B) (l : list A) :
  forall ys,
    comprehension f l = Ok ys ->
    forall x, In x l -> exists y, In y ys /\ f x = Ok y.
Proof.
  induction l as [|a l IH]; intros ys E x Hx; [destruct Hx|].
  simpl in E. destruct (f a) as [b| |] eqn:Ef; simpl in E; try discriminate.
  destruct (comprehension f l) as [bs| |] eqn:Ec; simpl in E; try discriminate.
  injection E as <-. destruct Hx as [<-|Hx].
  - exists b. split; [left; reflexivity|exact Ef].
  - destruct (IH bs eq_refl x Hx) as [y [Hy Ey]].
    exists y. split; [right; exact Hy|exact Ey].
Qed.

Lemma closed_app (techs : list (string * Technology.t))
      (out ext : list TechMatch.t) (y : TechMatch.t) :
  closed techs out y -> closed techs (out ++ ext) y.
Proof.
  intros H imply Hi. destruct (H imply Hi) as [t [Hg Hn]].
  exists t. split; [exact Hg|]. rewrite name_in_app, Hn. reflexivity.
Qed.

(** After a visit the technology is recorded, and every match that the
    visit added has all its implied technologies recorded. *)
Lemma inner_closed (techs : list (string * Technology.t)) (fuel : nat) :
  forall impls tm impls',
    _resolve_implies_inner fuel impls tm techs = Ok impls' ->
    name_in (tm_name tm) impls' = true
    /\ forall y, In y impls' -> In y impls \/ closed techs impls' y.
Proof.
  induction fuel as [|fuel IH]; intros impls tm impls' E; [discriminate|].
  rewrite inner_unfold in E. destruct (name_in (tm_name tm) impls) eqn:Hin.
  - injection E as <-. split; [exact Hin|]. intros y Hy. left. exact Hy.
  - destruct (implied tm techs) as [implies| |] eqn:Ei; simpl in E;
      try discriminate.
    pose proof
      (for_each_trace (fun s x => _resolve_implies_inner fuel s x techs)
         (fun done s =>
            (exists ext, s = (impls ++ [tm]) ++ ext)
            /\ (forall x, In x done -> name_in (tm_name x) s = true)
            /\ (forall y, In y s -> In y (impls ++ [tm]) \/ closed techs s y))
         implies) as Htrace.
    destruct (Htrace) with (s := impls ++ [tm]) (s' := impls')
      as [[ext Hext] [Hdone Hclosed]]; [| |exact E|].
    + intros done x s s' [[ext ->] [Hd Hc]] Ex.
      destruct (IH _ _ _ Ex) as [Hx Hnew].
      destruct (inner_prefix _ _ _ _ _ Ex) as [ext' ->].
      split; [exists (ext ++ ext'); apply eq_sym, app_assoc|]. split.
      * intros z Hz. apply in_app_or in Hz. destruct Hz as [Hz|[<-|[]]].
        -- rewrite name_in_app, (Hd z Hz). reflexivity.
        -- exact Hx.
      * intros y Hy. destruct (Hnew y Hy) as [Hold|Hcl]; [|right; exact Hcl].
        destruct (Hc y Hold) as [H0|Hcl]; [left; exact H0|right].
        apply closed_app. exact Hcl.
    + split; [exists []; symmetry; apply app_nil_r|]. split.
      * intros x [].
      * intros y Hy. left. exact Hy.
    + split.
      * rewrite Hext, <- app_assoc, name_in_app, name_in_app. simpl.
        unfold tm_name at 1. rewrite String.eqb_refl, orb_true_r. reflexivity.
      * intros y Hy. destruct (Hclosed y Hy) as [H0|Hcl]; [|right; exact Hcl].
        apply in_app_or in H0. destruct H0 as [H0|[<-|[]]]; [left; exact H0|].
        right. intros imply Hi. unfold implied in Ei.
        destruct (comprehension_all _ _ _ Ei imply Hi) as [x [Hx Ex]].
        unfold getitem in Ex.
        destruct (Py.get techs (Imply.name imply)) as [t|] eqn:Eg; simpl in Ex;
          [|discriminate].
        injection Ex as <-. exists t. split; [reflexivity|].
        apply (Hdone _ Hx).
Qed.

(** X5.  The output of [resolve_implies] is closed under implication:
    every input technology is recorded, and for every recorded match each
    [Imply] of its technology names a technology of the rule set that is
    recorded too. *)
Theorem resolve_implies_closed (tms : list TechMatch.t)
        (techs : list (string * Technology.t)) (out : list TechMatch.t) :
  resolve_implies tms techs = Ok out ->
  (forall tm, In tm tms -> In (tm_name tm) (map tm_name out))
  /\ (forall y imply,
         In y out ->
         In imply (Technology.implies (TechMatch.technology y)) ->
         exists t,
           Py.get techs (Imply.name imply) = Some t
           /\ In (Technology.name t) (map tm_name out)).
Proof.
  intros E. unfold resolve_implies, resolve_implies_fuel in E.
  pose proof
    (for_each_trace
       (fun s x => _resolve_implies_inner (2 + List.length techs) s x techs)
       (fun done s =>
          (forall x, In x done -> name_in (tm_name x) s = true)
          /\ (forall y, In y s -> closed techs s y))
       tms) as Htrace.
  destruct (Htrace) with (s := @nil TechMatch.t) (s' := out)
    as [Hdone Hclosed]; [| |exact E|].
  - intros done x s s' [Hd Hc] Ex.
    destruct (inner_closed _ _ _ _ _ Ex) as [Hx Hnew].
    destruct (inner_prefix _ _ _ _ _ Ex) as [ext ->]. split.
    + intros z Hz. apply in_app_or in Hz. destruct Hz as [Hz|[<-|[]]].
      * rewrite name_in_app, (Hd z Hz). reflexivity.
      * exact Hx.
    + intros y Hy. destruct (Hnew y Hy) as [Hold|Hcl]; [|exact Hcl].
      apply closed_app, Hc, Hold.
  - split; [intros x []|intros y []].
  - split.
    + intros tm Htm. apply name_in_In, Hdone, Htm.
    + intros y imply Hy Hi. destruct (Hclosed y Hy imply Hi) as [t [Hg Hn]].
      exists t. split; [exact Hg|apply name_in_In; exact Hn].
Qed.

Lemma resolve_implies_closed_witness :
  (forall tm,
      In tm [Sample.hit SampleImplies.A 80 "1.0"] ->
      In (tm_name tm)
         (map tm_name [Sample.hit SampleImplies.A 80 "1.0";
                       Sample.hit SampleImplies.B 50 EmptyString]))
  /\ (forall y imply,
         In y [Sample.hit SampleImplies.A 80 "1.0";
               Sample.hit SampleImplies.B 50 EmptyString] ->
         In imply (Technology.implies (TechMatch.technology y)) ->
         exists t,
           Py.get SampleImplies.cyclic (Imply.name imply) = Some t
           /\ In (Technology.name t)
                 (map tm_name [Sample.hit SampleImplies.A 80 "1.0";
                               Sample.hit SampleImplies.B 50 EmptyString])).
Proof.
  apply (resolve_implies_closed
           [Sample.hit SampleImplies.A 80 "1.0"] SampleImplies.cyclic).
  reflexivity.
Defined.

(** X6.  An input match whose technology is already recorded when its
    turn comes, because an earlier input has the same technology or implies
    it, is dropped with its confidence and its version: the result is that
    of the input without it. *)
Theorem resolve_implies_drops_recorded (pre post : list TechMatch.t)
        (b : TechMatch.t) (techs : list (string * Technology.t))
        (out : list TechMatch.t) :
  resolve_implies pre techs = Ok out ->
  In (tm_name b) (map tm_name out) ->
  resolve_implies (pre ++ b :: post) techs = resolve_implies (pre ++ post) techs.
Proof.
  unfold resolve_implies, resolve_implies_fuel. intros E Hin.
  rewrite !for_each_app, E. cbn [bind for_each Nat.add].
  rewrite inner_unfold. apply name_in_In in Hin. rewrite Hin. reflexivity.
Qed.

Lemma resolve_implies_drops_recorded_witness :
  resolve_implies ([Sample.hit SampleImplies.A 80 "1.0"]
                     ++ Sample.hit SampleImplies.B 100 "2.4" :: [])
                  SampleImplies.cyclic
  = resolve_implies ([Sample.hit SampleImplies.A 80 "1.0"] ++ [])
                    SampleImplies.cyclic.
Proof.
  apply (resolve_implies_drops_recorded
           [Sample.hit SampleImplies.A 80 "1.0"] []
           (Sample.hit SampleImplies.B 100 "2.4") SampleImplies.cyclic
           [Sample.hit SampleImplies.A 80 "1.0";
            Sample.hit SampleImplies.B 50 EmptyString]).
  - reflexivity.
  - simpl. right. left. reflexivity.
Defined.

(** ** What the matcher reports *)

Lemma match_patterns_In (patterns : list Pattern.t) (t : Technology.t)
      (value : string) (pm : PatternMatch.t) :
  In pm (_match_patterns patterns t value) ->
  PatternMatch.technology pm = t
  /\ In (PatternMatch.pattern pm) patterns
  /\ Re.search (Pattern.regex (PatternMatch.pattern pm)) value <> None
  /\ PatternMatch.version pm
     = _resolve_version (Pattern.version (PatternMatch.pattern pm))
                        (Pattern.regex (PatternMatch.pattern pm)) value.
Proof.
  unfold _match_patterns. rewrite in_flat_map. intros [p [Hp Hpm]].
  destruct (Re.search (Pattern.regex p) value) eqn:E; [|destruct Hpm].
  destruct Hpm as [<-|[]]. cbn. rewrite E. repeat split; auto. discriminate.
Qed.

Lemma get_list_declares (t : Technology.t) (field : string) (p : Pattern.t) :
  In p (Technology.get_list t field) -> declares t p.
Proof.
  unfold Technology.get_list, declares.
  destruct (String.eqb field "url"); [tauto|].
  destruct (String.eqb field "html"); [tauto|].
  destruct (String.eqb field "scripts"); [tauto|intros []].
Qed.

Lemma sound_matcher_incl (values values' : list string)
      (f : Technology.t -> list PatternMatch.t) :
  incl values values' -> sound_matcher values f -> sound_matcher values' f.
Proof.
  intros Hincl Hf t pm Hpm. destruct (Hf t pm Hpm) as [Ht [Hd [v [Hv Hs]]]].
  split; [exact Ht|]. split; [exact Hd|]. exists v. split; [|exact Hs].
  apply Hincl, Hv.
Qed.

Lemma match_str_sound (field value : string) :
  sound_matcher [value] (fun t => match_str t field value).
Proof.
  intros t pm Hpm. unfold match_str in Hpm.
  apply match_patterns_In in Hpm. destruct Hpm as [Ht [Hp [Hs Hv]]].
  split; [exact Ht|]. split; [apply (get_list_declares t field); exact Hp|].
  exists value. split; [left; reflexivity|]. split; assumption.
Qed.

Lemma match_list_sound (field : string) (values : list string) :
  sound_matcher values (fun t => match_list t field values).
Proof.
  intros t pm Hpm. unfold match_list in Hpm. apply in_flat_map in Hpm.
  destruct Hpm as [value [Hin Hpm]].
  destruct (match_str_sound field value t pm Hpm) as [Ht [Hd [v [[<-|[]] Hs]]]].
  split; [exact Ht|]. split; [exact Hd|]. exists value. split; assumption.
Qed.

Lemma get_In_key {V : Type} (d : list (string * V)) (key : string) (v : V) :
  Py.get d key = Some v -> In (key, v) d.
Proof.
  induction d as [|[k w] d IH]; simpl; [discriminate|].
  destruct (String.eqb k key) eqn:E.
  - apply String.eqb_eq in E. subst k. intros [= ->]. left. reflexivity.
  - intros H. right. apply IH, H.
Qed.

Lemma set_In_inv {V : Type} (d : list (string * V)) (k : string) (v : V)
      (n : string) (w : V) :
  In (n, w) (Py.set d k v) -> (n = k /\ w = v) \/ In (n, w) d.
Proof.
  induction d as [|[k' v'] d IH]; simpl.
  - intros [[= <- <-]|[]]. left. split; reflexivity.
  - destruct (String.eqb k' k) eqn:E.
    + apply String.eqb_eq in E. subst k'.
      intros [[= <- <-]|H]; [left; split; reflexivity|right; right; exact H].
    + intros [H|H]; [right; left; exact H|].
      destruct (IH H) as [H'|H']; [left; exact H'|right; right; exact H'].
Qed.

(** Every entry of the lower-cased copy holds the values of a supplied key
    with that lower case. *)
Lemma lower_keys_origin (pairs : list (string * list string))
      (n : string) (vs : list string) :
  In (n, vs) (lower_keys pairs) ->
  exists s, Py.get pairs s = Some vs /\ Py.lower s = n.
Proof.
  unfold lower_keys.
  assert (H : forall ks acc,
             (forall n vs, In (n, vs) acc ->
                           exists s, Py.get pairs s = Some vs /\ Py.lower s = n) ->
             forall n vs,
               In (n, vs)
                  (fold_left
                     (fun pairs_local k =>
                        match Py.get pairs k with
                        | Some v => Py.set pairs_local (Py.lower k) v
                        | None => pairs_local
                        end) ks acc) ->
               exists s, Py.get pairs s = Some vs /\ Py.lower s = n).
  { induction ks as [|k ks IH]; intros acc Hacc n' vs' Hin; simpl in Hin.
    - apply (Hacc n' vs' Hin).
    - refine (IH _ _ n' vs' Hin). intros n0 vs0 Hin0.
      destruct (Py.get pairs k) as [v|] eqn:Eg; [|apply (Hacc n0 vs0 Hin0)].
      apply set_In_inv in Hin0. destruct Hin0 as [[-> ->]|Hin0].
      + exists k. split; [exact Eg|reflexivity].
      + apply (Hacc n0 vs0 Hin0). }
  apply (H (map fst pairs) []). intros n' vs' [].
Qed.

Lemma match_pairs_sound (field : string) (pairs : list (string * list string)) :
  sound_matcher (flat_map snd pairs) (fun t => match_pairs t field pairs).
Proof.
  intros t pm Hpm. unfold match_pairs in Hpm. apply in_flat_map in Hpm.
  destruct Hpm as [[key patterns] [Hk Hpm]]. apply in_flat_map in Hpm.
  destruct Hpm as [value [Hvalue Hpm]]. apply match_patterns_In in Hpm.
  destruct Hpm as [Ht [Hp [Hs Hv]]]. split; [exact Ht|]. split.
  - right. right. right. exists field, key, patterns. split; assumption.
  - exists value. split; [|split; assumption].
    apply in_flat_map.
    destruct (Py.get (if Py.mem field ["cookies"] then lower_keys pairs else pairs)
                     key) as [vs|] eqn:Eg; [|destruct Hvalue].
    destruct (get_In _ _ _ Eg) as [k' Hk'].
    destruct (Py.mem field ["cookies"]).
    + apply get_In_key in Eg.
      destruct (lower_keys_origin pairs key vs Eg) as [s [Hs' _]].
      exists (s, vs). split; [apply get_In_key, Hs'|assumption].
    + exists (k', vs). split; assumption.
Qed.

Lemma when_str_sound (x : option string)
      (f : Technology.t -> string -> list PatternMatch.t) :
  (forall s, sound_matcher [s] (fun t => f t s)) ->
  Forall (sound_matcher match x with Some s => [s] | None => [] end)
         (when_str x f).
Proof.
  intros H. destruct x as [[|c s]|]; simpl; constructor; auto.
Qed.

Lemma when_items_sound {A : Type} (x : option (list A))
      (values : list A -> list string)
      (f : Technology.t -> list A -> list PatternMatch.t) :
  (forall l, sound_matcher (values l) (fun t => f t l)) ->
  Forall (sound_matcher match x with Some l => values l | None => [] end)
         (when_items x f).
Proof.
  intros H. destruct x as [[|a l]|]; simpl; constructor; auto.
Qed.

Lemma Forall_sound_incl (values values' : list string)
      (fs : list (Technology.t -> list PatternMatch.t)) :
  incl values values' ->
  Forall (sound_matcher values) fs -> Forall (sound_matcher values') fs.
Proof.
  intros Hincl. apply Forall_impl. intros f. apply sound_matcher_incl, Hincl.
Qed.

(** X7.  Every pattern match that [match_all] yields carries a technology
    of the rule set and one of the patterns that this technology declares,
    the regex of the pattern finds something in one of the values that the
    call was given (the URL, the HTML, a script, or a value of a supplied
    cookie, meta, header or JavaScript variable), and the version is the
    one resolved from that value. *)
Theorem match_all_sound (technologies : list (string * Technology.t))
        (url html : option string) (scripts : option (list string))
        (cookies metas headers js_vars : option (list (string * list string)))
        (pm : PatternMatch.t) :
  In pm (match_all technologies url html scripts cookies metas headers js_vars) ->
  (exists k, In (k, PatternMatch.technology pm) technologies)
  /\ declares (PatternMatch.technology pm) (PatternMatch.pattern pm)
  /\ exists value,
       In value (supplied_values url html scripts cookies metas headers js_vars)
       /\ Re.search (Pattern.regex (PatternMatch.pattern pm)) value <> None
       /\ PatternMatch.version pm
          = _resolve_version (Pattern.version (PatternMatch.pattern pm))
                             (Pattern.regex (PatternMatch.pattern pm)) value.
Proof.
  unfold match_all. rewrite in_flat_map. intros [t [Ht Hpm]].
  apply in_map_iff in Ht. destruct Ht as [[k t'] [E Hk]]. simpl in E. subst t'.
  unfold match_parts in Hpm. apply in_flat_map in Hpm.
  destruct Hpm as [f [Hf Hpm]].
  set (all := supplied_values url html scripts cookies metas headers js_vars).
  assert (Hsound : Forall (sound_matcher all)
            (when_str url match_url ++ when_items headers match_headers
             ++ when_items cookies match_cookies ++ when_str html match_html
             ++ when_items metas match_metas ++ when_items scripts match_scripts
             ++ when_items js_vars match_js_vars)).
  { unfold all, supplied_values, dict_values. rewrite !Forall_app.
    split; [|split; [|split; [|split; [|split; [|split]]]]].
    - apply (Forall_sound_incl match url with Some s => [s] | None => [] end);
        [intros v Hv; apply in_or_app; left; exact Hv|].
      apply when_str_sound. intros s. apply match_str_sound.
    - apply (Forall_sound_incl
               match headers with Some l => flat_map snd l | None => [] end).
      + intros v Hv. apply in_or_app. right. apply in_or_app. left. exact Hv.
      + apply (when_items_sound headers (flat_map snd) match_headers).
        intros l. apply match_pairs_sound.
    - apply (Forall_sound_incl
               match cookies with Some l => flat_map snd l | None => [] end).
      + intros v Hv. do 2 (apply in_or_app; right). apply in_or_app. left.
        exact Hv.
      + apply (when_items_sound cookies (flat_map snd) match_cookies).
        intros l. apply match_pairs_sound.
    - apply (Forall_sound_incl match html with Some s => [s] | None => [] end).
      + intros v Hv. do 3 (apply in_or_app; right). apply in_or_app. left.
        exact Hv.
      + apply when_str_sound. intros s. apply match_str_sound.
    - apply (Forall_sound_incl
               match metas with Some l => flat_map snd l | None => [] end).
      + intros v Hv. do 4 (apply in_or_app; right). apply in_or_app. left.
        exact Hv.
      + apply (when_items_sound metas (flat_map snd) match_metas).
        intros l. apply match_pairs_sound.
    - apply (Forall_sound_incl match scripts with Some l => l | None => [] end).
      + intros v Hv. do 5 (apply in_or_app; right). apply in_or_app. left.
        exact Hv.
      + apply (when_items_sound scripts (fun l => l) match_scripts).
        intros l. apply match_list_sound.
    - apply (Forall_sound_incl
               match js_vars with Some l => flat_map snd l | None => [] end).
      + intros v Hv. do 6 (apply in_or_app; right). exact Hv.
      + apply (when_items_sound js_vars (flat_map snd) match_js_vars).
        intros l. apply match_pairs_sound. }
  rewrite Forall_forall in Hsound.
  destruct (Hsound f Hf t pm Hpm) as [Et [Hd Hv]]. subst t.
  split; [exists k; exact Hk|]. split; assumption.
Qed.

Lemma match_all_sound_witness :
  (exists k,
      In (k, PatternMatch.technology
               {| PatternMatch.technology := SampleSignals.blank;
                  PatternMatch.pattern :=
                    Sample.pattern EmptyString EmptyString Sample.re_empty 100
                                   EmptyString;
                  PatternMatch.version := EmptyString |})
         SampleSignals.blank_rules)
  /\ declares SampleSignals.blank
              (Sample.pattern EmptyString EmptyString Sample.re_empty 100
                              EmptyString)
  /\ exists value,
       In value ["https://example.org"]
       /\ Re.search Sample.re_empty value <> None
       /\ EmptyString = _resolve_version EmptyString Sample.re_empty value.
Proof.
  apply (match_all_sound SampleSignals.blank_rules
           (Some "https://example.org") None None None None None None
           {| PatternMatch.technology := SampleSignals.blank;
              PatternMatch.pattern :=
                Sample.pattern EmptyString EmptyString Sample.re_empty 100
                               EmptyString;
              PatternMatch.version := EmptyString |}).
  simpl. left. reflexivity.
Defined.

Lemma when_str_absent (x : option string)
      (f : Technology.t -> string -> list PatternMatch.t) :
  Spec.or_empty_str x = EmptyString -> when_str x f = [].
Proof. destruct x as [[|c s]|]; simpl; [reflexivity|discriminate|reflexivity]. Qed.

Lemma when_items_absent {A : Type} (x : option (list A))
      (f : Technology.t -> list A -> list PatternMatch.t) :
  Spec.or_empty x = [] -> when_items x f = [].
Proof. destruct x as [[|a l]|]; simpl; [reflexivity|discriminate|reflexivity]. Qed.

(** X8.  With every signal absent or empty, [match_all] yields nothing and
    [discover_technologies] returns the empty list, whatever the rule set
    holds: nothing is looked up, so not even a dangling reference can
    raise. *)
Theorem no_signal_no_technology
        (set_order : list (string * string * string) -> list (string * string * string))
        (technologies : list (string * Technology.t))
        (url html : option string) (scripts : option (list string))
        (cookies metas headers : option (list (string * list string))) :
  Spec.or_empty_str url = EmptyString ->
  Spec.or_empty_str html = EmptyString ->
  Spec.or_empty scripts = [] ->
  Spec.or_empty cookies = [] ->
  Spec.or_empty metas = [] ->
  Spec.or_empty headers = [] ->
  match_all technologies url html scripts cookies metas headers None = []
  /\ discover_technologies set_order technologies
                           url html scripts cookies metas headers
     = Ok [].
Proof.
  intros Hu Hh Hs Hc Hm Hd.
  assert (E : match_all technologies url html scripts cookies metas headers None
              = []).
  { unfold match_all.
    rewrite (when_str_absent url _ Hu), (when_str_absent html _ Hh),
            (when_items_absent scripts _ Hs), (when_items_absent cookies _ Hc),
            (when_items_absent metas _ Hm), (when_items_absent headers _ Hd).
    apply flat_map_nil. intros t _. reflexivity. }
  split; [exact E|].
  unfold discover_technologies, resolve_techno_matches. rewrite E.
  replace (list_of_set set_order (set_of [])) with (@nil PatternMatch.t);
    [reflexivity|].
  symmetry. unfold list_of_set. apply flat_map_nil. intros h _. reflexivity.
Qed.

Lemma no_signal_no_technology_witness :
  match_all SampleImplies.dangling (Some EmptyString) None (Some []) None None
            (Some []) None
  = []
  /\ discover_technologies (fun hashes => hashes) SampleImplies.dangling
                           (Some EmptyString) None (Some []) None None (Some [])
     = Ok [].
Proof.
  apply (no_signal_no_technology (fun hashes => hashes) SampleImplies.dangling
           (Some EmptyString) None (Some []) None None (Some []));
    reflexivity.
Defined.

(** ** Supplied cookie names that differ only in case *)

Lemma get_set {V : Type} (d : list (string * V)) (k n : string) (v : V) :
  Py.get (Py.set d k v) n = if String.eqb k n then Some v else Py.get d n.
Proof.
  induction d as [|[k' w] d IH]; simpl; [reflexivity|].
  destruct (String.eqb k' k) eqn:E; simpl.
  - apply String.eqb_eq in E. subst k'. destruct (String.eqb k n); reflexivity.
  - rewrite IH. destruct (String.eqb k' n) eqn:En; [|reflexivity].
    apply String.eqb_eq in En. subst k'. rewrite String.eqb_sym, E. reflexivity.
Qed.

Lemma get_NoDup {V : Type} (d : list (string * V)) (k : string) (v : V) :
  NoDup (map fst d) -> In (k, v) d -> Py.get d k = Some v.
Proof.
  induction d as [|[k' w] d IH]; intros Hnd Hin; [destruct Hin|].
  simpl in *. inversion Hnd as [|? ? Hnot Hnd']; subst.
  destruct Hin as [[= -> ->]|Hin].
  - rewrite String.eqb_refl. reflexivity.
  - destruct (String.eqb k' k) eqn:E; [|apply IH; assumption].
    apply String.eqb_eq in E. subst k'. exfalso. apply Hnot.
    apply in_map_iff. exists (k, v). split; [reflexivity|exact Hin].
Qed.

(** Keys whose lower case is not [n] leave the entry of [n] alone. *)
Lemma lower_keys_other (pairs : list (string * list string)) (n : string)
      (ks : list string) :
  (forall k, In k ks -> Py.lower k <> n) ->
  forall acc,
    Py.get
      (fold_left
         (fun pairs_local k =>
            match Py.get pairs k with
            | Some v => Py.set pairs_local (Py.lower k) v
            | None => pairs_local
            end)
         ks acc)
      n
    = Py.get acc n.
Proof.
  induction ks as [|k ks IH]; intros Hks acc; [reflexivity|].
  cbn [fold_left]. rewrite IH by (intros k' Hk'; apply Hks; right; exact Hk').
  destruct (Py.get pairs k); [|reflexivity].
  rewrite get_set.
  destruct (String.eqb (Py.lower k) n) eqn:E; [|reflexivity].
  apply String.eqb_eq in E. exfalso. apply (Hks k); [left; reflexivity|exact E].
Qed.

(** X9.  When several supplied cookie names have the same lower case, the
    copy that [match_pairs] makes of the cookies keeps the values of the
    last of them only; a name that no supplied cookie has in any case is
    absent from the copy.  So a technology that declares one cookie key is
    matched against the values of the last supplied cookie with that name
    in any case. *)
Theorem cookies_last_spelling_wins (pairs l1 l2 : list (string * list string))
        (k : string) (v : list string) :
  pairs = l1 ++ (k, v) :: l2 ->
  NoDup (map fst pairs) ->
  (forall k', In k' (map fst l2) -> Py.lower k' <> Py.lower k) ->
  Py.get (lower_keys pairs) (Py.lower k) = Some v
  /\ (forall n,
         (forall k', In k' (map fst pairs) -> Py.lower k' <> n) ->
         Py.get (lower_keys pairs) n = None)
  /\ (forall t patterns,
         Technology.cookies t = [(Py.lower k, patterns)] ->
         match_cookies t pairs
         = flat_map (fun value => _match_patterns patterns t value) v).
Proof.
  intros Hp Hnd Hlast.
  assert (Hget : Py.get (lower_keys pairs) (Py.lower k) = Some v).
  { assert (Hks : map fst pairs = map fst l1 ++ k :: map fst l2)
      by (rewrite Hp, map_app; reflexivity).
    unfold lower_keys. rewrite Hks, fold_left_app. cbn [fold_left].
    rewrite lower_keys_other by exact Hlast.
    rewrite (get_NoDup pairs k v Hnd)
      by (rewrite Hp; apply in_or_app; right; left; reflexivity).
    rewrite get_set, String.eqb_refl. reflexivity. }
  split; [exact Hget|]. split.
  - intros n Hn. unfold lower_keys. rewrite lower_keys_other by exact Hn.
    reflexivity.
  - intros t patterns Ht. unfold match_cookies.
    rewrite (match_pairs_single t "cookies" (Py.lower k) patterns pairs Ht).
    cbn [Py.mem existsb String.eqb Ascii.eqb Bool.eqb orb andb].
    rewrite Hget. reflexivity.
Qed.

Lemma cookies_last_spelling_wins_witness :
  Py.get (lower_keys [("SID", ["a"]); ("lang", ["en"]); ("sid", ["b"])])
         (Py.lower "sid")
  = Some ["b"]
  /\ (forall n,
         (forall k', In k' (map fst [("SID", ["a"]); ("lang", ["en"]); ("sid", ["b"])]) ->
                     Py.lower k' <> n) ->
         Py.get (lower_keys [("SID", ["a"]); ("lang", ["en"]); ("sid", ["b"])]) n
         = None)
  /\ (forall t patterns,
         Technology.cookies t = [(Py.lower "sid", patterns)] ->
         match_cookies t [("SID", ["a"]); ("lang", ["en"]); ("sid", ["b"])]
         = flat_map (fun value => _match_patterns patterns t value) ["b"]).
Proof.
  apply (cookies_last_spelling_wins
           [("SID", ["a"]); ("lang", ["en"]); ("sid", ["b"])]
           [("SID", ["a"]); ("lang", ["en"])] [] "sid" ["b"]).
  - reflexivity.
  - simpl. repeat constructor; simpl; intuition discriminate.
  - intros k' [].
Defined.

(** ** Strings: what [strip], [replace] and the ternary search do *)

Lemma append_nil_r (s : string) : (s ++ EmptyString)%string = s.
Proof. induction s as [|c s IH]; simpl; [|rewrite IH]; reflexivity. Qed.

Lemma append_assoc (a b c : string) :
  ((a ++ b) ++ c)%string = (a ++ (b ++ c))%string.
Proof. induction a as [|x a IH]; simpl; [|rewrite IH]; reflexivity. Qed.

Lemma has_char_app (c : ascii) (a b : string) :
  has_char c (a ++ b) = has_char c a || has_char c b.
Proof.
  induction a as [|x a IH]; simpl; [reflexivity|].
  rewrite IH, orb_assoc. reflexivity.
Qed.

Lemma lstrip_has_char (c : ascii) (s : string) :
  has_char c s = false -> has_char c (Py.lstrip s) = false.
Proof.
  induction s as [|a s IH]; intros H; simpl; [reflexivity|].
  simpl in H. apply orb_false_iff in H. destruct H as [Ha Hs].
  destruct (Py.is_space a); [apply IH; exact Hs|].
  simpl. rewrite Ha, Hs. reflexivity.
Qed.

Lemma rstrip_has_char (c : ascii) (s : string) :
  has_char c s = false -> has_char c (Py.rstrip s) = false.
Proof.
  induction s as [|a s IH]; intros H; simpl; [reflexivity|].
  simpl in H. apply orb_false_iff in H. destruct H as [Ha Hs].
  specialize (IH Hs). destruct (Py.rstrip s) as [|b r].
  - destruct (Py.is_space a); simpl; [reflexivity|].
    rewrite Ha. reflexivity.
  - cbn [has_char] in *. rewrite Ha, IH. reflexivity.
Qed.

Lemma strip_has_char (c : ascii) (s : string) :
  has_char c s = false -> has_char c (Py.strip s) = false.
Proof. intros H. apply rstrip_has_char, lstrip_has_char, H. Qed.

Lemma rstrip_idempotent (s : string) : Py.rstrip (Py.rstrip s) = Py.rstrip s.
Proof.
  induction s as [|a s IH]; [reflexivity|].
  cbn [Py.rstrip]. destruct (Py.rstrip s) as [|b r] eqn:E.
  - destruct (Py.is_space a) eqn:Ea; [reflexivity|].
    cbn [Py.rstrip]. rewrite Ea. reflexivity.
  - change (Py.rstrip (String a (String b r)))
      with (match Py.rstrip (String b r) with
            | EmptyString =>
                if Py.is_space a then EmptyString else String a EmptyString
            | String b' r' => String a (String b' r')
            end).
    rewrite IH. reflexivity.
Qed.

(** [rstrip] leaves a leading character that is not a space where it is. *)
Lemma rstrip_head (a : ascii) (s : string) :
  Py.is_space a = false ->
  exists r, Py.rstrip (String a s) = String a r.
Proof.
  intros Ha. cbn [Py.rstrip]. destruct (Py.rstrip s) as [|b r].
  - rewrite Ha. exists EmptyString. reflexivity.
  - exists (String b r). reflexivity.
Qed.

Lemma lstrip_rstrip_lstrip (s : string) :
  Py.lstrip (Py.rstrip (Py.lstrip s)) = Py.rstrip (Py.lstrip s).
Proof.
  induction s as [|a s IH]; [reflexivity|].
  cbn [Py.lstrip]. destruct (Py.is_space a) eqn:Ea; [exact IH|].
  destruct (rstrip_head a s Ea) as [r Hr]. rewrite Hr.
  cbn [Py.lstrip]. rewrite Ea. reflexivity.
Qed.

Lemma strip_idempotent (s : string) : Py.strip (Py.strip s) = Py.strip s.
Proof.
  unfold Py.strip. rewrite lstrip_rstrip_lstrip. apply rstrip_idempotent.
Qed.

Lemma prefix_head_absent (c : ascii) (x s : string) :
  has_char c s = false -> prefix (String c x) s = false.
Proof.
  intros H. destruct s as [|a r]; [reflexivity|].
  simpl in H. apply orb_false_iff in H. destruct H as [Ha _].
  cbn [prefix]. destruct (ascii_dec c a) as [->|_]; [|reflexivity].
  rewrite Ascii.eqb_refl in Ha. discriminate.
Qed.

(** Replacing a text that starts with a character the string does not
    hold changes nothing. *)
Lemma replace_absent (c : ascii) (x new s : string) :
  has_char c s = false -> Py.replace s (String c x) new = s.
Proof.
  intros H. unfold Py.replace.
  induction s as [|a r IH]; [reflexivity|].
  cbn [Py.replace_from]. rewrite (prefix_head_absent c x (String a r) H).
  simpl in H. apply orb_false_iff in H. rewrite (IH (proj2 H)). reflexivity.
Qed.

(** The ternary search needs its head, so it fails on a string without the
    first character of the head. *)
Lemma search_ternary_absent (c : ascii) (x s : string) :
  has_char c s = false -> Re.search_ternary (String c x) s = None.
Proof.
  intros H. induction s as [|a r IH]; [reflexivity|].
  cbn [Re.search_ternary]. rewrite (prefix_head_absent c x (String a r) H).
  simpl in H. apply orb_false_iff in H. apply IH, H.
Qed.

(** One turn of the loop on a working string without a backslash, for a
    template without a backslash. *)
Lemma resolve_group_literal (version resolved : string) (index : nat)
      (m : option string) :
  has_char backslash_char version = false ->
  has_char backslash_char resolved = false ->
  resolve_group version index m resolved = Py.strip resolved.
Proof.
  intros Hv Hr. unfold resolve_group, backslash.
  cbn [append]. rewrite (search_ternary_absent backslash_char _ version Hv).
  apply replace_absent, strip_has_char, Hr.
Qed.

Lemma resolve_groups_literal (version : string) (matches : list (option string)) :
  has_char backslash_char version = false ->
  forall index resolved,
    has_char backslash_char resolved = false ->
    resolve_groups version index matches resolved
    = match matches with
      | [] => resolved
      | _ => Py.strip resolved
      end.
Proof.
  intros Hv. induction matches as [|m rest IH]; intros index resolved Hr;
    [reflexivity|].
  cbn [resolve_groups]. rewrite (resolve_group_literal _ _ _ _ Hv Hr).
  rewrite IH by (apply strip_has_char, Hr).
  destruct rest; [reflexivity|apply strip_idempotent].
Qed.

(** X10.  A version template without a back-reference is a literal: when
    the regex does not match the value the template is returned as it is,
    and when it matches, the template is returned with the white space at
    both ends removed, whatever the groups hold. *)
Theorem resolve_version_literal (version : string) (regex : Re.Pattern)
        (value : string) :
  has_char backslash_char version = false ->
  (Re.search regex value = None ->
   _resolve_version version regex value = version)
  /\ (forall m,
         Re.search regex value = Some m ->
         _resolve_version version regex value = Py.strip version).
Proof.
  intros Hv. unfold _resolve_version. split.
  - intros ->. destruct (negb (Py.truthy version)); reflexivity.
  - intros m ->. destruct version as [|c r]; [reflexivity|].
    cbn [Py.truthy negb].
    rewrite (resolve_groups_literal _ (Some (Re.group m) :: Re.groups m) Hv 0 _ Hv).
    reflexivity.
Qed.

Lemma resolve_version_literal_witness :
  _resolve_version " 2.x " Sample.re_digit_b "5b" = Py.strip " 2.x ".
Proof.
  apply (proj2 (resolve_version_literal " 2.x " Sample.re_digit_b "5b" eq_refl)
               {| Re.group := "5b"; Re.groups := [Some "5"; Some "b"] |}).
  reflexivity.
Defined.

(** ** The ternary template *)

Lemma prefix_app (s t : string) : prefix s (s ++ t) = true.
Proof.
  induction s as [|c s IH]; [destruct t; reflexivity|].
  cbn [append prefix]. destruct (ascii_dec c c); [exact IH|congruence].
Qed.

Lemma drop_app (s t : string) : Re.drop (String.length s) (s ++ t) = t.
Proof. induction s as [|c s IH]; [destruct t; reflexivity|exact IH]. Qed.

Lemma span_until (d : ascii) (a b : string) :
  has_char d a = false ->
  Re.span (fun c => negb (Ascii.eqb c d)) (a ++ String d b) = (a, String d b).
Proof.
  induction a as [|x a IH]; intros H.
  - cbn [append Re.span]. rewrite Ascii.eqb_refl. reflexivity.
  - simpl in H. apply orb_false_iff in H. destruct H as [Hx Ha].
    cbn [append Re.span]. rewrite Hx, (IH Ha). reflexivity.
Qed.

Lemma span_all (d : ascii) (a : string) :
  has_char d a = false ->
  Re.span (fun c => negb (Ascii.eqb c d)) a = (a, EmptyString).
Proof.
  induction a as [|x a IH]; intros H; [reflexivity|].
  simpl in H. apply orb_false_iff in H. destruct H as [Hx Ha].
  cbn [Re.span]. rewrite Hx, (IH Ha). reflexivity.
Qed.

Lemma branches_at_both (yes no : string) :
  yes <> EmptyString ->
  has_char Re.colon yes = false ->
  has_char Re.newline no = false ->
  Re.branches_at (yes ++ String Re.colon no) = Some (yes, no).
Proof.
  intros Hy Hc Hn. unfold Re.branches_at.
  rewrite (span_until Re.colon yes no Hc), (span_all Re.newline no Hn).
  destruct yes; [congruence|reflexivity].
Qed.

(** The search finds a ternary segment that starts the string. *)
Lemma search_ternary_here (h : ascii) (hs yes no : string) :
  yes <> EmptyString ->
  has_char Re.colon yes = false ->
  has_char Re.newline no = false ->
  Re.search_ternary (String h hs) (String h hs ++ yes ++ String Re.colon no)
  = Some [(String h hs ++ yes ++ String Re.colon no)%string; yes; no].
Proof.
  intros Hy Hc Hn.
  change (String h hs ++ yes ++ String Re.colon no)%string
    with (String h (hs ++ yes ++ String Re.colon no)).
  cbn [Re.search_ternary].
  change (String h (hs ++ yes ++ String Re.colon no))
    with (String h hs ++ (yes ++ String Re.colon no))%string.
  rewrite prefix_app, drop_app, (branches_at_both yes no Hy Hc Hn).
  reflexivity.
Qed.

Lemma replace_from_skip (old new r : string) :
  forall k, String.length r <= k -> Py.replace_from old new k r = EmptyString.
Proof.
  induction r as [|a r IH]; intros k Hk; [reflexivity|].
  destruct k as [|k]; [simpl in Hk; lia|].
  cbn [Py.replace_from]. apply IH. simpl in Hk. lia.
Qed.

(** Replacing a whole string by something gives that thing. *)
Lemma replace_self (c : ascii) (r new : string) :
  Py.replace (String c r) (String c r) new = new.
Proof.
  unfold Py.replace. cbn [Py.replace_from].
  pose proof (prefix_app (String c r) EmptyString) as Hp.
  rewrite append_nil_r in Hp. rewrite Hp. cbn [String.length Nat.sub].
  rewrite Nat.sub_0_r, replace_from_skip by lia. apply append_nil_r.
Qed.

Lemma format_nat_one (k : nat) : Py.format_nat k = "1" -> k = 1.
Proof.
  intros E. apply DecimalNat.Unsigned.to_uint_inj.
  pose proof (NilEmpty.usu (Nat.to_uint k)) as H.
  unfold Py.format_nat in E. rewrite E in H. cbn in H.
  injection H as <-. reflexivity.
Qed.

Lemma search_ternary_cons (head : string) (c : ascii) (r : string) :
  Re.search_ternary head (String c r)
  = match
      (if prefix head (String c r)
       then Re.branches_at (Re.drop (String.length head) (String c r))
       else None)
    with
    | Some (yes, no) => Some [(head ++ yes ++ String Re.colon no)%string; yes; no]
    | None => Re.search_ternary head r
    end.
Proof. reflexivity. Qed.

Lemma prefix_cons_same (a : ascii) (x y : string) :
  prefix (String a x) (String a y) = prefix x y.
Proof.
  cbn [prefix]. destruct (ascii_dec a a); [reflexivity|congruence].
Qed.

(** A group index other than 1 finds no ternary segment of its own in a
    template that starts with the segment of group 1. *)
Lemma format_nat_prefix (k : nat) (tail : string) :
  k <> 1 ->
  prefix (Py.format_nat k ++ "?") (String "1" (String "?" tail)) = false.
Proof.
  intros Hk. destruct (Py.format_nat k) as [|c r] eqn:E; [reflexivity|].
  cbn [append prefix]. destruct (ascii_dec c "1") as [->|_]; [|reflexivity].
  destruct r as [|d r]; [exfalso; apply Hk, format_nat_one, E|].
  cbn [append prefix]. destruct (ascii_dec d "?") as [->|_]; [|reflexivity].
  exfalso. pose proof (NilEmpty.usu (Nat.to_uint k)) as H.
  unfold Py.format_nat in E. rewrite E in H. cbn in H.
  destruct (NilEmpty.uint_of_string r); discriminate.
Qed.

Lemma search_ternary_other_index (k : nat) (tail : string) :
  k <> 1 ->
  has_char backslash_char tail = false ->
  Re.search_ternary (backslash ++ Py.format_nat k ++ "?")
                    (String backslash_char (String "1" (String "?" tail)))
  = None.
Proof.
  intros Hk Ht. unfold backslash.
  change ("\" ++ Py.format_nat k ++ "?")%string
    with (String backslash_char (Py.format_nat k ++ "?")).
  rewrite search_ternary_cons, prefix_cons_same, (format_nat_prefix k tail Hk).
  apply search_ternary_absent. cbn [has_char]. rewrite Ht. reflexivity.
Qed.

(** The turns after the ternary one, on a working string without a
    backslash. *)
Lemma resolve_groups_after_ternary (tail : string)
      (matches : list (option string)) :
  has_char backslash_char tail = false ->
  forall index resolved,
    2 <= index ->
    has_char backslash_char resolved = false ->
    resolve_groups (String backslash_char (String "1" (String "?" tail)))
                   index matches resolved
    = match matches with
      | [] => resolved
      | _ => Py.strip resolved
      end.
Proof.
  intros Ht. induction matches as [|m rest IH]; intros index resolved Hi Hr;
    [reflexivity|].
  cbn [resolve_groups]. unfold resolve_group at 1.
  rewrite (search_ternary_other_index index tail) by (lia || exact Ht).
  unfold backslash at 1. cbn [append].
  rewrite replace_absent by (apply strip_has_char, Hr).
  rewrite IH by (lia || apply strip_has_char, Hr).
  destruct rest; [reflexivity|apply strip_idempotent].
Qed.

(** The turn of a group whose ternary segment is found does not look at
    the working string. *)
Lemma resolve_group_found (version resolved whole yes no : string)
      (index : nat) (m : option string) :
  Re.search_ternary (backslash ++ Py.format_nat index ++ "?") version
  = Some [whole; yes; no] ->
  resolve_group version index m resolved
  = Py.replace
      (Py.strip (Py.replace version whole (if group_truthy m then yes else no)))
      (backslash ++ Py.format_nat index) (group_or_empty m).
Proof. intros H. unfold resolve_group. rewrite H. reflexivity. Qed.

(** X11.  For a regex with at least one capture group, the ternary
    template made of a back-reference to group 1, a question mark, a first
    branch, a colon and a second branch resolves to the first branch when
    group 1 matched a non-empty text and to the second branch otherwise,
    with the white space at both ends removed.  The first branch is not
    empty and holds no colon, the second holds no line feed, and neither
    holds a backslash. *)
Theorem resolve_version_ternary (regex : Re.Pattern) (value g0 : string)
        (g1 : option string) (rest : list (option string)) (yes no : string) :
  Re.search regex value
  = Some {| Re.group := g0; Re.groups := g1 :: rest |} ->
  yes <> EmptyString ->
  has_char Re.colon yes = false ->
  has_char backslash_char yes = false ->
  has_char Re.newline no = false ->
  has_char backslash_char no = false ->
  _resolve_version ("\1?" ++ yes ++ String Re.colon no) regex value
  = Py.strip (if group_truthy g1 then yes else no).
Proof.
  intros Es Hy Hyc Hyb Hnn Hnb.
  assert (Htail : has_char backslash_char (yes ++ String Re.colon no) = false).
  { rewrite has_char_app, Hyb. cbn [has_char orb]. rewrite Hnb. reflexivity. }
  assert (Hbranch : has_char backslash_char (if group_truthy g1 then yes else no)
                    = false) by (destruct (group_truthy g1); assumption).
  unfold _resolve_version. rewrite Es.
  change ("\1?" ++ yes ++ String Re.colon no)%string
    with (String backslash_char (String "1" (String "?" (yes ++ String Re.colon no)))).
  cbn [Py.truthy negb Re.group Re.groups resolve_groups].
  rewrite (resolve_group_found
             (String backslash_char
                     (String "1" (String "?" (yes ++ String Re.colon no))))
             _ _ yes no 1 g1
             (search_ternary_here backslash_char "1?" yes no Hy Hyc Hnn)).
  change (String backslash_char "1?" ++ yes ++ String Re.colon no)%string
    with (String backslash_char
                 (String "1" (String "?" (yes ++ String Re.colon no)))).
  rewrite replace_self. unfold backslash at 1. cbn [append].
  rewrite replace_absent by (apply strip_has_char, Hbranch).
  rewrite (resolve_groups_after_ternary _ rest Htail 2)
    by (lia || apply strip_has_char, Hbranch).
  destruct rest; [reflexivity|apply strip_idempotent].
Qed.

Lemma resolve_version_ternary_witness :
  _resolve_version ("\1?" ++ "Enterprise" ++ String Re.colon "Community")
                   SampleVersions.re_magento "/skin/frontend/default"
  = Py.strip (if group_truthy None then "Enterprise" else "Community").
Proof.
  apply (resolve_version_ternary SampleVersions.re_magento
           "/skin/frontend/default" "skin/frontend/default" None []
           "Enterprise" "Community");
    try reflexivity.
  discriminate.
Defined.

(** ** The back-reference template *)

Lemma lstrip_app_stop (a t : string) (c : ascii) :
  Py.is_space c = false ->
  Py.lstrip (a ++ String c t) = (Py.lstrip a ++ String c t)%string.
Proof.
  intros Hc. induction a as [|x a IH]; cbn [append Py.lstrip].
  - rewrite Hc. reflexivity.
  - destruct (Py.is_space x); [exact IH|reflexivity].
Qed.

Lemma rstrip_cons_stop (c : ascii) (t : string) :
  Py.is_space c = false -> Py.rstrip (String c t) = String c (Py.rstrip t).
Proof.
  intros Hc. cbn [Py.rstrip]. destruct (Py.rstrip t); [rewrite Hc|]; reflexivity.
Qed.

Lemma rstrip_cons_kept (x : ascii) (s : string) :
  Py.rstrip s <> EmptyString -> Py.rstrip (String x s) = String x (Py.rstrip s).
Proof.
  intros H. cbn [Py.rstrip]. destruct (Py.rstrip s); [congruence|reflexivity].
Qed.

Lemma rstrip_app_stop (a t : string) (c : ascii) :
  Py.is_space c = false ->
  Py.rstrip (a ++ String c t) = (a ++ Py.rstrip (String c t))%string.
Proof.
  intros Hc. induction a as [|x a IH]; [reflexivity|].
  cbn [append]. rewrite rstrip_cons_kept; [rewrite IH; reflexivity|].
  rewrite IH, (rstrip_cons_stop c t Hc). destruct a; discriminate.
Qed.

(** The template with one back-reference, stripped. *)
Lemma strip_around_reference (pre post : string) :
  Py.strip (pre ++ String backslash_char (String "1" post))
  = (Py.lstrip pre ++ String backslash_char (String "1" (Py.rstrip post)))%string.
Proof.
  unfold Py.strip.
  rewrite lstrip_app_stop, rstrip_app_stop by reflexivity.
  rewrite !rstrip_cons_stop by reflexivity. reflexivity.
Qed.

Lemma replace_from_app_absent (c : ascii) (x new a t : string) :
  has_char c a = false ->
  Py.replace_from (String c x) new 0 (a ++ t)
  = (a ++ Py.replace_from (String c x) new 0 t)%string.
Proof.
  induction a as [|y a IH]; intros H; [reflexivity|].
  cbn [append Py.replace_from].
  assert (Hp : prefix (String c x) (String y (a ++ t)) = false).
  { cbn [prefix]. destruct (ascii_dec c y) as [->|_]; [|reflexivity].
    simpl in H. rewrite Ascii.eqb_refl in H. discriminate. }
  rewrite Hp. simpl in H. apply orb_false_iff in H.
  rewrite (IH (proj2 H)). reflexivity.
Qed.

Lemma replace_from_absent (c : ascii) (x new s : string) :
  has_char c s = false -> Py.replace_from (String c x) new 0 s = s.
Proof. intros H. apply (replace_absent c x new s H). Qed.

Lemma search_ternary_app_absent (c : ascii) (x a t : string) :
  has_char c a = false ->
  Re.search_ternary (String c x) (a ++ t) = Re.search_ternary (String c x) t.
Proof.
  induction a as [|y a IH]; intros H; [reflexivity|].
  cbn [append]. rewrite search_ternary_cons.
  assert (Hp : prefix (String c x) (String y (a ++ t)) = false).
  { cbn [prefix]. destruct (ascii_dec c y) as [->|_]; [|reflexivity].
    simpl in H. rewrite Ascii.eqb_refl in H. discriminate. }
  rewrite Hp. simpl in H. apply orb_false_iff in H. apply IH, H.
Qed.

(** Neither group 0 nor group 1 finds a ternary segment in a template
    whose only backslash starts a back-reference to group 1 that no
    question mark follows. *)
Lemma search_ternary_reference (head pre post : string) :
  has_char backslash_char pre = false ->
  has_char backslash_char post = false ->
  prefix head (String "1" post) = false ->
  Re.search_ternary (String backslash_char head)
                    (pre ++ String backslash_char (String "1" post))
  = None.
Proof.
  intros Hpre Hpost Hh.
  rewrite (search_ternary_app_absent _ _ pre _ Hpre), search_ternary_cons,
          prefix_cons_same, Hh.
  apply search_ternary_absent. cbn [has_char]. rewrite Hpost. reflexivity.
Qed.

Lemma replace_from_cons (old new : string) (c : ascii) (r : string) :
  Py.replace_from old new 0 (String c r)
  = if prefix old (String c r)
    then (new ++ Py.replace_from old new (String.length old - 1) r)%string
    else String c (Py.replace_from old new 0 r).
Proof. reflexivity. Qed.

(** Replacing the back-reference of another group leaves the stripped
    template as it is; replacing that of group 1 puts the text in. *)
Lemma replace_reference_other (l r new : string) :
  has_char backslash_char l = false ->
  has_char backslash_char r = false ->
  Py.replace (l ++ String backslash_char (String "1" r))
             (String backslash_char "0") new
  = (l ++ String backslash_char (String "1" r))%string.
Proof.
  intros Hl Hr. unfold Py.replace.
  rewrite (replace_from_app_absent _ _ _ _ _ Hl), replace_from_cons,
          prefix_cons_same.
  change (prefix "0" (String "1" r)) with false. cbv iota.
  rewrite replace_from_absent; [reflexivity|].
  cbn [has_char]. rewrite Hr. reflexivity.
Qed.

Lemma replace_reference_same (l r new : string) :
  has_char backslash_char l = false ->
  has_char backslash_char r = false ->
  Py.replace (l ++ String backslash_char (String "1" r))
             (String backslash_char "1") new
  = (l ++ new ++ r)%string.
Proof.
  intros Hl Hr. unfold Py.replace.
  rewrite (replace_from_app_absent _ _ _ _ _ Hl), replace_from_cons.
  change (String backslash_char (String "1" r))
    with (String backslash_char "1" ++ r)%string.
  rewrite prefix_app.
  change (Py.replace_from (String backslash_char "1") new
            (String.length (String backslash_char "1") - 1) (String "1" r))
    with (Py.replace_from (String backslash_char "1") new 0 r).
  rewrite (replace_from_absent _ _ _ _ Hr). reflexivity.
Qed.

(** X12.  For a regex with one capture group, a template that holds one
    back-reference to group 1, not followed by a question mark, and no
    other backslash resolves to the template with the white space at both
    ends removed and the back-reference replaced by the text of the group,
    or by nothing when the group took no part in the match. *)
Theorem resolve_version_back_reference (regex : Re.Pattern)
        (value g0 : string) (g1 : option string) (pre post : string) :
  Re.search regex value = Some {| Re.group := g0; Re.groups := [g1] |} ->
  has_char backslash_char pre = false ->
  has_char backslash_char post = false ->
  prefix "?" post = false ->
  _resolve_version (pre ++ "\1" ++ post) regex value
  = (Py.lstrip pre ++ group_or_empty g1 ++ Py.rstrip post)%string.
Proof.
  intros Es Hpre Hpost Hq.
  change (pre ++ "\1" ++ post)%string
    with (pre ++ String backslash_char (String "1" post))%string.
  assert (Hl : has_char backslash_char (Py.lstrip pre) = false)
    by (apply lstrip_has_char, Hpre).
  assert (Hr : has_char backslash_char (Py.rstrip post) = false)
    by (apply rstrip_has_char, Hpost).
  unfold _resolve_version. rewrite Es.
  replace (Py.truthy (pre ++ String backslash_char (String "1" post)))
    with true by (destruct pre; reflexivity).
  cbn [negb Re.group Re.groups resolve_groups].
  unfold resolve_group.
  change (backslash ++ Py.format_nat 0 ++ "?")%string
    with (String backslash_char "0?").
  change (backslash ++ Py.format_nat 1 ++ "?")%string
    with (String backslash_char "1?").
  change (backslash ++ Py.format_nat 0)%string with (String backslash_char "0").
  change (backslash ++ Py.format_nat 1)%string with (String backslash_char "1").
  rewrite (search_ternary_reference "0?" pre post Hpre Hpost eq_refl).
  rewrite (search_ternary_reference "1?" pre post Hpre Hpost)
    by (rewrite prefix_cons_same; exact Hq).
  rewrite strip_around_reference, (replace_reference_other _ _ _ Hl Hr).
  rewrite <- strip_around_reference, strip_idempotent, strip_around_reference.
  apply (replace_reference_same _ _ _ Hl Hr).
Qed.

Lemma resolve_version_back_reference_witness :
  _resolve_version (" v" ++ "\1" ++ " ") SampleVersions.re_mathjax "3.3/mathjax.js"
  = (Py.lstrip " v" ++ group_or_empty (Some "3.3") ++ Py.rstrip " ")%string.
Proof.
  apply (resolve_version_back_reference SampleVersions.re_mathjax
           "3.3/mathjax.js" "3.3/mathjax.js" (Some "3.3") " v" " ");
    reflexivity.
Defined.

(** ** What the loader stores for a keyed field *)

Lemma set_fresh {V : Type} (d : list (string * V)) (k : string) (v : V) :
  ~ In k (map fst d) -> Py.set d k v = d ++ [(k, v)].
Proof.
  induction d as [|[k' w] d IH]; intros H; [reflexivity|].
  simpl in *. destruct (String.eqb k' k) eqn:E.
  - apply String.eqb_eq in E. tauto.
  - rewrite IH by tauto. reflexivity.
Qed.

Lemma get_absent {V : Type} (d : list (string * V)) (k : string) :
  ~ In k (map fst d) -> Py.get d k = None.
Proof.
  induction d as [|[k' w] d IH]; intros H; [reflexivity|].
  simpl in *. destruct (String.eqb k' k) eqn:E.
  - apply String.eqb_eq in E. tauto.
  - apply IH. tauto.
Qed.

(** ** Pattern strings *)

Lemma split_from_nonempty (sep s : string) :
  forall skip, Str.split_from sep skip s <> [].
Proof.
  induction s as [|c r IH]; intros skip; cbn [Str.split_from]; [discriminate|].
  destruct skip; [|apply IH].
  destruct (prefix sep (String c r)); [discriminate|].
  destruct (Str.split_from sep 0 r); discriminate.
Qed.

(** A string that does not hold the separator is one piece. *)
Lemma split_absent (sep s : string) :
  Str.occurs sep s = false -> Str.split s sep = [s].
Proof.
  unfold Str.split. induction s as [|c r IH]; intros H; [reflexivity|].
  cbn [Str.occurs] in H. apply orb_false_iff in H. destruct H as [Hp Hr].
  cbn [Str.split_from]. rewrite Hp, (IH Hr). reflexivity.
Qed.

Lemma prefix_inv (a s : string) :
  prefix a s = true -> exists t, s = (a ++ t)%string.
Proof.
  revert s. induction a as [|x a IH]; intros s H; [exists s; reflexivity|].
  destruct s as [|y s]; [discriminate|].
  cbn [prefix] in H. destruct (ascii_dec x y) as [->|_]; [|discriminate].
  destruct (IH s H) as [t ->]. exists t. reflexivity.
Qed.

Lemma length_append (a t : string) :
  String.length (a ++ t) = String.length a + String.length t.
Proof. induction a as [|x a IH]; [reflexivity|simpl; rewrite IH; reflexivity]. Qed.

Lemma split_from_skip (sep a t : string) :
  Str.split_from sep (String.length a) (a ++ t) = Str.split_from sep 0 t.
Proof.
  induction a as [|x a IH]; [destruct t; reflexivity|exact IH].
Qed.

(** A string that starts with the separator starts with an empty piece. *)
Lemma split_here (h : ascii) (hs t : string) :
  Str.split (String h hs ++ t) (String h hs)
  = EmptyString :: Str.split t (String h hs).
Proof.
  unfold Str.split. cbn [append Str.split_from].
  change (String h (hs ++ t)) with (String h hs ++ t)%string.
  rewrite prefix_app. cbn [String.length Nat.sub]. rewrite Nat.sub_0_r.
  rewrite split_from_skip. reflexivity.
Qed.

Lemma split_cons_other (sep : string) (c : ascii) (r p : string)
      (ps : list string) :
  prefix sep (String c r) = false ->
  Str.split r sep = p :: ps ->
  Str.split (String c r) sep = String c p :: ps.
Proof.
  unfold Str.split. intros Hp Hr. cbn [Str.split_from]. rewrite Hp, Hr.
  reflexivity.
Qed.

(** The first piece ends at the first separator of attributes. *)
Lemma split_at_attr_sep (a b : string) :
  Str.occurs attr_sep a = false ->
  Str.split (a ++ attr_sep ++ b) attr_sep = a :: Str.split b attr_sep.
Proof.
  induction a as [|x a IH]; intros H.
  - apply (split_here "\" ";" b).
  - cbn [Str.occurs] in H. apply orb_false_iff in H. destruct H as [Hp Ha].
    cbn [append]. apply split_cons_other; [|apply IH; exact Ha].
    unfold attr_sep in *. cbn [prefix] in *.
    destruct (ascii_dec "\" x); [|reflexivity].
    destruct a as [|y a]; [reflexivity|].
    cbn [append prefix] in *. destruct (ascii_dec ";" y); [|reflexivity].
    destruct a; exact Hp.
Qed.

(** The first piece ends at the first colon. *)
Lemma split_at_colon (name text : string) :
  has_char Re.colon name = false ->
  Str.split (name ++ ":" ++ text) ":" = name :: Str.split text ":".
Proof.
  induction name as [|x name IH]; intros H.
  - apply (split_here ":" EmptyString text).
  - simpl in H. apply orb_false_iff in H. destruct H as [Hx Hn].
    cbn [append]. apply split_cons_other; [|apply IH; exact Hn].
    cbn [prefix]. destruct (ascii_dec ":" x) as [<-|_]; [|reflexivity].
    discriminate.
Qed.

Lemma join_cons (sep : string) (c : ascii) (p : string) (ps : list string) :
  Str.join sep (String c p :: ps) = String c (Str.join sep (p :: ps)).
Proof. destruct ps; reflexivity. Qed.

(** Joining the pieces with the separator gives the string back. *)
Lemma join_split (h : ascii) (hs : string) (n : nat) :
  forall s,
    String.length s <= n ->
    Str.join (String h hs) (Str.split s (String h hs)) = s.
Proof.
  induction n as [|n IH]; intros s Hn.
  - destruct s; [reflexivity|simpl in Hn; lia].
  - destruct s as [|c r]; [reflexivity|].
    destruct (prefix (String h hs) (String c r)) eqn:Hp.
    + destruct (prefix_inv _ _ Hp) as [t Ht]. rewrite Ht, split_here.
      assert (Hlen : String.length t <= n).
      { apply (f_equal String.length) in Ht. rewrite length_append in Ht.
        simpl in Ht, Hn. lia. }
      pose proof (IH t Hlen) as Ht'.
      destruct (Str.split t (String h hs)) as [|p ps] eqn:Es;
        [exfalso; apply (split_from_nonempty _ _ _ Es)|].
      change (Str.join (String h hs) (EmptyString :: p :: ps))
        with (String h hs ++ Str.join (String h hs) (p :: ps))%string.
      rewrite Ht'. reflexivity.
    + pose proof (IH r) as Hr.
      destruct (Str.split r (String h hs)) as [|p ps] eqn:Es;
        [exfalso; apply (split_from_nonempty _ _ _ Es)|].
      rewrite (split_cons_other _ _ _ _ _ Hp Es), join_cons, Hr;
        [reflexivity|simpl in Hn; lia].
Qed.

(** An attribute with a name and a colon sets the entry of that name to
    the whole text after the first colon; one without a colon sets
    nothing. *)
Lemma add_attr_named (attrs : list (string * attr_value)) (name text : string) :
  has_char Re.colon name = false ->
  add_attr attrs (name ++ ":" ++ text) = Py.set attrs name (AStr text).
Proof.
  intros Hn. unfold add_attr. rewrite (split_at_colon name text Hn).
  pose proof (join_split ":" EmptyString (String.length text) text (le_n _)) as Hj.
  destruct (Str.split text ":") as [|p ps] eqn:Es;
    [exfalso; apply (split_from_nonempty _ _ _ Es)|].
  rewrite Hj. reflexivity.
Qed.

Lemma add_attr_no_colon (attrs : list (string * attr_value)) (attr : string) :
  has_char Re.colon attr = false -> add_attr attrs attr = attrs.
Proof.
  intros H. unfold add_attr. rewrite split_absent; [reflexivity|].
  induction attr as [|c r IH]; [reflexivity|].
  simpl in H. apply orb_false_iff in H. destruct H as [Hc Hr].
  cbn [Str.occurs prefix]. rewrite (IH Hr).
  destruct (ascii_dec ":" c) as [<-|_]; [discriminate|reflexivity].
Qed.

Lemma cut_colon_some (s name text : string) :
  cut_colon s = Some (name, text) ->
  s = (name ++ ":" ++ text)%string /\ has_char Re.colon name = false.
Proof.
  revert name. induction s as [|c r IH]; intros name H; [discriminate|].
  cbn [cut_colon] in H. destruct (Ascii.eqb c Re.colon) eqn:Ec.
  - injection H as <- <-. apply Ascii.eqb_eq in Ec. subst c.
    split; reflexivity.
  - destruct (cut_colon r) as [[n t]|]; [|discriminate].
    injection H as <- <-. destruct (IH n eq_refl) as [-> Hn].
    split; [reflexivity|]. simpl. rewrite Ec. exact Hn.
Qed.

Lemma cut_colon_none (s : string) :
  cut_colon s = None -> has_char Re.colon s = false.
Proof.
  induction s as [|c r IH]; intros H; [reflexivity|].
  cbn [cut_colon] in H. simpl. destruct (Ascii.eqb c Re.colon); [discriminate|].
  destruct (cut_colon r) as [[n t]|]; [discriminate|]. apply IH. reflexivity.
Qed.

(** The loop body is a dictionary update by the attribute of the piece. *)
Lemma add_attr_cut (attrs : list (string * attr_value)) (attr : string) :
  add_attr attrs attr
  = match cut_colon attr with
    | Some (name, text) => Py.set attrs name (AStr text)
    | None => attrs
    end.
Proof.
  destruct (cut_colon attr) as [[name text]|] eqn:E.
  - destruct (cut_colon_some _ _ _ E) as [-> Hn]. apply add_attr_named, Hn.
  - apply add_attr_no_colon, cut_colon_none, E.
Qed.

(** After the loop an entry holds the text of the last attribute of its
    name, or what it held before. *)
Lemma get_fold_add_attr (parts : list string) (name : string) :
  forall attrs,
    Py.get (fold_left add_attr parts attrs) name
    = match last_attr name (attrs_of parts) with
      | Some text => Some (AStr text)
      | None => Py.get attrs name
      end.
Proof.
  induction parts as [|p ps IH]; intros attrs; [reflexivity|].
  cbn [fold_left]. rewrite IH, add_attr_cut.
  unfold attrs_of. cbn [flat_map]. fold (attrs_of ps).
  destruct (cut_colon p) as [[n t]|]; cbn [app].
  - cbn [last_attr].
    destruct (last_attr name (attrs_of ps)); [reflexivity|].
    rewrite get_set. destruct (String.eqb n name); reflexivity.
  - reflexivity.
Qed.

Lemma split_join_attr_sep (parts : list string) :
  forall value,
    Forall (fun p => Str.occurs attr_sep p = false) (value :: parts) ->
    Str.split (Str.join attr_sep (value :: parts)) attr_sep = value :: parts.
Proof.
  induction parts as [|p ps IH]; intros value H.
  - apply split_absent. inversion H; assumption.
  - inversion H as [|? ? Hv Hps]; subst.
    change (Str.join attr_sep (value :: p :: ps))
      with (value ++ attr_sep ++ Str.join attr_sep (p :: ps))%string.
    rewrite (split_at_attr_sep _ _ Hv), (IH p Hps). reflexivity.
Qed.

(** X15.  A pattern string without the separator of attributes is a
    plain pattern: its value is the whole string, its confidence 100, its
    version empty and its key the one given, and a source that
    [re.compile] refuses raises [re.error].  When the string holds no slash
    and no opening bracket either, the source compiled is the string as
    written. *)
Theorem parse_pattern_plain
        (re_compile : string -> option Re.Pattern)
        (py_int : string -> option Z) (pattern key : string) :
  Str.occurs attr_sep pattern = false ->
  _parse_pattern re_compile py_int pattern key
  = match re_compile (regex_source pattern) with
    | Some regex =>
        inr (Parsed {| Pattern.value := pattern;
                       Pattern.regex := regex;
                       Pattern.confidence := 100;
                       Pattern.version := EmptyString;
                       Pattern.key := key |})
    | None => inl (ReError (regex_source pattern))
    end
  /\ (has_char "/" pattern = false ->
      has_char "[" pattern = false ->
      regex_source pattern = pattern).
Proof.
  intros Hsep. split.
  - unfold _parse_pattern. rewrite (split_absent _ _ Hsep).
    destruct (re_compile (regex_source pattern)); reflexivity.
  - intros Hslash Hclass. unfold regex_source.
    rewrite (replace_absent "/" EmptyString _ pattern Hslash).
    apply (replace_absent "[" "^]" _ pattern Hclass).
Qed.

Lemma parse_pattern_plain_witness :
  _parse_pattern SampleParse.compile SampleParse.int "jquery\.js" "k"
  = inr (Parsed {| Pattern.value := "jquery\.js";
                   Pattern.regex := Sample.re_empty;
                   Pattern.confidence := 100;
                   Pattern.version := EmptyString;
                   Pattern.key := "k" |})
  /\ regex_source "jquery\.js" = "jquery\.js".
Proof.
  destruct (parse_pattern_plain SampleParse.compile SampleParse.int
                                "jquery\.js" "k" eq_refl) as [H1 H2].
  split; [exact H1|exact (H2 eq_refl eq_refl)].
Defined.

(** X16.  A pattern string made of a value and pieces joined by the
    separator of attributes is read as a dictionary: a piece counts as an
    attribute when it holds a colon, its name ends at the first colon, the
    last attribute of a name wins, and pieces without a colon are passed
    over.  The confidence is [int] of the attribute [confidence] (or 100),
    the version the attribute [version] (or empty), and a [confidence]
    that [int] refuses raises [ValueError].  The regex is compiled from
    the first piece whatever the attributes say, while an attribute
    [value] replaces the value and an attribute [regex] leaves a text in
    place of the compiled regex. *)
Theorem parse_pattern_reads_attributes
        (re_compile : string -> option Re.Pattern)
        (py_int : string -> option Z)
        (value : string) (parts : list string) (key : string)
        (regex : Re.Pattern) :
  Forall (fun p => Str.occurs attr_sep p = false) (value :: parts) ->
  re_compile (regex_source value) = Some regex ->
  _parse_pattern re_compile py_int (Str.join attr_sep (value :: parts)) key
  = match last_attr "confidence" (attrs_of parts) with
    | Some text =>
        match py_int text with
        | Some n => inr (pattern_of value key regex (attrs_of parts) n)
        | None => inl (ValueError text)
        end
    | None => inr (pattern_of value key regex (attrs_of parts) 100)
    end.
Proof.
  intros Hparts Hre. unfold _parse_pattern.
  rewrite (split_join_attr_sep parts value Hparts), Hre.
  cbv zeta. unfold attr_text, pattern_of, attr_or.
  rewrite !get_fold_add_attr. cbn [Py.get String.eqb Ascii.eqb Bool.eqb].
  destruct (last_attr "confidence" (attrs_of parts)) as [c|];
    [destruct (py_int c); [|reflexivity]|];
    destruct (last_attr "regex" (attrs_of parts));
    destruct (last_attr "value" (attrs_of parts));
    destruct (last_attr "version" (attrs_of parts)); reflexivity.
Qed.

Lemma parse_pattern_reads_attributes_witness :
  _parse_pattern SampleParse.compile SampleParse.int
                 "jquery\.js\;confidence:0\;version:\1?a:b\;foo\;confidence:50"
                 "k"
  = inr (Parsed {| Pattern.value := "jquery\.js";
                   Pattern.regex := Sample.re_empty;
                   Pattern.confidence := 50;
                   Pattern.version := "\1?a:b";
                   Pattern.key := "k" |}).
Proof.
  refine (parse_pattern_reads_attributes
            SampleParse.compile SampleParse.int "jquery\.js"
            ["confidence:0"; "version:\1?a:b"; "foo"; "confidence:50"] "k"
            Sample.re_empty _ eq_refl).
  repeat constructor.
Defined.

(** ** Cookies of the browser *)

Lemma set_keys_present {V : Type} (d : list (string * V)) (k : string) (v : V) :
  In k (map fst d) -> map fst (Py.set d k v) = map fst d.
Proof.
  induction d as [|[k' w] d IH]; simpl; [intros []|].
  destruct (String.eqb k' k) eqn:Ek; simpl; [reflexivity|].
  intros [->|Hin]; [rewrite String.eqb_refl in Ek; discriminate|].
  rewrite (IH Hin). reflexivity.
Qed.

Lemma set_keys_NoDup {V : Type} (d : list (string * V)) (k : string) (v : V) :
  NoDup (map fst d) -> NoDup (map fst (Py.set d k v)).
Proof.
  intros H. destruct (in_dec string_dec k (map fst d)) as [Hin|Hout].
  - rewrite (set_keys_present d k v Hin). exact H.
  - rewrite (set_fresh d k v Hout), map_app. simpl.
    apply NoDup_app_remove_l with (l := []). simpl.
    apply (Permutation.Permutation_NoDup (l := k :: map fst d)).
    + apply Permutation.Permutation_cons_append.
    + constructor; assumption.
Qed.

Lemma values_of_app (name : string) (a b : list (list (string * string))) :
  values_of name (a ++ b) = values_of name a ++ values_of name b.
Proof. unfold values_of. apply flat_map_app. Qed.

Lemma add_cookie_grouped (cks : list (string * list string))
      (seen : list (list (string * string))) (cookie : list (string * string)) :
  grouped cks seen ->
  Py.get cookie "name" <> None -> Py.get cookie "value" <> None ->
  exists cks', add_cookie cks cookie = Ok cks' /\ grouped cks' (seen ++ [cookie]).
Proof.
  intros [Hnd Hget] Hn Hv.
  destruct (Py.get cookie "name") as [n|] eqn:En; [|congruence].
  destruct (Py.get cookie "value") as [v|] eqn:Ev; [|congruence].
  assert (Hlast : forall name,
             values_of name (seen ++ [cookie])
             = values_of name seen ++ (if String.eqb n name then [v] else [])).
  { intros name. rewrite values_of_app. f_equal. unfold values_of.
    cbn [flat_map]. rewrite En, Ev, app_nil_r. reflexivity. }
  unfold add_cookie, getitem. rewrite En, Ev. cbn [bind].
  destruct (Py.get cks n) as [vs|] eqn:Ec; cbn [bind].
  - rewrite Ec. cbn [bind]. eexists. split; [reflexivity|]. split.
    + apply set_keys_NoDup, Hnd.
    + intros name. rewrite get_set, Hlast.
      destruct (String.eqb n name) eqn:E.
      * apply String.eqb_eq in E. subst name. rewrite Hget in Ec.
        destruct (values_of n seen) as [|x xs]; [discriminate|].
        injection Ec as <-. reflexivity.
      * rewrite app_nil_r. apply Hget.
  - rewrite get_set, String.eqb_refl. cbn [bind app].
    eexists. split; [reflexivity|]. split.
    + apply set_keys_NoDup, set_keys_NoDup, Hnd.
    + intros name. rewrite !get_set, Hlast.
      destruct (String.eqb n name) eqn:E.
      * apply String.eqb_eq in E. subst name. rewrite Hget in Ec.
        destruct (values_of n seen) as [|x xs]; [reflexivity|discriminate].
      * rewrite app_nil_r. apply Hget.
Qed.

Lemma for_each_add_cookie (cookies : list (list (string * string))) :
  forall cks seen,
    grouped cks seen ->
    Forall (fun c => Py.get c "name" <> None /\ Py.get c "value" <> None)
           cookies ->
    exists cks',
      for_each add_cookie cks cookies = Ok cks' /\ grouped cks' (seen ++ cookies).
Proof.
  induction cookies as [|c cs IH]; intros cks seen Hg Hwf.
  - exists cks. rewrite app_nil_r. split; [reflexivity|exact Hg].
  - inversion Hwf as [|? ? [Hn Hv] Hcs]; subst.
    destruct (add_cookie_grouped cks seen c Hg Hn Hv) as [cks1 [E1 Hg1]].
    destruct (IH cks1 (seen ++ [c]) Hg1 Hcs) as [cks' [E' Hg']].
    exists cks'. cbn [for_each]. rewrite E1. cbn [bind].
    rewrite <- app_assoc in Hg'. split; assumption.
Qed.

(** X17.  [parse_cookies_selenium] groups the cookies of the browser by
    name: when every cookie has a name and a value, it returns a
    dictionary with one entry for each name that occurs, and the entry of
    a name holds the values of all the cookies of that name, none lost
    and in the order of the browser. *)
Theorem parse_cookies_selenium_groups
        (cookies : list (list (string * string))) :
  Forall (fun c => Py.get c "name" <> None /\ Py.get c "value" <> None)
         cookies ->
  exists cks,
    parse_cookies_selenium cookies = Ok cks
    /\ NoDup (map fst cks)
    /\ forall name,
         Py.get cks name
         = match values_of name cookies with [] => None | vs => Some vs end.
Proof.
  intros Hwf.
  destruct (for_each_add_cookie cookies [] [] (conj (NoDup_nil _) (fun _ => eq_refl))
                                Hwf) as [cks [E Hg]].
  exists cks. split; [exact E|exact Hg].
Qed.

Lemma parse_cookies_selenium_groups_witness :
  exists cks,
    parse_cookies_selenium SampleBrowser.cookies = Ok cks
    /\ NoDup (map fst cks)
    /\ forall name,
         Py.get cks name
         = match values_of name SampleBrowser.cookies with
           | [] => None
           | vs => Some vs
           end.
Proof.
  apply (parse_cookies_selenium_groups SampleBrowser.cookies).
  repeat constructor; discriminate.
Defined.

(** X18.  A cookie without a name, or without a value, makes
    [parse_cookies_selenium] raise [KeyError] for the missing entry, and
    the cookies grouped before it are lost with it. *)
Theorem parse_cookies_selenium_missing_entry
        (before after : list (list (string * string)))
        (cookie : list (string * string)) :
  Forall (fun c => Py.get c "name" <> None /\ Py.get c "value" <> None)
         before ->
  Py.get cookie "name" = None \/ Py.get cookie "value" = None ->
  parse_cookies_selenium (before ++ cookie :: after)
  = Raise (KeyError (match Py.get cookie "name" with
                     | None => "name"
                     | Some _ => "value"
                     end)).
Proof.
  intros Hwf Hmiss. unfold parse_cookies_selenium.
  destruct (for_each_add_cookie before [] [] (conj (NoDup_nil _) (fun _ => eq_refl))
                                Hwf) as [cks [E Hg]].
  rewrite for_each_app, E. cbn [bind for_each].
  assert (Hc : add_cookie cks cookie
               = Raise (KeyError (match Py.get cookie "name" with
                                  | None => "name"
                                  | Some _ => "value"
                                  end))).
  { unfold add_cookie, getitem.
    destruct (Py.get cookie "name") as [n|] eqn:En; [|reflexivity].
    destruct Hmiss as [Hm|Hm]; [discriminate|]. rewrite Hm. cbn [bind].
    destruct (Py.get cks n) eqn:Ec; cbn [bind].
    - rewrite Ec. reflexivity.
    - rewrite get_set, String.eqb_refl. reflexivity. }
  rewrite Hc. reflexivity.
Qed.

Lemma parse_cookies_selenium_missing_entry_witness :
  parse_cookies_selenium (SampleBrowser.cookies ++ [("name", "theme")] :: [])
  = Raise (KeyError "value").
Proof.
  refine (parse_cookies_selenium_missing_entry
            SampleBrowser.cookies [] [("name", "theme")] _ (or_intror eq_refl)).
  repeat constructor; discriminate.
Defined.

(** ** The loader: stored keys and refused patterns *)

Lemma get_present {V : Type} (d : list (string * V)) (k : string) :
  In k (map fst d) -> Py.get d k <> None.
Proof.
  induction d as [|[k' v] d IH]; simpl; [intros []|].
  destruct (String.eqb k' k) eqn:E; [discriminate|].
  intros [->|H]; [rewrite String.eqb_refl in E; discriminate|apply IH, H].
Qed.

Lemma set_keys_In {V : Type} (d : list (string * V)) (k : string) (v : V)
      (n : string) :
  In n (map fst (Py.set d k v)) <-> n = k \/ In n (map fst d).
Proof.
  destruct (in_dec string_dec k (map fst d)) as [Hin|Hout].
  - rewrite (set_keys_present d k v Hin). split; [tauto|].
    intros [->|H]; assumption.
  - rewrite (set_fresh d k v Hout), map_app, in_app_iff. simpl.
    split; [intros [H|[<-|[]]]; tauto|intros [->|H]; tauto].
Qed.

Lemma transform_keys_NoDup (re_compile : string -> option Re.Pattern)
      (py_int : string -> option Z) (rd : list (string * json_entry))
      (cs : bool) (keys : list string) :
  forall stored d,
    NoDup (map fst stored) ->
    transform_keys re_compile py_int rd cs keys stored = inr d ->
    NoDup (map fst d).
Proof.
  induction keys as [|key keys IH]; intros stored d Hnd E; cbn in E.
  - injection E as <-. exact Hnd.
  - destruct (Py.get rd key) as [entry|]; [|apply (IH _ _ Hnd E)].
    destruct (parse_all re_compile py_int key (to_list entry)) as [err|l];
      [discriminate|].
    apply (IH _ _ (set_keys_NoDup _ _ _ Hnd) E).
Qed.

(** The keys that the loop stores: those it started with, and the stored
    names of the keys it went through. *)
Lemma transform_keys_keys (re_compile : string -> option Re.Pattern)
      (py_int : string -> option Z) (rd : list (string * json_entry))
      (cs : bool) (keys : list string) :
  forall stored d,
    transform_keys re_compile py_int rd cs keys stored = inr d ->
    forall n,
      In n (map fst d)
      <-> In n (map fst stored)
          \/ exists k, In k keys /\ Py.get rd k <> None /\ n = stored_key cs k.
Proof.
  induction keys as [|key keys IH]; intros stored d E n; cbn in E.
  - injection E as <-. split; [tauto|]. intros [H|[k [[] _]]]. exact H.
  - destruct (Py.get rd key) as [entry|] eqn:Eg.
    + destruct (parse_all re_compile py_int key (to_list entry)) as [err|l];
        [discriminate|].
      rewrite (IH _ _ E n), set_keys_In. fold (stored_key cs key). split.
      * intros [[->|H]|[k [Hk [Hg Hn]]]].
        -- right. exists key. split; [left; reflexivity|].
           split; [rewrite Eg; discriminate|reflexivity].
        -- left. exact H.
        -- right. exists k. split; [right; exact Hk|]. split; assumption.
      * intros [H|[k [[<-|Hk] [Hg Hn]]]].
        -- left. right. exact H.
        -- left. left. exact Hn.
        -- right. exists k. split; [exact Hk|]. split; assumption.
    + rewrite (IH _ _ E n). split.
      * intros [H|[k [Hk [Hg Hn]]]]; [left; exact H|].
        right. exists k. split; [right; exact Hk|]. split; assumption.
      * intros [H|[k [[<-|Hk] [Hg Hn]]]]; [left; exact H|congruence|].
        right. exists k. split; [exact Hk|]. split; assumption.
Qed.

(** A rule dictionary that is loaded as a dictionary. *)
Lemma transform_dict (re_compile : string -> option Re.Pattern)
      (py_int : string -> option Z) (rd : list (string * json_entry))
      (cs : bool) (d : list (string * list parsed)) :
  _transform_patterns re_compile py_int (JDict rd) cs = inr (TDict d) ->
  transform_keys re_compile py_int rd cs (map fst rd) [] = inr d
  /\ Py.get d "main" = None.
Proof.
  unfold _transform_patterns. destruct (json_falsy (JDict rd)); [discriminate|].
  destruct (transform_keys re_compile py_int rd cs (map fst rd) [])
    as [err|stored]; [discriminate|].
  destruct (Py.get stored "main") eqn:Em; [discriminate|].
  intros [= <-]. split; [reflexivity|exact Em].
Qed.

Lemma transform_dict_keys (re_compile : string -> option Re.Pattern)
      (py_int : string -> option Z) (rd : list (string * json_entry))
      (cs : bool) (d : list (string * list parsed)) :
  _transform_patterns re_compile py_int (JDict rd) cs = inr (TDict d) ->
  NoDup (map fst d)
  /\ forall n,
       In n (map fst d) <-> exists k, In k (map fst rd) /\ n = stored_key cs k.
Proof.
  intros H. destruct (transform_dict _ _ _ _ _ H) as [E _]. split.
  - apply (transform_keys_NoDup re_compile py_int rd cs (map fst rd) [] d);
      [apply NoDup_nil|exact E].
  - intros n. rewrite (transform_keys_keys _ _ _ _ _ _ _ E n). split.
    + intros [[]|[k [Hk [_ Hn]]]]. exists k. split; assumption.
    + intros [k [Hk Hn]]. right. exists k. split; [exact Hk|].
      split; [apply get_present, Hk|exact Hn].
Qed.

(** *** Keyed matching *)

Lemma match_pairs_In (t : Technology.t) (field : string)
      (pairs : list (string * list string)) (pm : PatternMatch.t) :
  In pm (match_pairs t field pairs)
  <-> exists n ps vs,
        In (n, ps) (Technology.get_pairs t field)
        /\ Py.get (if Py.mem field ["cookies"] then lower_keys pairs else pairs) n
           = Some vs
        /\ In pm (key_hits t ps vs).
Proof.
  unfold match_pairs. rewrite in_flat_map. split.
  - intros [[n ps] [Hin H]].
    destruct (Py.get (if Py.mem field ["cookies"] then lower_keys pairs else pairs)
                     n) as [vs|] eqn:Eg; [|destruct H].
    exists n, ps, vs. split; [exact Hin|]. split; [exact Eg|exact H].
  - intros [n [ps [vs [Hin [Eg H]]]]]. exists (n, ps). split; [exact Hin|].
    rewrite Eg. exact H.
Qed.

Lemma compiled_keys (d : list (string * list Pattern.t)) :
  map fst (compiled d) = map fst d.
Proof. unfold compiled. rewrite map_map. reflexivity. Qed.

(** Matching a keyed field that the loader stored under the names [d]
    against the dictionary [local]: a hit comes from a stored key, which
    is the stored name of a rule key, looked up as it stands. *)
Lemma keyed_hits (re_compile : string -> option Re.Pattern)
      (py_int : string -> option Z) (rd : list (string * json_entry))
      (d : list (string * list parsed)) (t : Technology.t)
      (field : list (string * list Pattern.t))
      (local : list (string * list string)) (pm : PatternMatch.t) :
  _transform_patterns re_compile py_int (JDict rd) false = inr (TDict d) ->
  compiled field = d ->
  (exists n ps vs,
      In (n, ps) field /\ Py.get local n = Some vs /\ In pm (key_hits t ps vs))
  <-> exists k ps vs,
        In k (map fst rd)
        /\ Py.get field (Py.lower k) = Some ps
        /\ Py.get local (Py.lower k) = Some vs
        /\ In pm (key_hits t ps vs).
Proof.
  intros Hd Hf. destruct (transform_dict_keys _ _ _ _ _ Hd) as [Hnd Hkeys].
  rewrite <- Hf, compiled_keys in Hnd, Hkeys. split.
  - intros [n [ps [vs [Hin [Hg Hpm]]]]].
    assert (Hn : In n (map fst field)).
    { apply in_map_iff. exists (n, ps). split; [reflexivity|exact Hin]. }
    apply Hkeys in Hn. destruct Hn as [k [Hk ->]].
    exists k, ps, vs. split; [exact Hk|].
    split; [apply (get_NoDup _ _ _ Hnd Hin)|]. split; assumption.
  - intros [k [ps [vs [_ [Hf' [Hg Hpm]]]]]].
    exists (Py.lower k), ps, vs. split; [apply get_In_key, Hf'|].
    split; assumption.
Qed.

(** C9, as amended.  For a rule dictionary that the loader returns as a
    dictionary, the stored keys are the lower-cased keys of the rule file,
    each once.  A header or meta pattern of a technology that holds this
    dictionary matches exactly through a rule key and the supplied key
    that is identical to the lower-cased rule key, patterns and values
    being looked up under that one name.  A cookie pattern matches exactly
    through a rule key and a supplied key that are equal after
    lower-casing, the values being those that the lower-cased copy of the
    supplied cookies holds under that name. *)
Theorem keyed_fields_match_lower_cased_rule_keys
        (re_compile : string -> option Re.Pattern)
        (py_int : string -> option Z)
        (rd : list (string * json_entry)) (d : list (string * list parsed)) :
  _transform_patterns re_compile py_int (JDict rd) false = inr (TDict d) ->
  (NoDup (map fst d)
   /\ forall n,
        In n (map fst d) <-> exists k, In k (map fst rd) /\ n = Py.lower k)
  /\ (forall t supplied pm,
         compiled (Technology.headers t) = d ->
         In pm (match_headers t supplied)
         <-> exists k s ps vs,
               In k (map fst rd)
               /\ s = Py.lower k
               /\ Py.get (Technology.headers t) (Py.lower k) = Some ps
               /\ Py.get supplied s = Some vs
               /\ In pm (key_hits t ps vs))
  /\ (forall t supplied pm,
         compiled (Technology.meta t) = d ->
         In pm (match_metas t supplied)
         <-> exists k s ps vs,
               In k (map fst rd)
               /\ s = Py.lower k
               /\ Py.get (Technology.meta t) (Py.lower k) = Some ps
               /\ Py.get supplied s = Some vs
               /\ In pm (key_hits t ps vs))
  /\ (forall t supplied pm,
         compiled (Technology.cookies t) = d ->
         In pm (match_cookies t supplied)
         <-> exists k s ps vs,
               In k (map fst rd)
               /\ Py.lower s = Py.lower k
               /\ Py.get (Technology.cookies t) (Py.lower k) = Some ps
               /\ Py.get supplied s = Some vs
               /\ Py.get (lower_keys supplied) (Py.lower k) = Some vs
               /\ In pm (key_hits t ps vs)).
Proof.
  intros Hd. split; [apply (transform_dict_keys _ _ _ _ _ Hd)|].
  split; [|split].
  - intros t supplied pm Hf. unfold match_headers. rewrite match_pairs_In.
    change (Technology.get_pairs t "headers") with (Technology.headers t).
    change (Py.mem "headers" ["cookies"]) with false. cbv iota.
    rewrite (keyed_hits _ _ _ _ t _ supplied pm Hd Hf). split.
    + intros [k [ps [vs [Hk [Hp [Hv Hpm]]]]]].
      exists k, (Py.lower k), ps, vs. auto.
    + intros [k [s [ps [vs [Hk [-> [Hp [Hv Hpm]]]]]]]].
      exists k, ps, vs. auto.
  - intros t supplied pm Hf. unfold match_metas. rewrite match_pairs_In.
    change (Technology.get_pairs t "meta") with (Technology.meta t).
    change (Py.mem "meta" ["cookies"]) with false. cbv iota.
    rewrite (keyed_hits _ _ _ _ t _ supplied pm Hd Hf). split.
    + intros [k [ps [vs [Hk [Hp [Hv Hpm]]]]]].
      exists k, (Py.lower k), ps, vs. auto.
    + intros [k [s [ps [vs [Hk [-> [Hp [Hv Hpm]]]]]]]].
      exists k, ps, vs. auto.
  - intros t supplied pm Hf. unfold match_cookies. rewrite match_pairs_In.
    change (Technology.get_pairs t "cookies") with (Technology.cookies t).
    change (Py.mem "cookies" ["cookies"]) with true. cbv iota.
    rewrite (keyed_hits _ _ _ _ t _ (lower_keys supplied) pm Hd Hf). split.
    + intros [k [ps [vs [Hk [Hp [Hv Hpm]]]]]].
      destruct (lower_keys_origin supplied _ _ (get_In_key _ _ _ Hv))
        as [s [Hs Hl]].
      exists k, s, ps, vs. auto 7.
    + intros [k [s [ps [vs [Hk [_ [Hp [_ [Hv Hpm]]]]]]]]].
      exists k, ps, vs. auto.
Qed.

Lemma keyed_fields_match_lower_cased_rule_keys_witness :
  In {| PatternMatch.technology := SampleSignals.nginx;
        PatternMatch.pattern := SampleSignals.parse "nginx" "Server";
        PatternMatch.version := EmptyString |}
     (match_headers SampleSignals.nginx [("server", ["nginx/1.25"])]).
Proof.
  apply (proj1 (proj2 (keyed_fields_match_lower_cased_rule_keys
                         SampleParse.compile SampleParse.int
                         [("Server", JStr "nginx")]
                         (compiled (Technology.headers SampleSignals.nginx))
                         eq_refl))
               SampleSignals.nginx [("server", ["nginx/1.25"])] _ eq_refl).
  exists "Server", "server", [SampleSignals.parse "nginx" "Server"],
         ["nginx/1.25"].
  split; [left; reflexivity|]. split; [reflexivity|].
  split; [reflexivity|]. split; [reflexivity|]. left. reflexivity.
Defined.

(** C9, as stated, fails for headers.  The rule file spells the key
    [Server]; the loader stores it as [server]; a supplied header spelled
    [Server], identical to the key of the rule file, finds nothing, and one
    spelled [server], which differs from it in case, matches. *)
Lemma header_key_of_rule_file_does_not_match_itself :
  _transform_patterns SampleParse.compile SampleParse.int
                      SampleSignals.server_rule false
  = inr (TDict (compiled (Technology.headers SampleSignals.nginx)))
  /\ match_headers SampleSignals.nginx [("Server", ["nginx/1.25"])] = []
  /\ map pm_name (match_headers SampleSignals.nginx [("server", ["nginx/1.25"])])
     = ["Nginx"].
Proof. repeat split; reflexivity. Qed.

(** *** Keys that do not collide *)

Lemma NoDup_map_inv_fst (cs : bool) (rd : list (string * json_entry)) :
  NoDup (map (fun kv => stored_key cs (fst kv)) rd) -> NoDup (map fst rd).
Proof.
  intros H. rewrite <- (map_map fst (stored_key cs)) in H.
  apply (NoDup_map_inv _ _ H).
Qed.

(** The loop of [_transform_patterns] on keys that do not collide. *)
Lemma transform_fold (re_compile : string -> option Re.Pattern)
      (py_int : string -> option Z) (cs : bool)
      (rd : list (string * json_entry)) :
  NoDup (map (fun kv => stored_key cs (fst kv)) rd) ->
  forall todo done stored,
    rd = done ++ todo ->
    map fst stored = map (fun kv => stored_key cs (fst kv)) done ->
    transform_keys re_compile py_int rd cs (map fst todo) stored
    = match parse_entries re_compile py_int cs todo with
      | inl err => inl err
      | inr d => inr (stored ++ d)
      end.
Proof.
  intros Hnd. induction todo as [|[k e] todo IH]; intros done stored Hrd Hst.
  - cbn. rewrite app_nil_r. reflexivity.
  - cbn [map fst transform_keys parse_entries].
    rewrite (get_NoDup rd k e (NoDup_map_inv_fst cs rd Hnd))
      by (rewrite Hrd; apply in_or_app; right; left; reflexivity).
    destruct (parse_all re_compile py_int k (to_list e)) as [err|ps];
      [reflexivity|].
    fold (stored_key cs k). rewrite set_fresh.
    + rewrite (IH (done ++ [(k, e)]) (stored ++ [(stored_key cs k, ps)])).
      * destruct (parse_entries re_compile py_int cs todo) as [err|d];
          [reflexivity|]. rewrite <- app_assoc. reflexivity.
      * rewrite Hrd, <- app_assoc. reflexivity.
      * rewrite !map_app, Hst. reflexivity.
    + rewrite Hst. intros Hin.
      rewrite Hrd, map_app in Hnd. cbn [map fst] in Hnd.
      apply NoDup_remove_2 in Hnd. apply Hnd, in_or_app. left. exact Hin.
Qed.

Lemma transform_parsed (re_compile : string -> option Re.Pattern)
      (py_int : string -> option Z) (cs : bool)
      (rd : list (string * json_entry)) :
  NoDup (map (fun kv => stored_key cs (fst kv)) rd) ->
  rd <> [] ->
  _transform_patterns re_compile py_int (JDict rd) cs
  = match parse_entries re_compile py_int cs rd with
    | inl err => inl err
    | inr d =>
        inr match Py.get d "main" with
            | Some main => TList main
            | None => TDict d
            end
    end.
Proof.
  intros Hnd Hne. unfold _transform_patterns.
  replace (json_falsy (JDict rd)) with false
    by (destruct rd; [exfalso; apply Hne; reflexivity|reflexivity]).
  rewrite (transform_fold re_compile py_int cs rd Hnd rd [] [] eq_refl eq_refl).
  destruct (parse_entries re_compile py_int cs rd); reflexivity.
Qed.

Lemma parse_entries_keys (re_compile : string -> option Re.Pattern)
      (py_int : string -> option Z) (cs : bool)
      (rd : list (string * json_entry)) :
  forall d,
    parse_entries re_compile py_int cs rd = inr d ->
    map fst d = map (fun kv => stored_key cs (fst kv)) rd.
Proof.
  induction rd as [|[k e] rd IH]; intros d E; cbn in E.
  - injection E as <-. reflexivity.
  - destruct (parse_all re_compile py_int k (to_list e)) as [err|ps];
      [discriminate|].
    destruct (parse_entries re_compile py_int cs rd) as [err|d'];
      [discriminate|].
    injection E as <-. cbn. rewrite (IH d' eq_refl). reflexivity.
Qed.

Lemma parse_entries_In (re_compile : string -> option Re.Pattern)
      (py_int : string -> option Z) (cs : bool)
      (rd : list (string * json_entry)) :
  forall d,
    parse_entries re_compile py_int cs rd = inr d ->
    forall k e,
      In (k, e) rd ->
      exists ps,
        parse_all re_compile py_int k (to_list e) = inr ps
        /\ In (stored_key cs k, ps) d.
Proof.
  induction rd as [|[k0 e0] rd IH]; intros d E k e Hin; [destruct Hin|].
  cbn in E.
  destruct (parse_all re_compile py_int k0 (to_list e0)) as [err|ps0] eqn:E0;
    [discriminate|].
  destruct (parse_entries re_compile py_int cs rd) as [err|d'];
    [discriminate|].
  injection E as <-. destruct Hin as [[= -> ->]|Hin].
  - exists ps0. split; [exact E0|left; reflexivity].
  - destruct (IH d' eq_refl k e Hin) as [ps [Ep Hp]].
    exists ps. split; [exact Ep|right; exact Hp].
Qed.

(** The first entry with a refused pattern string decides. *)
Lemma parse_entries_error (re_compile : string -> option Re.Pattern)
      (py_int : string -> option Z) (cs : bool)
      (l1 : list (string * json_entry)) (k : string) (e : json_entry)
      (l2 : list (string * json_entry)) (err : parse_error) :
  (forall k' e',
      In (k', e') l1 ->
      exists ps, parse_all re_compile py_int k' (to_list e') = inr ps) ->
  parse_all re_compile py_int k (to_list e) = inl err ->
  parse_entries re_compile py_int cs (l1 ++ (k, e) :: l2) = inl err.
Proof.
  induction l1 as [|[k0 e0] l1 IH]; intros Hok He; cbn.
  - rewrite He. reflexivity.
  - destruct (Hok k0 e0 (or_introl eq_refl)) as [ps0 E0]. rewrite E0.
    rewrite IH; [reflexivity| |exact He].
    intros k' e' Hin. apply (Hok k' e'). right. exact Hin.
Qed.

(** X13.  When no two keys of a keyed field of the rule file are stored
    under the same name (the key itself for the JavaScript field, its lower
    case for the others) and none is stored as [main], the loader goes
    through the entries in the order of the rule file.  When every pattern
    string is accepted, it returns a dictionary with one entry per key, in
    that order, that holds the patterns of the key parsed with the key as
    it is spelled in the rule file, and every key is found under its stored
    name.  When a pattern string is refused, it raises what
    [_parse_pattern] raised for the first entry that has one. *)
Theorem transform_patterns_keyed
        (re_compile : string -> option Re.Pattern)
        (py_int : string -> option Z)
        (case_sensitive : bool) (rd : list (string * json_entry)) :
  NoDup (map (fun kv => stored_key case_sensitive (fst kv)) rd) ->
  rd <> [] ->
  ~ In "main" (map (fun kv => stored_key case_sensitive (fst kv)) rd) ->
  _transform_patterns re_compile py_int (JDict rd) case_sensitive
  = match parse_entries re_compile py_int case_sensitive rd with
    | inl err => inl err
    | inr d => inr (TDict d)
    end
  /\ (forall d,
         parse_entries re_compile py_int case_sensitive rd = inr d ->
         map fst d = map (fun kv => stored_key case_sensitive (fst kv)) rd
         /\ forall k e,
              In (k, e) rd ->
              exists ps,
                parse_all re_compile py_int k (to_list e) = inr ps
                /\ Py.get d (stored_key case_sensitive k) = Some ps)
  /\ (forall l1 k e l2 err,
         rd = l1 ++ (k, e) :: l2 ->
         (forall k' e',
             In (k', e') l1 ->
             exists ps, parse_all re_compile py_int k' (to_list e') = inr ps) ->
         parse_all re_compile py_int k (to_list e) = inl err ->
         _transform_patterns re_compile py_int (JDict rd) case_sensitive
         = inl err).
Proof.
  intros Hnd Hne Hmain.
  pose proof (transform_parsed re_compile py_int case_sensitive rd Hnd Hne) as Ht.
  split; [|split].
  - rewrite Ht.
    destruct (parse_entries re_compile py_int case_sensitive rd) as [err|d] eqn:E;
      [reflexivity|].
    rewrite get_absent; [reflexivity|].
    rewrite (parse_entries_keys _ _ _ _ d E). exact Hmain.
  - intros d E. pose proof (parse_entries_keys _ _ _ _ d E) as Hk.
    split; [exact Hk|]. intros k e Hin.
    destruct (parse_entries_In _ _ _ _ d E k e Hin) as [ps [Ep Hp]].
    exists ps. split; [exact Ep|]. apply get_NoDup; [|exact Hp].
    rewrite Hk. exact Hnd.
  - intros l1 k e l2 err Hrd Hok He. rewrite Ht, Hrd.
    rewrite (parse_entries_error _ _ _ l1 k e l2 err Hok He). reflexivity.
Qed.

Lemma transform_patterns_keyed_witness :
  _transform_patterns SampleParse.compile SampleParse.int
                      (JDict [("Server", JStr "nginx");
                              ("X-Powered-By", JList ["php"; "asp"])])
                      false
  = inr (TDict (compiled
                  [("server", [SampleSignals.parse "nginx" "Server"]);
                   ("x-powered-by",
                    [SampleSignals.parse "php" "X-Powered-By";
                     SampleSignals.parse "asp" "X-Powered-By"])])).
Proof.
  apply (proj1 (transform_patterns_keyed
                  SampleParse.compile SampleParse.int false
                  [("Server", JStr "nginx");
                   ("X-Powered-By", JList ["php"; "asp"])]
                  ltac:(simpl; repeat constructor; simpl; intuition discriminate)
                  ltac:(discriminate)
                  ltac:(simpl; intuition discriminate))).
Defined.

(** X14.  An absent or empty field becomes the empty list, and nothing is
    parsed.  A plain string or list that is not empty becomes the flat list
    of its patterns parsed under the key [main], or raises what
    [_parse_pattern] raised for the first refused string.  A dictionary one
    of whose keys is stored as [main] becomes the flat list of that key
    alone, the patterns of its other keys being dropped; they are parsed
    all the same, so a refused pattern string under any key, dropped or
    not, raises. *)
Theorem transform_patterns_flat
        (re_compile : string -> option Re.Pattern)
        (py_int : string -> option Z) (case_sensitive : bool) :
  (forall patterns,
      json_falsy patterns = true ->
      _transform_patterns re_compile py_int patterns case_sensitive
      = inr (TList []))
  /\ (forall e,
         json_falsy (JOne e) = false ->
         _transform_patterns re_compile py_int (JOne e) case_sensitive
         = match parse_all re_compile py_int "main" (to_list e) with
           | inl err => inl err
           | inr ps => inr (TList ps)
           end)
  /\ (forall rd k e,
         NoDup (map (fun kv => stored_key case_sensitive (fst kv)) rd) ->
         In (k, e) rd ->
         stored_key case_sensitive k = "main" ->
         _transform_patterns re_compile py_int (JDict rd) case_sensitive
         = match parse_entries re_compile py_int case_sensitive rd with
           | inl err => inl err
           | inr _ =>
               match parse_all re_compile py_int k (to_list e) with
               | inl err => inl err
               | inr ps => inr (TList ps)
               end
           end)
  /\ (forall l1 k e l2 err,
         NoDup (map (fun kv => stored_key case_sensitive (fst kv))
                    (l1 ++ (k, e) :: l2)) ->
         (forall k' e',
             In (k', e') l1 ->
             exists ps, parse_all re_compile py_int k' (to_list e') = inr ps) ->
         parse_all re_compile py_int k (to_list e) = inl err ->
         _transform_patterns re_compile py_int (JDict (l1 ++ (k, e) :: l2))
                             case_sensitive
         = inl err).
Proof.
  split; [|split; [|split]].
  - intros patterns H. unfold _transform_patterns. rewrite H. reflexivity.
  - intros e H. unfold _transform_patterns. rewrite H.
    cbn [map fst transform_keys Py.get]. rewrite String.eqb_refl.
    replace (if case_sensitive then "main" else Py.lower "main") with "main"
      by (destruct case_sensitive; reflexivity).
    destruct (parse_all re_compile py_int "main" (to_list e)) as [err|ps];
      [reflexivity|].
    cbn [transform_keys Py.set Py.get]. rewrite String.eqb_refl. reflexivity.
  - intros rd k e Hnd Hin Hk.
    rewrite (transform_parsed re_compile py_int case_sensitive rd Hnd)
      by (intros ->; destruct Hin).
    destruct (parse_entries re_compile py_int case_sensitive rd) as [err|d] eqn:E;
      [reflexivity|].
    destruct (parse_entries_In _ _ _ _ d E k e Hin) as [ps [Ep Hp]].
    rewrite Ep. rewrite Hk in Hp.
    rewrite (get_NoDup d "main" ps); [reflexivity| |exact Hp].
    rewrite (parse_entries_keys _ _ _ _ d E). exact Hnd.
  - intros l1 k e l2 err Hnd Hok He.
    rewrite (transform_parsed re_compile py_int case_sensitive _ Hnd)
      by (destruct l1; discriminate).
    rewrite (parse_entries_error _ _ _ l1 k e l2 err Hok He). reflexivity.
Qed.

Lemma transform_patterns_flat_witness :
  _transform_patterns SampleParse.compile SampleParse.int
                      (JDict [("Server", JStr "nginx"); ("Main", JStr "x")]) false
  = inr (TList [Parsed (SampleSignals.parse "x" "Main")]).
Proof.
  apply (proj1 (proj2 (proj2 (transform_patterns_flat
                                SampleParse.compile SampleParse.int false)))
               [("Server", JStr "nginx"); ("Main", JStr "x")] "Main" (JStr "x")).
  - simpl. repeat constructor; simpl; intuition discriminate.
  - right. left. reflexivity.
  - reflexivity.
Defined.
